(** * TermCoreModule: a shallow embedding of the VT terminal core

    The embedding follows the class [TermCoreModule] of the console
    subsystem method by method.  Conventions:

    - JavaScript numbers that hold cursor positions, sizes and escape
      parameters are integers of [Z].  The source computes with doubles,
      which are these integers up to 2^53.  A CSI parameter can be larger:
      [parseInt] then returns the nearest double or [Infinity] where the
      model keeps the integer, and both are above 2^53.  The one loop
      whose bound such a parameter can reach, the row loop of
      erase-to-cursor, is modelled with its counter, which does not get
      past 2^53.
    - The text of a write is a list of UTF-16 code units, each a [Z].
      [write] and [processOutput] take the text the output loop works on,
      that is the data after [TextDecoder]; for a string [s] this is
      [decodeEncoded s] (a lone surrogate replaced, one leading U+FEFF
      dropped), which is [s] itself for every string below the surrogates.
      An entry of the session log is held by that text.
    - A JavaScript array is a finite map from integer keys to elements
      together with its [length]: a store at an index at or beyond the
      length extends the array and leaves holes, a store at a negative key
      creates a property and leaves the length alone, a read of a missing
      key is [undefined] ([None]).
    - Rows and cells are held by value.  The source copies the pen into
      every cell it creates and moves rows by reference; a row object is
      on the screen and in the scrollback at once only after a scroll with
      [scrollTop > scrollBottom], and a later store into that row shows in
      both.  What is stated of the rows that were in the scrollback before
      an operation is therefore stated only for operations that store
      into no existing row, and otherwise only their number.
    - [replayData] is held by value as well.  When the caller starts a
      replay on the session-log array itself, the two fields are one
      array in the source and a write that records shows in both; what is
      stated of [replayData] is stated for steps that record nothing.
    - A method that can raise returns a [result]; [TypeError] is what
      JavaScript raises on a property store into [undefined].  The state a
      raising call leaves behind is not modelled: a run of operations stops
      at the first one that raises.
    - Telemetry, the display callback and the clipboard are collaborators
      outside the class; a fresh terminal has none attached and they are
      left out. Timestamps of log entries are left out too. *)

From Stdlib Require Import ZArith List Lia Ascii String.
From stdpp Require Import base decidable option list gmap fin_maps.
Import ListNotations.

Local Open Scope Z_scope.

(** ** JavaScript arrays *)

Module JsArray.

Section Defs.
Context {A : Type}.

Record t := mk { elems : gmap Z A; len : Z }.

(** [[]] *)
Definition empty : t := {| elems := ∅; len := 0 |}.

(** [a[k]] *)
Definition get (a : t) (k : Z) : option A := elems a !! k.

(** [a[k] = v], [v] possibly [undefined] *)
Definition put (a : t) (k : Z) (v : option A) : t :=
  {| elems := match v with
              | Some x => <[k := x]> (elems a)
              | None => delete k (elems a)
              end;
     len := if decide (0 <= k) then Z.max (len a) (k + 1) else len a |}.

Definition set (a : t) (k : Z) (v : A) : t := put a k (Some v).

(** [a.slice(0, e)] *)
Definition slice0 (a : t) (e : Z) : t :=
  let stop := if decide (e < 0) then Z.max (len a + e) 0 else Z.min e (len a) in
  {| elems := filter (fun kv => 0 <= kv.1 < stop) (elems a);
     len := stop |}.

End Defs.

Arguments t : clear implicits.

End JsArray.

(** [l.slice(start)] on a dense list, [start] an integer. *)
Definition list_slice_from {A} (l : list A) (start : Z) : list A :=
  let n := Z.of_nat (length l) in
  let k := if decide (start < 0) then Z.max (n + start) 0 else Z.min start n in
  drop (Z.to_nat k) l.

(** ** Data model *)

Record Attributes := mkAttributes {
  bold : bool;
  dim : bool;
  italic : bool;
  underline : bool;
  blink : bool;
  reverse : bool;
  strikethrough : bool;
  foreground : Z;
  background : Z
}.

Definition defaultAttributes : Attributes :=
  {| bold := false; dim := false; italic := false; underline := false;
     blink := false; reverse := false; strikethrough := false;
     foreground := 7; background := 0 |}.

Record Cell := mkCell { char : Z; cellAttributes : Attributes }.

Abbreviation Row := (JsArray.t Cell).

Abbreviation Text := (list Z).

Record TerminalState := mkTerminalState {
  cursorX : Z;
  cursorY : Z;
  rows : Z;
  cols : Z;
  scrollTop : Z;
  scrollBottom : Z;
  charset : Z;
  wraparound : bool;
  originMode : bool;
  insertMode : bool;
  applicationKeypad : bool;
  applicationCursor : bool
}.

Record Config := mkConfig {
  maxScrollback : Z;
  tabSize : Z;
  enableReplay : bool;
  enableMouse : bool;
  enableClipboard : bool;
  maxReplaySize : Z
}.

Inductive EntryType := Output | OtherEntry.

Record LogEntry := mkLogEntry { entryType : EntryType; entryData : Text }.

Record SavedCursor := mkSavedCursor {
  savedX : Z;
  savedY : Z;
  savedAttributes : Attributes
}.

Record Term := mkTerm {
  terminalState : TerminalState;
  screen : JsArray.t Row;
  scrollback : list (option Row);
  attributes : Attributes;
  config : Config;
  sessionLog : list LogEntry;
  replayData : list LogEntry;
  isReplaying : bool;
  replayIndex : nat;
  savedCursor : option SavedCursor
}.

(** Field updates ([this.x = v]). *)

Definition set_cursorX (v : Z) (ts : TerminalState) : TerminalState :=
  mkTerminalState v (cursorY ts) (rows ts) (cols ts) (scrollTop ts)
    (scrollBottom ts) (charset ts) (wraparound ts) (originMode ts)
    (insertMode ts) (applicationKeypad ts) (applicationCursor ts).

Definition set_cursorY (v : Z) (ts : TerminalState) : TerminalState :=
  mkTerminalState (cursorX ts) v (rows ts) (cols ts) (scrollTop ts)
    (scrollBottom ts) (charset ts) (wraparound ts) (originMode ts)
    (insertMode ts) (applicationKeypad ts) (applicationCursor ts).

Definition set_rows (v : Z) (ts : TerminalState) : TerminalState :=
  mkTerminalState (cursorX ts) (cursorY ts) v (cols ts) (scrollTop ts)
    (scrollBottom ts) (charset ts) (wraparound ts) (originMode ts)
    (insertMode ts) (applicationKeypad ts) (applicationCursor ts).

Definition set_cols (v : Z) (ts : TerminalState) : TerminalState :=
  mkTerminalState (cursorX ts) (cursorY ts) (rows ts) v (scrollTop ts)
    (scrollBottom ts) (charset ts) (wraparound ts) (originMode ts)
    (insertMode ts) (applicationKeypad ts) (applicationCursor ts).

Definition set_scrollTop (v : Z) (ts : TerminalState) : TerminalState :=
  mkTerminalState (cursorX ts) (cursorY ts) (rows ts) (cols ts) v
    (scrollBottom ts) (charset ts) (wraparound ts) (originMode ts)
    (insertMode ts) (applicationKeypad ts) (applicationCursor ts).

Definition set_scrollBottom (v : Z) (ts : TerminalState) : TerminalState :=
  mkTerminalState (cursorX ts) (cursorY ts) (rows ts) (cols ts) (scrollTop ts)
    v (charset ts) (wraparound ts) (originMode ts)
    (insertMode ts) (applicationKeypad ts) (applicationCursor ts).

Definition set_applicationCursor (v : bool) (ts : TerminalState) : TerminalState :=
  mkTerminalState (cursorX ts) (cursorY ts) (rows ts) (cols ts) (scrollTop ts)
    (scrollBottom ts) (charset ts) (wraparound ts) (originMode ts)
    (insertMode ts) (applicationKeypad ts) v.

Definition with_state (f : TerminalState -> TerminalState) (t : Term) : Term :=
  mkTerm (f (terminalState t)) (screen t) (scrollback t) (attributes t)
    (config t) (sessionLog t) (replayData t) (isReplaying t) (replayIndex t)
    (savedCursor t).

Definition set_screen (v : JsArray.t Row) (t : Term) : Term :=
  mkTerm (terminalState t) v (scrollback t) (attributes t)
    (config t) (sessionLog t) (replayData t) (isReplaying t) (replayIndex t)
    (savedCursor t).

Definition set_scrollback (v : list (option Row)) (t : Term) : Term :=
  mkTerm (terminalState t) (screen t) v (attributes t)
    (config t) (sessionLog t) (replayData t) (isReplaying t) (replayIndex t)
    (savedCursor t).

Definition set_attributes (v : Attributes) (t : Term) : Term :=
  mkTerm (terminalState t) (screen t) (scrollback t) v
    (config t) (sessionLog t) (replayData t) (isReplaying t) (replayIndex t)
    (savedCursor t).

Definition set_sessionLog (v : list LogEntry) (t : Term) : Term :=
  mkTerm (terminalState t) (screen t) (scrollback t) (attributes t)
    (config t) v (replayData t) (isReplaying t) (replayIndex t)
    (savedCursor t).

Definition set_replayData (v : list LogEntry) (t : Term) : Term :=
  mkTerm (terminalState t) (screen t) (scrollback t) (attributes t)
    (config t) (sessionLog t) v (isReplaying t) (replayIndex t)
    (savedCursor t).

Definition set_isReplaying (v : bool) (t : Term) : Term :=
  mkTerm (terminalState t) (screen t) (scrollback t) (attributes t)
    (config t) (sessionLog t) (replayData t) v (replayIndex t)
    (savedCursor t).

Definition set_replayIndex (v : nat) (t : Term) : Term :=
  mkTerm (terminalState t) (screen t) (scrollback t) (attributes t)
    (config t) (sessionLog t) (replayData t) (isReplaying t) v
    (savedCursor t).

Definition set_savedCursor (v : option SavedCursor) (t : Term) : Term :=
  mkTerm (terminalState t) (screen t) (scrollback t) (attributes t)
    (config t) (sessionLog t) (replayData t) (isReplaying t) (replayIndex t)
    v.

(** Shorthands for [this.terminalState.x]. *)
Definition curX (t : Term) : Z := cursorX (terminalState t).
Definition curY (t : Term) : Z := cursorY (terminalState t).
Definition nrows (t : Term) : Z := rows (terminalState t).
Definition ncols (t : Term) : Z := cols (terminalState t).
Definition regionTop (t : Term) : Z := scrollTop (terminalState t).
Definition regionBottom (t : Term) : Z := scrollBottom (terminalState t).

(** ** Outcomes of a method call *)

Inductive JsError := TypeError | FeatureDisabled.

Inductive result (A : Type) :=
  | Ok (a : A)
  | Throw (e : JsError)
  | OutOfFuel.

Arguments Ok {A} a.
Arguments Throw {A} e.
Arguments OutOfFuel {A}.

#[global] Instance result_ret : MRet result := fun A a => Ok a.

#[global] Instance result_bind : MBind result := fun A B k r =>
  match r with
  | Ok a => k a
  | Throw e => Throw e
  | OutOfFuel => OutOfFuel
  end.

(** ** Screen construction *)

Definition blankCell (a : Attributes) : Cell :=
  {| char := 32; cellAttributes := a |}.

(** The loop [for (col = from; col < to; col++) row[col] = blank]. *)
Definition fillBlank (row : Row) (from to : Z) (a : Attributes) : Row :=
  foldl (fun r col => JsArray.set r col (blankCell a)) row (seqZ from (to - from)).

(** [[]] followed by the column loop over [0 .. n-1]. *)
Definition blankRow (n : Z) (a : Attributes) : Row :=
  fillBlank JsArray.empty 0 n a.

Definition initializeScreen (t : Term) : Term :=
  foldl (fun t row =>
           set_screen (JsArray.set (screen t) row
                         (blankRow (ncols t) (attributes t))) t)
        t (seqZ 0 (nrows t)).

Definition defaultConfig : Config :=
  {| maxScrollback := 10000; tabSize := 8; enableReplay := true;
     enableMouse := true; enableClipboard := true; maxReplaySize := 1000000 |}.

(** [new TermCoreModule()] *)
Definition constructor : Term :=
  initializeScreen
    {| terminalState :=
         {| cursorX := 0; cursorY := 0; rows := 24; cols := 80;
            scrollTop := 0; scrollBottom := 23; charset := 66;
            wraparound := true; originMode := false; insertMode := false;
            applicationKeypad := false; applicationCursor := false |};
       screen := JsArray.empty;
       scrollback := [];
       attributes := defaultAttributes;
       config := defaultConfig;
       sessionLog := [];
       replayData := [];
       isReplaying := false;
       replayIndex := 0%nat;
       savedCursor := None |}.

(** ** Command interpreter *)

Definition clearRow (row : Z) (t : Term) : Term :=
  set_screen (JsArray.set (screen t) row (blankRow (ncols t) (attributes t))) t.

(** The row pushed onto the scrollback is the row at [scrollTop] as it is
    at the call. *)
Definition scrollUp (t : Term) : Term :=
  let topLine := JsArray.get (screen t) (regionTop t) in
  let pushed := scrollback t ++ [topLine] in
  let kept :=
    if decide (Z.of_nat (length pushed) > maxScrollback (config t))
    then list_slice_from pushed (Z.quot (- maxScrollback (config t)) 2)
    else pushed in
  let shifted :=
    foldl (fun sc row => JsArray.put sc row (JsArray.get sc (row + 1)))
          (screen t) (seqZ (regionTop t) (regionBottom t - regionTop t)) in
  set_screen (JsArray.set shifted (regionBottom t)
                (blankRow (ncols t) (attributes t)))
    (set_scrollback kept t).

Definition lineFeed (t : Term) : Term :=
  if decide (curY t = regionBottom t) then scrollUp t
  else with_state (set_cursorY (curY t + 1)) t.

Definition insertCharacter (c : Z) (t : Term) : result Term :=
  let t1 :=
    if decide (curX t >= ncols t) then
      if wraparound (terminalState t)
      then lineFeed (with_state (set_cursorX 0) t)
      else with_state (set_cursorX (ncols t - 1)) t
    else t in
  match JsArray.get (screen t1) (curY t1) with
  | None => Throw TypeError
  | Some row =>
      let row' := JsArray.set row (curX t1)
                    {| char := c; cellAttributes := attributes t1 |} in
      Ok (with_state (set_cursorX (curX t1 + 1))
            (set_screen (JsArray.set (screen t1) (curY t1) row') t1))
  end.

Definition tab (t : Term) : Term :=
  let ts := tabSize (config t) in
  let nextTabStop := ((curX t + ts) / ts) * ts in
  with_state (set_cursorX (Z.min nextTabStop (ncols t - 1))) t.

Definition backspace (t : Term) : Term :=
  if decide (curX t > 0) then with_state (set_cursorX (curX t - 1)) t else t.

Definition cursorUp (count : Z) (t : Term) : Term :=
  with_state (set_cursorY (Z.max (regionTop t) (curY t - count))) t.

Definition cursorDown (count : Z) (t : Term) : Term :=
  with_state (set_cursorY (Z.min (regionBottom t) (curY t + count))) t.

Definition cursorRight (count : Z) (t : Term) : Term :=
  with_state (set_cursorX (Z.min (ncols t - 1) (curX t + count))) t.

Definition cursorLeft (count : Z) (t : Term) : Term :=
  with_state (set_cursorX (Z.max 0 (curX t - count))) t.

Definition setCursorPosition (row col : Z) (t : Term) : Term :=
  let t1 := with_state (set_cursorY (Z.max 0 (Z.min (nrows t - 1) (row - 1)))) t in
  with_state (set_cursorX (Z.max 0 (Z.min (ncols t1 - 1) (col - 1)))) t1.

(** Monadic loop over the values of a loop variable. *)
Fixpoint forM {A B} (f : A -> B -> result A) (l : list B) (a : A) : result A :=
  match l with
  | [] => Ok a
  | b :: l' => a' ← f a b; forM f l' a'
  end.

(** The loop [for (col = from; col < to; col++) this.screen[row][col] = blank]:
    the first store raises when [this.screen[row]] is [undefined]. *)
Definition eraseCells (row from to : Z) (t : Term) : result Term :=
  if decide (from < to) then
    match JsArray.get (screen t) row with
    | None => Throw TypeError
    | Some r =>
        Ok (set_screen (JsArray.set (screen t) row
                          (fillBlank r from to (attributes t))) t)
    end
  else Ok t.

Definition eraseLine (mode : Z) (t : Term) : result Term :=
  let row := curY t in
  if mode =? 0 then eraseCells row (curX t) (ncols t) t
  else if mode =? 1 then eraseCells row 0 (curX t + 1) t
  else if mode =? 2 then Ok (clearRow row t)
  else Ok t.

(** The largest value a loop counter reaches: [2^53 + 1] is not a double
    and the sum rounds back to [2^53]. *)
Definition maxCount : Z := 9007199254740992.

(** [row++] on a counter in [0 .. 2^53]. *)
Definition increment (row : Z) : Z :=
  if decide (row < maxCount) then row + 1 else row.

(** The loop [for (row = 0; row < this.terminalState.cursorY; row++)
    this.clearRow(row)], from the counter value [row] on.  Its bound is the
    cursor row, which [cursorUp] sets to [scrollTop], which CSI r sets to
    any parameter: the counter does not get past [2^53], so above that
    bound the test never fails. *)
Fixpoint clearRowsBelow (fuel : nat) (row : Z) (t : Term) : result Term :=
  if decide (row < curY t) then
    match fuel with
    | O => OutOfFuel
    | S fuel' => clearRowsBelow fuel' (increment row) (clearRow row t)
    end
  else Ok t.

(** In mode 1 the fuel is the number of turns the row loop takes when it
    ends. *)
Definition eraseDisplay (mode : Z) (t : Term) : result Term :=
  if mode =? 0 then
    t1 ← eraseLine 0 t;
    Ok (foldl (fun t row => clearRow row t) t1
          (seqZ (curY t1 + 1) (nrows t1 - (curY t1 + 1))))
  else if mode =? 1 then
    t1 ← clearRowsBelow (Z.to_nat (curY t)) 0 t;
    eraseLine 1 t1
  else if mode =? 2 then
    Ok (setCursorPosition 1 1
          (foldl (fun t row => clearRow row t) t (seqZ 0 (nrows t))))
  else Ok t.

Definition sgr (a : Attributes) (param : Z) : Attributes :=
  let '(mkAttributes b d i u k r s fg bg) := a in
  if param =? 0 then defaultAttributes
  else if param =? 1 then mkAttributes true d i u k r s fg bg
  else if param =? 2 then mkAttributes b true i u k r s fg bg
  else if param =? 3 then mkAttributes b d true u k r s fg bg
  else if param =? 4 then mkAttributes b d i true k r s fg bg
  else if param =? 5 then mkAttributes b d i u true r s fg bg
  else if param =? 7 then mkAttributes b d i u k true s fg bg
  else if param =? 9 then mkAttributes b d i u k r true fg bg
  else if param =? 22 then mkAttributes false false i u k r s fg bg
  else if param =? 23 then mkAttributes b d false u k r s fg bg
  else if param =? 24 then mkAttributes b d i false k r s fg bg
  else if param =? 25 then mkAttributes b d i u false r s fg bg
  else if param =? 27 then mkAttributes b d i u k false s fg bg
  else if param =? 29 then mkAttributes b d i u k r false fg bg
  else if (30 <=? param) && (param <=? 37) then mkAttributes b d i u k r s (param - 30) bg
  else if (40 <=? param) && (param <=? 47) then mkAttributes b d i u k r s fg (param - 40)
  else a.

Definition setGraphicsRendition (params : list Z) (t : Term) : Term :=
  let params := match params with [] => [0] | _ => params end in
  set_attributes (foldl sgr (attributes t) params) t.

Definition setScrollRegion (top bottom : Z) (t : Term) : Term :=
  let t1 := with_state (set_scrollTop (Z.max 0 (top - 1))) t in
  let t2 := with_state (set_scrollBottom (Z.min (nrows t1 - 1) (bottom - 1))) t1 in
  setCursorPosition 1 1 t2.

Definition setMode (params : list Z) (enable : bool) (t : Term) : Term :=
  foldl (fun t param =>
           if param =? 1 then with_state (set_applicationCursor enable) t else t)
        t params.

Definition saveCursor (t : Term) : Term :=
  set_savedCursor
    (Some {| savedX := curX t; savedY := curY t; savedAttributes := attributes t |}) t.

Definition restoreCursor (t : Term) : Term :=
  match savedCursor t with
  | Some sc =>
      set_attributes (savedAttributes sc)
        (with_state (set_cursorY (savedY sc))
           (with_state (set_cursorX (savedX sc)) t))
  | None => t
  end.

Definition scrollDown (t : Term) : Term :=
  let shifted :=
    foldl (fun sc row => JsArray.put sc row (JsArray.get sc (row - 1)))
          (screen t)
          (List.rev (seqZ (regionTop t + 1) (regionBottom t - regionTop t))) in
  clearRow (regionTop t) (set_screen shifted t).

Definition reverseIndex (t : Term) : Term :=
  if decide (curY t = regionTop t) then scrollDown t
  else with_state (set_cursorY (curY t - 1)) t.

Definition index (t : Term) : Term :=
  if decide (curY t = regionBottom t) then scrollUp t
  else with_state (set_cursorY (curY t + 1)) t.

Definition nextLine (t : Term) : Term :=
  index (with_state (set_cursorX 0) t).

(** ** Resize *)

Definition resize (rows cols : Z) (t : Term) : result Term :=
  let oldRows := nrows t in
  let oldCols := ncols t in
  let t1 := with_state (set_scrollBottom (rows - 1))
              (with_state (set_cols cols) (with_state (set_rows rows) t)) in
  let t2 :=
    if decide (rows > oldRows) then
      foldl (fun t row =>
               set_screen (JsArray.set (screen t) row
                             (blankRow cols (attributes t))) t)
            t1 (seqZ oldRows (rows - oldRows))
    else if decide (rows < oldRows) then
      let t' :=
        foldl (fun t row =>
                 match JsArray.get (screen t) row with
                 | Some r => set_scrollback (scrollback t ++ [Some r]) t
                 | None => t
                 end)
              t1 (seqZ rows (oldRows - rows)) in
      set_screen (JsArray.slice0 (screen t') rows) t'
    else t1 in
  t3 ← forM (fun t row =>
               if decide (cols > oldCols) then
                 eraseCells row oldCols cols t
               else if decide (cols < oldCols) then
                 match JsArray.get (screen t) row with
                 | None => Throw TypeError
                 | Some r =>
                     Ok (set_screen (JsArray.set (screen t) row
                                       (JsArray.slice0 r cols)) t)
                 end
               else Ok t)
            (seqZ 0 (Z.min rows oldRows)) t2;
  let t4 := with_state (set_cursorX (Z.min (curX t3) (cols - 1))) t3 in
  Ok (with_state (set_cursorY (Z.min (curY t4) (rows - 1))) t4).

(** ** Sequence parser *)

(** The code unit of an ASCII character. *)
Definition chr (a : ascii) : Z := Z.of_N (N_of_ascii a).
Arguments chr a%_char.

Definition ESC : Z := 27.
Definition BEL : Z := 7.
Definition CR : Z := 13.
Definition LF : Z := 10.
Definition TAB : Z := 9.
Definition BS : Z := 8.

(** [/[0-9;]/] *)
Definition isParamChar (c : Z) : bool :=
  ((chr "0" <=? c) && (c <=? chr "9")) || (c =? chr ";").

(** The loop that collects [paramString]. *)
Fixpoint collectParams (rest : Text) : Text :=
  match rest with
  | c :: rest' => if isParamChar c then c :: collectParams rest' else []
  | [] => []
  end.

(** [s.split(sep)] *)
Fixpoint split (sep : Z) (s : Text) : list Text :=
  match s with
  | [] => [[]]
  | c :: s' =>
      if c =? sep then [] :: split sep s'
      else match split sep s' with
           | h :: r => (c :: h) :: r
           | [] => [[c]]
           end
  end.

Definition isDigit (c : Z) : bool := (chr "0" <=? c) && (c <=? chr "9").

Fixpoint parseDigits (acc : Z) (p : Text) : Z :=
  match p with
  | c :: p' => if isDigit c then parseDigits (10 * acc + (c - chr "0")) p' else acc
  | [] => acc
  end.

(** [parseInt(p)] on the pieces of a parameter string, which hold digits
    only; [None] is [NaN].  Up to 2^53 the result is the double the source
    gets; above, the source gets the nearest double, or [Infinity] from
    about 309 digits on. *)
Definition parseInt (p : Text) : option Z :=
  match p with
  | c :: _ => if isDigit c then Some (parseDigits 0 p) else None
  | [] => None
  end.

(** [paramString ? paramString.split(';').map(p => parseInt(p) || 0) : []] *)
Definition parseParams (paramString : Text) : list Z :=
  match paramString with
  | [] => []
  | _ => map (fun p => match parseInt p with
                       | Some v => v
                       | None => 0
                       end) (split (chr ";") paramString)
  end.

(** [params[k] || d] *)
Definition paramOr (params : list Z) (k : nat) (d : Z) : Z :=
  match params !! k with
  | Some v => if v =? 0 then d else v
  | None => d
  end.

Definition processCSISequence (text : Text) (startIndex : nat) (t : Term)
  : result (Term * nat) :=
  let paramString := collectParams (drop startIndex text) in
  let i := (startIndex + length paramString)%nat in
  match text !! i with
  | None => Ok (t, length text)
  | Some command =>
      let params := parseParams paramString in
      t' ←
        (if command =? chr "A" then Ok (cursorUp (paramOr params 0 1) t)
         else if command =? chr "B" then Ok (cursorDown (paramOr params 0 1) t)
         else if command =? chr "C" then Ok (cursorRight (paramOr params 0 1) t)
         else if command =? chr "D" then Ok (cursorLeft (paramOr params 0 1) t)
         else if command =? chr "H" then
           Ok (setCursorPosition (paramOr params 0 1) (paramOr params 1 1) t)
         else if command =? chr "J" then eraseDisplay (paramOr params 0 0) t
         else if command =? chr "K" then eraseLine (paramOr params 0 0) t
         else if command =? chr "m" then Ok (setGraphicsRendition params t)
         else if command =? chr "r" then
           Ok (setScrollRegion (paramOr params 0 1) (paramOr params 1 (nrows t)) t)
         else if command =? chr "s" then Ok (saveCursor t)
         else if command =? chr "u" then Ok (restoreCursor t)
         else if (command =? chr "l") || (command =? chr "h") then
           Ok (setMode params (command =? chr "h") t)
         else Ok t);
      Ok (t', S i)
  end.

(** The scan of [processOSCSequence]: how far the index moves from the
    start of [rest], terminator included. *)
Fixpoint oscScan (rest : Text) : nat :=
  match rest with
  | [] => 0
  | c :: rest' =>
      if c =? BEL then 1
      else if (c =? ESC) && match rest' with
                            | d :: _ => d =? chr "\"
                            | [] => false
                            end then 2
      else S (oscScan rest')
  end.

Definition processOSCSequence (text : Text) (startIndex : nat) : nat :=
  (startIndex + oscScan (drop startIndex text))%nat.

Definition processEscapeSequence (text : Text) (startIndex : nat) (t : Term)
  : result (Term * nat) :=
  let i := S startIndex in
  match text !! i with
  | None => Ok (t, S startIndex)
  | Some nextChar =>
      if nextChar =? chr "[" then processCSISequence text (S i) t
      else if nextChar =? chr "]" then Ok (t, processOSCSequence text (S i))
      else if nextChar =? chr "(" then Ok (t, (i + 2)%nat)
      else
        let t' :=
          if nextChar =? chr "M" then reverseIndex t
          else if nextChar =? chr "D" then index t
          else if nextChar =? chr "E" then nextLine t
          else if nextChar =? chr "H" then t
          else if nextChar =? chr "7" then saveCursor t
          else if nextChar =? chr "8" then restoreCursor t
          else t in
        Ok (t', S i)
  end.

(** One turn of the [while] loop of [processOutput], at [char = text[i]]. *)
Definition processOutputStep (text : Text) (i : nat) (char : Z) (t : Term)
  : result (Term * nat) :=
  if char =? ESC then processEscapeSequence text i t
  else if char =? CR then Ok (with_state (set_cursorX 0) t, S i)
  else if char =? LF then Ok (lineFeed t, S i)
  else if char =? TAB then Ok (tab t, S i)
  else if char =? BS then Ok (backspace t, S i)
  else if char >=? 32 then t' ← insertCharacter char t; Ok (t', S i)
  else Ok (t, S i).

Fixpoint processOutputFrom (fuel : nat) (text : Text) (i : nat) (t : Term)
  : result Term :=
  match text !! i with
  | None => Ok t
  | Some char =>
      match fuel with
      | O => OutOfFuel
      | S fuel' =>
          r ← processOutputStep text i char t;
          processOutputFrom fuel' text r.2 r.1
      end
  end.

(** [processOutput(data)] from [text], the decoded data, on. *)
Definition processOutput (text : Text) (t : Term) : result Term :=
  processOutputFrom (length text) text 0 t.

(** ** Session recorder and replay driver *)

Definition addToReplayLog (type : EntryType) (data : Text) (t : Term) : Term :=
  let log := sessionLog t ++ [{| entryType := type; entryData := data |}] in
  set_sessionLog
    (if decide (Z.of_nat (length log) > maxReplaySize (config t))
     then list_slice_from log (Z.quot (- maxReplaySize (config t)) 2)
     else log) t.

(** [write(data)], [data] given by the text it decodes to; the byte count
    it returns is left out. *)
Definition write (data : Text) (t : Term) : result Term :=
  let t1 :=
    if enableReplay (config t) && negb (isReplaying t)
    then addToReplayLog Output data t else t in
  processOutput data t1.

(** [startReplay(replayData)]; [data] is what the array passed holds at
    the call. *)
Definition startReplay (data : list LogEntry) (t : Term) : result Term :=
  if negb (enableReplay (config t)) then Throw FeatureDisabled
  else
    let t1 := set_replayData data (set_replayIndex 0%nat (set_isReplaying true t)) in
    let t2 := initializeScreen t1 in
    Ok (with_state (set_cursorY 0) (with_state (set_cursorX 0) t2)).

Definition stepReplay (t : Term) : result (bool * Term) :=
  if negb (isReplaying t)
     || (length (replayData t) <=? replayIndex t)%nat
  then Ok (false, t)
  else
    match replayData t !! replayIndex t with
    | None => Throw TypeError
    | Some entry =>
        t1 ← match entryType entry with
             | Output => write (entryData entry) t
             | OtherEntry => Ok t
             end;
        let t2 := set_replayIndex (S (replayIndex t1)) t1 in
        Ok ((replayIndex t2 <? length (replayData t2))%nat, t2)
    end.

Definition stopReplay (t : Term) : Term :=
  set_replayIndex 0%nat (set_isReplaying false t).

(** ** Text extraction *)

(** The white space and line terminators that [trim] and [trimEnd] strip. *)
Definition isWhiteSpace (c : Z) : bool :=
  ((9 <=? c) && (c <=? 13)) || (c =? 32) || (c =? 160) || (c =? 5760)
  || ((8192 <=? c) && (c <=? 8202)) || (c =? 8232) || (c =? 8233)
  || (c =? 8239) || (c =? 8287) || (c =? 12288) || (c =? 65279).

Fixpoint trimStart (s : Text) : Text :=
  match s with
  | c :: s' => if isWhiteSpace c then trimStart s' else s
  | [] => []
  end.

Definition trimEnd (s : Text) : Text := List.rev (trimStart (List.rev s)).

Definition trim (s : Text) : Text := trimStart (trimEnd s).

(** The inner loop of [copySelection] and [getScreenText]: the characters
    of the cells of [row] at the columns [from .. to-1] that exist. *)
Definition lineText (t : Term) (row from to : Z) : Text :=
  foldl (fun acc col =>
           match JsArray.get (screen t) row with
           | Some r => match JsArray.get r col with
                       | Some cell => acc ++ [char cell]
                       | None => acc
                       end
           | None => acc
           end)
        [] (seqZ from (to - from)).

Definition copySelection (startRow startCol endRow endCol : Z) (t : Term)
  : result Text :=
  if negb (enableClipboard (config t)) then Throw FeatureDisabled
  else
    let text :=
      foldl (fun text row =>
               let startColForRow := if decide (row = startRow) then startCol else 0 in
               let endColForRow := if decide (row = endRow) then endCol else ncols t - 1 in
               let text := text ++ lineText t row startColForRow (endColForRow + 1) in
               if decide (row < endRow) then text ++ [LF] else text)
            [] (seqZ startRow (endRow - startRow + 1)) in
    Ok (trim text).

Definition getScreenText (t : Term) : Text :=
  foldl (fun text row =>
           let text := text ++ trimEnd (lineText t row 0 (ncols t)) in
           if decide (row < nrows t - 1) then text ++ [LF] else text)
        [] (seqZ 0 (nrows t)).

(** ** Literals *)

Fixpoint str (s : string) : Text :=
  match s with
  | EmptyString => []
  | String a s' => chr a :: str s'
  end.

Definition repeatText (n : nat) (s : Text) : Text := concat (replicate n s).

(** ** Sequences of operations *)

Inductive Op :=
  | Write (data : Text)
  | Resize (rows cols : Z).

Definition runOp (op : Op) (t : Term) : result Term :=
  match op with
  | Write data => write data t
  | Resize rows cols => resize rows cols t
  end.

Definition runOps (ops : list Op) (t : Term) : result Term :=
  forM (fun t op => runOp op t) ops t.

(** The caller's loop [while (term.stepReplay()) {}]. *)
Fixpoint replayToEnd (fuel : nat) (t : Term) : result Term :=
  match fuel with
  | O => OutOfFuel
  | S fuel' =>
      r ← stepReplay t;
      match r with
      | (true, t') => replayToEnd fuel' t'
      | (false, t') => Ok t'
      end
  end.

(** [term.startReplay(term.sessionLog)] and the loop to completion. *)
Definition replayRecorded (t : Term) : result Term :=
  t1 ← startReplay (sessionLog t) t;
  replayToEnd (S (length (sessionLog t))) t1.

(** [this.screen[row].length] *)
Definition rowLength (t : Term) (row : Z) : option Z :=
  match JsArray.get (screen t) row with
  | Some r => Some (JsArray.len r)
  | None => None
  end.

(** An escape sequence: ESC followed by the characters of [s]. *)
Definition esc (s : string) : Text := ESC :: str s.

(** ** Properties of a terminal *)

(** The cursor names a cell of the grid. *)
Definition cursorInGrid (t : Term) : Prop :=
  0 <= curX t < ncols t /\ 0 <= curY t < nrows t.

(** The cursor names a cell of the grid or sits just past the last column
    of a row of the grid. *)
Definition cursorInGridOrPastLast (t : Term) : Prop :=
  0 <= curX t <= ncols t /\ 0 <= curY t < nrows t.

Definition regionInGrid (t : Term) : Prop :=
  0 <= regionTop t /\ regionTop t <= regionBottom t
  /\ regionBottom t <= nrows t - 1.

(** The scroll region is the whole screen. *)
Definition fullRegion (t : Term) : Prop :=
  regionTop t = 0 /\ regionBottom t = nrows t - 1.

(** The saved cursor, if there is one, is a position the live cursor may
    take in the current grid. *)
Definition savedInGrid (t : Term) : Prop :=
  match savedCursor t with
  | Some sc => 0 <= savedX sc <= ncols t /\ 0 <= savedY sc < nrows t
  | None => True
  end.

Definition rowsHaveWidth (t : Term) : Prop :=
  forall row, 0 <= row < nrows t -> rowLength t row = Some (ncols t).

Definition positiveSize (op : Op) : Prop :=
  match op with
  | Resize rows cols => 1 <= rows /\ 1 <= cols
  | Write _ => True
  end.

(** ** Selections, declaratively *)

(** The characters of one row of the selection: from [startCol] on the
    first row (column 0 on the others) up to [endCol] on the last row (the
    last column on the others). *)
Definition selectedRow (t : Term) (startRow startCol endRow endCol row : Z)
  : Text :=
  lineText t row
    (if decide (row = startRow) then startCol else 0)
    ((if decide (row = endRow) then endCol else ncols t - 1) + 1).

Definition selectedRows (t : Term) (startRow startCol endRow endCol : Z)
  : list Text :=
  map (selectedRow t startRow startCol endRow endCol)
      (seqZ startRow (endRow - startRow + 1)).

(** [lines.join('\n')] *)
Fixpoint joinLines (lines : list Text) : Text :=
  match lines with
  | [] => []
  | [l] => l
  | l :: lines' => l ++ LF :: joinLines lines'
  end.

(** The output format the interface description gives for a selection:
    each row stripped of its trailing white space, the rows joined by
    newlines. *)
Definition rowsTrimmedAndJoined (t : Term) (startRow startCol endRow endCol : Z)
  : Text :=
  joinLines (map trimEnd (selectedRows t startRow startCol endRow endCol)).

(** ** Parser progress, as a property of one step *)

(** Whenever a step that started at index [i] returns, it returns an index
    beyond [i]. *)
Definition advances (i : nat) (r : result (Term * nat)) : Prop :=
  forall t j, r = Ok (t, j) -> (i < j)%nat.

(** An OSC terminator (BEL, or ESC followed by a backslash) occurs in
    [rest]. *)
Fixpoint hasOscTerminator (rest : Text) : bool :=
  match rest with
  | [] => false
  | c :: rest' =>
      (c =? BEL)
      || ((c =? ESC) && match rest' with
                        | d :: _ => d =? chr "\"
                        | [] => false
                        end)
      || hasOscTerminator rest'
  end.

(** ** The cursor invariant *)

(** Facts about sizes, region bounds and the column that every write and
    every resize to a positive size keeps. *)
Definition shapeOk (t : Term) : Prop :=
  1 <= nrows t /\ 1 <= ncols t /\ 0 <= curX t
  /\ 0 <= regionTop t /\ 0 <= regionBottom t <= nrows t - 1
  /\ 0 < tabSize (config t)
  /\ match savedCursor t with
     | Some sc => 0 <= savedX sc
     | None => True
     end.

Definition savedRowNonneg (t : Term) : Prop :=
  match savedCursor t with
  | Some sc => 0 <= savedY sc
  | None => True
  end.

(** The invariant: the shape facts; the row is not negative while the
    region starts at row 0 and no negative row is saved; the cursor is in
    the grid (or just past the last column) while the region is the whole
    screen and the saved cursor is in the grid. *)
Definition cursorInv (t : Term) : Prop :=
  shapeOk t
  /\ (regionTop t = 0 -> savedRowNonneg t -> 0 <= curY t)
  /\ (fullRegion t -> savedInGrid t -> cursorInGridOrPastLast t).

(** [t'] differs from [t] at most in the screen, the scrollback, the pen
    and the logs. *)
Definition sameCursor (t t' : Term) : Prop :=
  terminalState t' = terminalState t
  /\ tabSize (config t') = tabSize (config t)
  /\ option_map (fun sc => (savedX sc, savedY sc)) (savedCursor t')
     = option_map (fun sc => (savedX sc, savedY sc)) (savedCursor t).

(** ** Further methods *)

(** [clear()] *)
Definition clear (t : Term) : Term :=
  with_state (set_cursorY 0) (with_state (set_cursorX 0) (initializeScreen t)).

(** [line.map(cell => cell.char).join('')]: the characters at the indices
    [0 .. length-1]; a hole contributes nothing. *)
Definition rowText (r : Row) : Text :=
  foldl (fun acc col =>
           match JsArray.get r col with
           | Some cell => acc ++ [char cell]
           | None => acc
           end)
        [] (seqZ 0 (JsArray.len r)).

(** The [map] of [getScrollbackText]: it raises at an entry that is
    [undefined]. *)
Fixpoint scrollbackLines (sb : list (option Row)) : result (list Text) :=
  match sb with
  | [] => Ok []
  | None :: _ => Throw TypeError
  | Some r :: sb' => ls ← scrollbackLines sb'; Ok (trimEnd (rowText r) :: ls)
  end.

Definition getScrollbackText (t : Term) : result Text :=
  ls ← scrollbackLines (scrollback t); Ok (joinLines ls).

(** ** What a write leaves alone *)

(** The size, the wrap mode, the configuration and the recorder and replay
    fields. *)
Definition frameOf (t : Term) :=
  (nrows t, ncols t, wraparound (terminalState t), config t,
   sessionLog t, replayData t, isReplaying t, replayIndex t).

(** The recorder and replay fields and the configuration. *)
Definition recorderOf (t : Term) :=
  (config t, sessionLog t, replayData t, isReplaying t, replayIndex t).

(** One step of the replay driver once its guard has passed: feed the entry
    through [write] if it is an output entry, then advance the index. *)
Definition replayStep (t : Term) (entry : LogEntry) : result Term :=
  t1 ← match entryType entry with
       | Output => write (entryData entry) t
       | OtherEntry => Ok t
       end;
  Ok (set_replayIndex (S (replayIndex t1)) t1).

(** ** The pen *)

(** Both colour indices are among the eight colours. *)
Definition colourOk (a : Attributes) : Prop :=
  0 <= foreground a <= 7 /\ 0 <= background a <= 7.

Definition penInv (t : Term) : Prop :=
  colourOk (attributes t)
  /\ match savedCursor t with
     | Some sc => colourOk (savedAttributes sc)
     | None => True
     end.

Definition penOf (t : Term) := (attributes t, savedCursor t).

(** ** String data *)

Definition isHighSurrogate (c : Z) : bool := (55296 <=? c) && (c <=? 56319).
Definition isLowSurrogate (c : Z) : bool := (56320 <=? c) && (c <=? 57343).
Definition replacementChar : Z := 65533.
Definition byteOrderMark : Z := 65279.

(** What [new TextEncoder().encode(s)] keeps of a string: a surrogate
    without its partner becomes U+FFFD. *)
Fixpoint toScalarValues (s : Text) : Text :=
  match s with
  | [] => []
  | c :: s' =>
      if isHighSurrogate c then
        match s' with
        | d :: s'' =>
            if isLowSurrogate d then c :: d :: toScalarValues s''
            else replacementChar :: toScalarValues s'
        | [] => [replacementChar]
        end
      else if isLowSurrogate c then replacementChar :: toScalarValues s'
      else c :: toScalarValues s'
  end.

(** The decoder drops one leading U+FEFF. *)
Definition dropByteOrderMark (s : Text) : Text :=
  match s with
  | c :: s' => if c =? byteOrderMark then s' else s
  | [] => []
  end.

(** [new TextDecoder().decode(new TextEncoder().encode(s))]: the text the
    output loop works on when [write] is called with the string [s]. *)
Definition decodeEncoded (s : Text) : Text :=
  dropByteOrderMark (toScalarValues s).

(** ** Plain text *)

(** What one turn of the output loop does with a character other than
    ESC; the index moves on by one. *)
Definition processPlainChar (char : Z) (t : Term) : result Term :=
  if char =? CR then Ok (with_state (set_cursorX 0) t)
  else if char =? LF then Ok (lineFeed t)
  else if char =? TAB then Ok (tab t)
  else if char =? BS then Ok (backspace t)
  else if char >=? 32 then insertCharacter char t
  else Ok t.

(** [this.screen[row][col]], [undefined] when the row or the cell is
    missing. *)
Definition cellAt (t : Term) (row col : Z) : option Cell :=
  match JsArray.get (screen t) row with
  | Some r => JsArray.get r col
  | None => None
  end.

(** ** A well-formed grid *)

(** Every row of the grid exists and has exactly [cols] cells, and the
    screen array is at least [rows] long. *)
Definition gridOk (t : Term) : Prop :=
  rowsHaveWidth t /\ nrows t <= JsArray.len (screen t).

(** The cell a resize leaves at a position of the new grid: the old cell
    where the old grid had one, a blank in the current pen elsewhere. *)
Definition resizedCell (t : Term) (row col : Z) : option Cell :=
  if decide (row < nrows t /\ col < ncols t) then cellAt t row col
  else Some (blankCell (attributes t)).

(** ** Plain runs *)

(** The state plain text and resizes keep: positive sizes, the cursor in
    the grid or just past the last column, the whole screen as scroll
    region, a well-formed grid and a scrollback without missing rows. *)
Definition goodInv (t : Term) : Prop :=
  1 <= nrows t /\ 1 <= ncols t
  /\ cursorInGridOrPastLast t /\ fullRegion t
  /\ 0 < tabSize (config t)
  /\ gridOk t
  /\ Forall is_Some (scrollback t).

(** A write of text without ESC, or a resize to a positive size. *)
Definition plainOp (op : Op) : Prop :=
  match op with
  | Write data => Forall (fun c => c <> ESC) data
  | Resize rows cols => 1 <= rows /\ 1 <= cols
  end.

(** A plain run: text that wraps and scrolls, a resize, more text. *)
Definition plainOps : list Op :=
  [ Write (repeatText 30 (str "line" ++ [CR; LF]) ++ repeatText 85 (str "w"));
    Resize 12 40;
    Write ([TAB] ++ str "after" ++ [BS; LF; LF]) ].

(** ** Example states *)

Definition okOr (r : result Term) (d : Term) : Term :=
  match r with
  | Ok t => t
  | _ => d
  end.

(** A terminal with a bold red pen and the scroll region at rows 5-10. *)
Definition boldRegionTerm : Term :=
  okOr (write (esc "[1;31m" ++ esc "[5;10r") constructor) constructor.

(** A terminal showing "A" on row 0 and "B" on row 1. *)
Definition twoLineTerm : Term :=
  okOr (write (str "A" ++ [CR; LF] ++ str "B") constructor) constructor.

(** A run that fills the first row, grows the terminal, saves the cursor,
    narrows the scroll region and widens it again, restores the cursor and
    prints. *)
Definition exampleOps : list Op :=
  [ Write (repeatText 80 (str "A"));
    Resize 30 100;
    Write (esc "[3;4H" ++ esc "7" ++ esc "[2;5r" ++ esc "[r" ++ esc "8" ++ str "hi") ].

Definition exampleRun : Term := okOr (runOps exampleOps constructor) constructor.

(** A run with rendition codes and a saved cursor. *)
Definition colourOps : list Op :=
  [ Write (esc "[1;31;45;99m" ++ esc "7" ++ esc "[0;38;5;200m");
    Resize 10 20;
    Write (esc "8" ++ str "x") ].

Definition colourRun : Term := okOr (runOps colourOps constructor) constructor.

(** The row at an index, or an empty row when it is missing. *)
Definition okOr_row (t : Term) (row : Z) : Row :=
  match JsArray.get (screen t) row with
  | Some r => r
  | None => JsArray.empty
  end.

Definition plainRun : Term := okOr (runOps plainOps constructor) constructor.

(** A write while a replay is active. *)
Definition replayingRun : Term :=
  okOr (write (str "A" ++ [CR; LF] ++ str "B") (set_isReplaying true constructor))
       constructor.

(** A write that sets the top of the scroll region to a row number of 400
    digits and moves the cursor up to it, and the same write followed by
    erase-to-cursor (CSI 1 J). *)
Definition regionAboveCount : Text :=
  esc "[" ++ repeatText 400 (str "9") ++ str "r" ++ esc "[A".

Definition eraseAboveCount : Text := regionAboveCount ++ esc "[1J".

Definition aboveCountTerm : Term :=
  okOr (write regionAboveCount constructor) constructor.

(** A terminal whose first row has just been filled: the cursor is past
    the last column. *)
Definition fullRowTerm : Term :=
  okOr (write (repeatText 80 (str "A")) constructor) constructor.

(** * Theorems *)

Lemma ok_exists {A} (r : result A) (P : A -> Prop) :
  match r with Ok a => P a | _ => False end -> exists a, r = Ok a /\ P a.
Proof. destruct r; [eauto | contradiction..]. Qed.

Lemma ok_observe {A B} (r : result A) (f : A -> B) (b : B) :
  match r with Ok a => Some (f a) | _ => None end = Some b ->
  exists a, r = Ok a /\ f a = b.
Proof. destruct r; intros [= <-]; eauto. Qed.

Lemma okOr_ok (r : result Term) (d : Term) :
  match r with Ok _ => true | _ => false end = true -> r = Ok (okOr r d).
Proof. destruct r; [reflexivity | discriminate..]. Qed.

(** ** Concrete runs *)

Lemma line_feeds_25_scrollback :
  (exists t, write (repeatText 25 [LF]) constructor = Ok t
             /\ length (scrollback t) = 2%nat)
  /\ (exists t, runOps (replicate 25 (Write [LF])) constructor = Ok t
                /\ length (scrollback t) = 2%nat).
Proof. split; apply ok_exists; vm_compute; auto. Qed.

(** C8 (as amended): on a fresh 24-row terminal with the default scroll
    region, writing 25 line feeds, in one write or in 25 writes of one line
    feed each, leaves two rows in the scrollback and the cursor on row 23. *)
Theorem line_feeds_25 :
  (exists t, write (repeatText 25 [LF]) constructor = Ok t
             /\ length (scrollback t) = 2%nat /\ curY t = 23)
  /\ (exists t, runOps (replicate 25 (Write [LF])) constructor = Ok t
                /\ length (scrollback t) = 2%nat /\ curY t = 23).
Proof. split; apply ok_exists; vm_compute; auto. Qed.

(** C8 as stated (one row in the scrollback) does not hold, neither for
    one write of 25 line feeds nor for 25 writes of one. *)
Lemma line_feeds_25_not_one :
  (~ exists t, write (repeatText 25 [LF]) constructor = Ok t
               /\ length (scrollback t) = 1%nat /\ curY t = 23)
  /\ (~ exists t, runOps (replicate 25 (Write [LF])) constructor = Ok t
                  /\ length (scrollback t) = 1%nat /\ curY t = 23).
Proof.
  split.
  - intros (t & E & H1 & _).
    destruct line_feeds_25_scrollback as [(t' & E' & H2) _].
    rewrite E in E'. injection E' as ->. rewrite H1 in H2. discriminate.
  - intros (t & E & H1 & _).
    destruct line_feeds_25_scrollback as [_ (t' & E' & H2)].
    rewrite E in E'. injection E' as ->. rewrite H1 in H2. discriminate.
Qed.

(** C2 (failing input): with the scroll region set to rows 1-5 and the
    cursor placed on the last row, a line feed moves the cursor to row 24,
    below the grid, and the next printable character makes [write] raise. *)
Theorem write_raises_below_region :
  write (esc "[1;5r" ++ esc "[24;1H" ++ [LF] ++ str "X") constructor
  = Throw TypeError.
Proof. vm_compute. reflexivity. Qed.

(** C3 (failing input): CSI 10;5 r stores top row 9 and bottom row 4, so
    the region bounds are no longer ordered. *)
Theorem scroll_region_unordered :
  exists t, write (esc "[10;5r") constructor = Ok t
            /\ regionTop t = 9 /\ regionBottom t = 4 /\ ~ regionInGrid t.
Proof.
  destruct (ok_exists (write (esc "[10;5r") constructor)
              (fun t => regionTop t = 9 /\ regionBottom t = 4))
    as (t & E & Ht & Hb); [vm_compute; auto |].
  exists t. repeat split; try assumption.
  unfold regionInGrid. lia.
Qed.

(** C4 (failing input): after 80 characters the cursor sits at column 80;
    erase-to-cursor (CSI 1 K) then stores a cell at column 80 and row 0 has
    81 cells on an 80-column terminal. *)
Theorem erase_to_cursor_widens_row :
  exists t, write (repeatText 80 (str "A") ++ esc "[1K") constructor = Ok t
            /\ ncols t = 80 /\ rowLength t 0 = Some 81 /\ ~ rowsHaveWidth t.
Proof.
  destruct (ok_exists
              (write (repeatText 80 (str "A") ++ esc "[1K") constructor)
              (fun t => ncols t = 80 /\ nrows t = 24 /\ rowLength t 0 = Some 81))
    as (t & E & Hc & Hr & Hl); [vm_compute; auto |].
  exists t. repeat split; try assumption.
  intros H. specialize (H 0). rewrite Hl, Hc in H.
  assert (Some 81 = Some 80) by (apply H; lia). discriminate.
Qed.

(** C5 (failing input): the live write ends by narrowing the scroll region
    to row 1.  The replay starts with that region still in force, so its
    first line feed scrolls, and the replayed screen text differs from the
    live one. *)
Theorem replay_differs_after_region_change :
  exists t t',
    write (str "A" ++ [LF] ++ str "B" ++ esc "[1;1r") constructor = Ok t
    /\ replayRecorded t = Ok t'
    /\ nrows t' = nrows t /\ ncols t' = ncols t
    /\ getScreenText t = str "A" ++ [LF] ++ str " B" ++ repeatText 22 [LF]
    /\ getScreenText t' = str " B" ++ repeatText 23 [LF]
    /\ getScreenText t' <> getScreenText t.
Proof.
  destruct (ok_observe
              (write (str "A" ++ [LF] ++ str "B" ++ esc "[1;1r") constructor)
              (fun t =>
                 (getScreenText t, nrows t, ncols t,
                  match replayRecorded t with
                  | Ok t' => Some (getScreenText t', nrows t', ncols t')
                  | _ => None
                  end))
              (str "A" ++ [LF] ++ str " B" ++ repeatText 22 [LF], 24, 80,
               Some (str " B" ++ repeatText 23 [LF], 24, 80)))
    as (t & E & H); [vm_compute; reflexivity |].
  injection H as Hlive Hr Hc H.
  apply ok_observe in H as (t' & E' & H).
  injection H as Hreplay Hr' Hc'.
  exists t, t'. repeat split; try congruence; try assumption.
  rewrite Hlive, Hreplay. vm_compute. discriminate.
Qed.

(** ** Array stores *)

Section ArrayLemmas.
Context {A : Type}.
Implicit Types (a : JsArray.t A) (k j : Z) (x : A).

Lemma get_put a k v j :
  JsArray.get (JsArray.put a k v) j = if decide (k = j) then v else JsArray.get a j.
Proof.
  unfold JsArray.get, JsArray.put; simpl.
  destruct v; case_decide; subst; simplify_map_eq; auto.
Qed.

Lemma get_set a k x j :
  JsArray.get (JsArray.set a k x) j = if decide (k = j) then Some x else JsArray.get a j.
Proof. apply get_put. Qed.

Lemma len_set a k x :
  JsArray.len (JsArray.set a k x)
  = if decide (0 <= k) then Z.max (JsArray.len a) (k + 1) else JsArray.len a.
Proof. reflexivity. Qed.

(** A run of stores of the same element at the keys of [l]. *)
Lemma get_foldl_set (l : list Z) : forall a x j,
  JsArray.get (foldl (fun a k => JsArray.set a k x) a l) j
  = if decide (j ∈ l) then Some x else JsArray.get a j.
Proof.
  induction l as [|k l IH]; intros a x j.
  - destruct (decide (j ∈ [])) as [H | H]; [inversion H | reflexivity].
  - simpl foldl. rewrite IH, get_set.
    destruct (decide (j ∈ l)) as [Hl | Hl].
    + rewrite decide_True by (right; exact Hl). reflexivity.
    + destruct (decide (k = j)) as [-> | Hk].
      * rewrite decide_True by left. reflexivity.
      * rewrite decide_False; [reflexivity |].
        intros Hin. apply elem_of_cons in Hin as [-> | Hin]; auto.
Qed.

Lemma len_foldl_set_seqZ (n : nat) : forall a x from,
  0 <= from ->
  JsArray.len (foldl (fun a k => JsArray.set a k x) a (seqZ from (Z.of_nat n)))
  = match n with
    | O => JsArray.len a
    | S _ => Z.max (JsArray.len a) (from + Z.of_nat n)
    end.
Proof.
  induction n as [|n IH]; intros a x from Hfrom.
  - reflexivity.
  - rewrite seqZ_cons by lia. simpl foldl.
    replace (Z.pred (Z.of_nat (S n))) with (Z.of_nat n) by lia.
    rewrite IH by lia. rewrite len_set.
    destruct n; case_decide; lia.
Qed.
End ArrayLemmas.

Lemma get_fillBlank r from to a col :
  JsArray.get (fillBlank r from to a) col
  = if decide (from <= col < to) then Some (blankCell a) else JsArray.get r col.
Proof.
  unfold fillBlank. rewrite get_foldl_set.
  repeat case_decide; try reflexivity; exfalso.
  - apply elem_of_seqZ in H. lia.
  - apply H. apply elem_of_seqZ. lia.
Qed.

Lemma get_blankRow n a col :
  JsArray.get (blankRow n a) col
  = if decide (0 <= col < n) then Some (blankCell a) else None.
Proof. unfold blankRow. rewrite get_fillBlank. reflexivity. Qed.

Lemma len_blankRow n a : JsArray.len (blankRow n a) = Z.max 0 n.
Proof.
  unfold blankRow, fillBlank. rewrite Z.sub_0_r.
  destruct (Z_le_gt_dec n 0) as [Hn | Hn].
  - rewrite seqZ_nil by lia. simpl. lia.
  - rewrite <- (Z2Nat.id n) at 1 by lia.
    rewrite len_foldl_set_seqZ by lia.
    destruct (Z.to_nat n) eqn:E; simpl JsArray.len; lia.
Qed.

(** [initializeScreen] only touches the screen, and there the rows
    [0 .. rows-1]. *)
Lemma initializeScreen_rows (l : list Z) : forall t,
  foldl (fun t row =>
           set_screen (JsArray.set (screen t) row
                         (blankRow (ncols t) (attributes t))) t) t l
  = set_screen
      (foldl (fun sc row => JsArray.set sc row (blankRow (ncols t) (attributes t)))
             (screen t) l) t.
Proof.
  induction l as [|row l IH]; intros t; simpl.
  - destruct t; reflexivity.
  - rewrite IH. reflexivity.
Qed.

Lemma initializeScreen_unfold t :
  initializeScreen t
  = set_screen
      (foldl (fun sc row => JsArray.set sc row (blankRow (ncols t) (attributes t)))
             (screen t) (seqZ 0 (nrows t))) t.
Proof. apply initializeScreen_rows. Qed.

Lemma initializeScreen_get t row :
  JsArray.get (screen (initializeScreen t)) row
  = if decide (0 <= row < nrows t)
    then Some (blankRow (ncols t) (attributes t))
    else JsArray.get (screen t) row.
Proof.
  rewrite initializeScreen_unfold. simpl. rewrite get_foldl_set.
  repeat case_decide; try reflexivity; exfalso.
  - apply elem_of_seqZ in H. lia.
  - apply H. apply elem_of_seqZ. lia.
Qed.

(** ** Start of a replay *)

(** C10: with replay enabled, [startReplay] succeeds; it leaves the pen and
    the scroll-region bounds as they were, puts the cursor at (0,0), and
    every row of the grid becomes a row of exactly [cols] blank cells that
    carry the pen of the state before the replay. *)
Theorem startReplay_frame (data : list LogEntry) (t : Term) :
  enableReplay (config t) = true ->
  exists t',
    startReplay data t = Ok t'
    /\ attributes t' = attributes t
    /\ regionTop t' = regionTop t /\ regionBottom t' = regionBottom t
    /\ nrows t' = nrows t /\ ncols t' = ncols t
    /\ curX t' = 0 /\ curY t' = 0
    /\ forall row, 0 <= row < nrows t ->
         exists r, JsArray.get (screen t') row = Some r
                   /\ JsArray.len r = Z.max 0 (ncols t)
                   /\ forall col, 0 <= col < ncols t ->
                        JsArray.get r col
                        = Some {| char := 32; cellAttributes := attributes t |}.
Proof.
  intros Hen. unfold startReplay. rewrite Hen. simpl negb. cbv iota.
  eexists. split; [reflexivity |].
  rewrite initializeScreen_unfold.
  repeat split; try reflexivity.
  intros row Hrow.
  exists (blankRow (ncols t) (attributes t)).
  split; [| split].
  - pose proof (initializeScreen_get
                  (set_replayData data (set_replayIndex 0%nat (set_isReplaying true t)))
                  row) as H.
    rewrite initializeScreen_unfold in H.
    rewrite decide_True in H by exact Hrow. exact H.
  - apply len_blankRow.
  - intros col Hcol. rewrite get_blankRow, decide_True by exact Hcol. reflexivity.
Qed.

Lemma startReplay_frame_witness :
  attributes boldRegionTerm <> defaultAttributes
  /\ exists t',
    startReplay [] boldRegionTerm = Ok t'
    /\ attributes t' = attributes boldRegionTerm
    /\ regionTop t' = regionTop boldRegionTerm
    /\ regionBottom t' = regionBottom boldRegionTerm
    /\ nrows t' = nrows boldRegionTerm /\ ncols t' = ncols boldRegionTerm
    /\ curX t' = 0 /\ curY t' = 0
    /\ forall row, 0 <= row < nrows boldRegionTerm ->
         exists r, JsArray.get (screen t') row = Some r
                   /\ JsArray.len r = Z.max 0 (ncols boldRegionTerm)
                   /\ forall col, 0 <= col < ncols boldRegionTerm ->
                        JsArray.get r col
                        = Some {| char := 32;
                                  cellAttributes := attributes boldRegionTerm |}.
Proof.
  split.
  - vm_compute. discriminate.
  - apply (startReplay_frame [] boldRegionTerm). vm_compute. reflexivity.
Defined.

(** ** Selections *)

Lemma copySelection_loop (t : Term) (startRow startCol endRow endCol : Z) (n : nat) :
  forall from acc,
    endRow - from + 1 = Z.of_nat n ->
    foldl (fun text row =>
             let startColForRow := if decide (row = startRow) then startCol else 0 in
             let endColForRow := if decide (row = endRow) then endCol else ncols t - 1 in
             let text := text ++ lineText t row startColForRow (endColForRow + 1) in
             if decide (row < endRow) then text ++ [LF] else text)
          acc (seqZ from (endRow - from + 1))
    = acc ++ joinLines (map (selectedRow t startRow startCol endRow endCol)
                            (seqZ from (endRow - from + 1))).
Proof.
  induction n as [|n IH]; intros from acc Hn.
  - rewrite seqZ_nil by lia. simpl. rewrite app_nil_r. reflexivity.
  - rewrite seqZ_cons by lia.
    replace (Z.pred (endRow - from + 1)) with (endRow - Z.succ from + 1) by lia.
    simpl foldl. simpl map.
    rewrite IH by lia.
    fold (selectedRow t startRow startCol endRow endCol from).
    destruct (decide (from < endRow)) as [Hlt | Hge].
    + rewrite (seqZ_cons (Z.succ from)) by lia. simpl map. simpl joinLines.
      rewrite <- !app_assoc. reflexivity.
    + rewrite seqZ_nil by lia. simpl. rewrite app_nil_r. reflexivity.
Qed.

Lemma copySelection_joined (t : Term) (startRow startCol endRow endCol : Z) :
  enableClipboard (config t) = true ->
  copySelection startRow startCol endRow endCol t
  = Ok (trim (joinLines (selectedRows t startRow startCol endRow endCol))).
Proof.
  intros Hen. unfold copySelection. rewrite Hen. simpl negb. cbv iota.
  destruct (Z_le_gt_dec (endRow - startRow + 1) 0) as [Hn | Hn].
  - unfold selectedRows. rewrite seqZ_nil by lia. reflexivity.
  - rewrite (copySelection_loop t startRow startCol endRow endCol
               (Z.to_nat (endRow - startRow + 1))) by lia.
    reflexivity.
Qed.

(** What [trimStart], [trimEnd] and [trim] strip. *)
Lemma trimStart_split s :
  exists lead,
    s = lead ++ trimStart s /\ forallb isWhiteSpace lead = true
    /\ (forall c, head (trimStart s) = Some c -> isWhiteSpace c = false).
Proof.
  induction s as [|c s (lead & Hs & Hlead & Hhead)]; simpl.
  - exists []. repeat split. discriminate.
  - destruct (isWhiteSpace c) eqn:Hc.
    + exists (c :: lead). simpl. rewrite Hc, Hlead, <- Hs. repeat split.
      exact Hhead.
    + exists []. repeat split. simpl. intros c' [= <-]. exact Hc.
Qed.

Lemma forallb_rev {A} (f : A -> bool) (l : list A) :
  forallb f (List.rev l) = forallb f l.
Proof.
  induction l as [|a l IH]; simpl; [reflexivity |].
  rewrite forallb_app, IH. simpl. rewrite andb_true_r. apply andb_comm.
Qed.

Lemma last_rev_head {A} (l : list A) : last (List.rev l) = head l.
Proof.
  destruct l as [|a l]; simpl; [reflexivity |]. apply last_snoc.
Qed.

Lemma trimEnd_split s :
  exists trail,
    s = trimEnd s ++ trail /\ forallb isWhiteSpace trail = true
    /\ (forall c, last (trimEnd s) = Some c -> isWhiteSpace c = false).
Proof.
  destruct (trimStart_split (List.rev s)) as (lead & Hs & Hlead & Hhead).
  exists (List.rev lead). unfold trimEnd. split; [| split].
  - rewrite <- rev_app_distr, <- Hs, rev_involutive. reflexivity.
  - rewrite forallb_rev. exact Hlead.
  - rewrite last_rev_head. exact Hhead.
Qed.

Lemma trim_split s :
  exists lead trail,
    s = lead ++ trim s ++ trail
    /\ forallb isWhiteSpace lead = true /\ forallb isWhiteSpace trail = true
    /\ (forall c, head (trim s) = Some c -> isWhiteSpace c = false)
    /\ (forall c, last (trim s) = Some c -> isWhiteSpace c = false).
Proof.
  destruct (trimEnd_split s) as (trail & Hs & Htrail & Hlast).
  destruct (trimStart_split (trimEnd s)) as (lead & Hm & Hlead & Hhead).
  exists lead, trail. unfold trim. split; [| split; [| split; [| split]]].
  - rewrite app_assoc, <- Hm. exact Hs.
  - exact Hlead.
  - exact Htrail.
  - exact Hhead.
  - intros c Hc. apply Hlast. rewrite Hm, last_app, Hc. reflexivity.
Qed.

(** C9 (as amended): for a selection within the screen, [copySelection]
    returns the characters of the selected rows joined by newlines, with
    the white space at the start and at the end of the joined text
    stripped: the joined text is a run of white space, the result, and a
    run of white space, and the result neither starts nor ends with white
    space.  The rows are not stripped one by one. *)
Theorem copySelection_trims_joined_text
    (t : Term) (startRow startCol endRow endCol : Z) :
  enableClipboard (config t) = true ->
  0 <= startRow <= endRow -> endRow < nrows t ->
  0 <= startCol < ncols t -> 0 <= endCol < ncols t ->
  let joined := joinLines (selectedRows t startRow startCol endRow endCol) in
  copySelection startRow startCol endRow endCol t = Ok (trim joined)
  /\ exists lead trail,
       joined = lead ++ trim joined ++ trail
       /\ forallb isWhiteSpace lead = true /\ forallb isWhiteSpace trail = true
       /\ (forall c, head (trim joined) = Some c -> isWhiteSpace c = false)
       /\ (forall c, last (trim joined) = Some c -> isWhiteSpace c = false).
Proof.
  intros Hen _ _ _ _ joined. split.
  - apply copySelection_joined, Hen.
  - apply trim_split.
Qed.

Lemma copySelection_trims_joined_text_witness :
  let joined := joinLines (selectedRows twoLineTerm 0 0 1 79) in
  (copySelection 0 0 1 79 twoLineTerm = Ok (trim joined)
   /\ exists lead trail,
        joined = lead ++ trim joined ++ trail
        /\ forallb isWhiteSpace lead = true /\ forallb isWhiteSpace trail = true
        /\ (forall c, head (trim joined) = Some c -> isWhiteSpace c = false)
        /\ (forall c, last (trim joined) = Some c -> isWhiteSpace c = false))
  /\ joined = str "A" ++ repeatText 79 (str " ") ++ [LF]
              ++ str "B" ++ repeatText 79 (str " ")
  /\ trim joined = str "A" ++ repeatText 79 (str " ") ++ [LF] ++ str "B".
Proof.
  intros joined. split; [| split; vm_compute; reflexivity].
  apply (copySelection_trims_joined_text twoLineTerm 0 0 1 79).
  - vm_compute. reflexivity.
  - lia.
  - vm_compute. reflexivity.
  - vm_compute. split; [discriminate | reflexivity].
  - vm_compute. split; [discriminate | reflexivity].
Defined.

(** C9 as stated does not hold: on the screen showing "A" and "B" on the
    first two rows, the selection from (0,0) to (1,0) keeps the 79 blanks
    that follow "A", whereas stripping each row gives "A", newline, "B". *)
Lemma copySelection_keeps_inner_blanks :
  rowsTrimmedAndJoined twoLineTerm 0 0 1 0 = str "A" ++ [LF] ++ str "B"
  /\ copySelection 0 0 1 0 twoLineTerm
     = Ok (str "A" ++ repeatText 79 (str " ") ++ [LF] ++ str "B")
  /\ copySelection 0 0 1 0 twoLineTerm
     <> Ok (rowsTrimmedAndJoined twoLineTerm 0 0 1 0).
Proof.
  split; [vm_compute; reflexivity |].
  split; [vm_compute; reflexivity |].
  vm_compute. discriminate.
Qed.

(** ** Parser progress and termination *)

Lemma eraseCells_total row from to t : eraseCells row from to t <> OutOfFuel.
Proof. unfold eraseCells. repeat case_match; discriminate. Qed.

Lemma eraseLine_total mode t : eraseLine mode t <> OutOfFuel.
Proof.
  unfold eraseLine. repeat case_match; try discriminate; apply eraseCells_total.
Qed.

(** The row loop of erase-display mode 1: what it does when it returns,
    when it ends, and when it does not. *)
Lemma clearRowsBelow_fold fuel : forall row t t',
  clearRowsBelow fuel row t = Ok t' ->
  exists l, t' = foldl (fun t row => clearRow row t) t l.
Proof.
  induction fuel as [|fuel IH]; intros row t t' H; simpl in H.
  - case_decide; [discriminate |]. injection H as <-. exists []. reflexivity.
  - case_decide.
    + apply IH in H as [l ->]. exists (row :: l). reflexivity.
    + injection H as <-. exists []. reflexivity.
Qed.

Lemma clearRowsBelow_ends fuel : forall row t,
  0 <= row -> curY t <= maxCount -> (Z.to_nat (curY t - row) <= fuel)%nat ->
  clearRowsBelow fuel row t
  = Ok (foldl (fun t row => clearRow row t) t (seqZ row (curY t - row))).
Proof.
  induction fuel as [|fuel IH]; intros row t Hrow Hmax Hfuel; simpl.
  - case_decide as Hlt; [lia |]. rewrite seqZ_nil by lia. reflexivity.
  - case_decide as Hlt.
    + unfold increment. rewrite decide_True by lia.
      rewrite IH.
      * change (curY (clearRow row t)) with (curY t).
        rewrite (seqZ_cons row (curY t - row)) by lia. simpl.
        replace (Z.pred (curY t - row)) with (curY t - (row + 1)) by lia.
        reflexivity.
      * lia.
      * exact Hmax.
      * change (curY (clearRow row t)) with (curY t). lia.
    + rewrite seqZ_nil by lia. reflexivity.
Qed.

Lemma clearRowsBelow_unbounded fuel : forall row t,
  row <= maxCount -> maxCount < curY t -> clearRowsBelow fuel row t = OutOfFuel.
Proof.
  induction fuel as [|fuel IH]; intros row t Hrow Hmax; simpl;
    rewrite decide_True by lia; [reflexivity |].
  apply IH; [unfold increment; case_decide; lia | exact Hmax].
Qed.

Lemma eraseDisplay_OutOfFuel mode t :
  eraseDisplay mode t = OutOfFuel -> mode = 1 /\ maxCount < curY t.
Proof.
  unfold eraseDisplay.
  destruct (Z.eqb_spec mode 0) as [_ | _].
  { pose proof (eraseLine_total 0 t) as Htot.
    destruct (eraseLine 0 t); simpl; [discriminate | discriminate | contradiction]. }
  destruct (Z.eqb_spec mode 1) as [-> | _].
  { destruct (Z_le_gt_dec (curY t) maxCount) as [Hle | Hgt]; [| intros _; lia].
    rewrite clearRowsBelow_ends by lia. simpl.
    intros H. apply eraseLine_total in H. contradiction. }
  destruct (mode =? 2); discriminate.
Qed.

Lemma eraseDisplay_unbounded t :
  maxCount < curY t -> eraseDisplay 1 t = OutOfFuel.
Proof.
  intros Hmax. unfold eraseDisplay.
  change (1 =? 0) with false. change (1 =? 1) with true. cbv iota.
  rewrite clearRowsBelow_unbounded; [reflexivity | unfold maxCount; lia | exact Hmax].
Qed.

Lemma insertCharacter_total c t : insertCharacter c t <> OutOfFuel.
Proof. unfold insertCharacter. repeat case_match; discriminate. Qed.

Lemma collectParams_length rest : (length (collectParams rest) <= length rest)%nat.
Proof.
  induction rest as [|c rest IH]; simpl; [lia |].
  destruct (isParamChar c); simpl; lia.
Qed.

Lemma collectParams_all rest :
  forallb isParamChar rest = true -> collectParams rest = rest.
Proof.
  induction rest as [|c rest IH]; simpl; [reflexivity |].
  intros H. apply andb_true_iff in H as [Hc Hrest].
  rewrite Hc, IH by exact Hrest. reflexivity.
Qed.

Lemma processCSISequence_advances text startIndex t t' j :
  (startIndex <= length text)%nat ->
  processCSISequence text startIndex t = Ok (t', j) ->
  (startIndex <= j)%nat /\ (startIndex < length text -> startIndex < j)%nat.
Proof.
  intros Hle. unfold processCSISequence. cbv zeta.
  destruct (text !! (startIndex + length (collectParams (drop startIndex text)))%nat)
    as [command |] eqn:E.
  - match goal with
    | |- context [mbind _ ?r] => destruct r
    end; simpl; intros Hres; try discriminate.
    injection Hres as _ <-. lia.
  - intros Hres. injection Hres as _ <-. lia.
Qed.

Lemma processCSISequence_OutOfFuel text startIndex t :
  processCSISequence text startIndex t = OutOfFuel -> maxCount < curY t.
Proof.
  unfold processCSISequence. cbv zeta.
  destruct (text !! (startIndex + length (collectParams (drop startIndex text)))%nat)
    as [command |]; [| discriminate].
  match goal with
  | |- context [mbind _ ?r] => destruct r eqn:Hcmd
  end; simpl; try discriminate.
  intros _. revert Hcmd.
  repeat case_match; intros Hcmd; try discriminate.
  - apply eraseDisplay_OutOfFuel in Hcmd. tauto.
  - apply eraseLine_total in Hcmd. contradiction.
Qed.

Lemma oscScan_length rest : (oscScan rest <= S (length rest))%nat.
Proof.
  induction rest as [|c rest IH]; simpl; [lia |].
  repeat case_match; lia.
Qed.

Lemma oscScan_pos c rest : (0 < oscScan (c :: rest))%nat.
Proof. simpl. repeat case_match; lia. Qed.

Lemma oscScan_unterminated rest :
  hasOscTerminator rest = false -> oscScan rest = length rest.
Proof.
  induction rest as [|c rest IH]; simpl; [reflexivity |].
  intros H. apply orb_false_iff in H as [H Hrest].
  apply orb_false_iff in H as [Hbel Hst].
  rewrite Hbel, Hst, IH by exact Hrest. reflexivity.
Qed.

Lemma processOSCSequence_advances text startIndex :
  (startIndex < length text)%nat -> (startIndex < processOSCSequence text startIndex)%nat.
Proof.
  intros Hlt. unfold processOSCSequence.
  destruct (drop startIndex text) as [|c rest] eqn:E.
  - apply (f_equal length) in E. rewrite length_drop in E. simpl in E. lia.
  - pose proof (oscScan_pos c rest). lia.
Qed.

Lemma processEscapeSequence_advances text startIndex t :
  advances startIndex (processEscapeSequence text startIndex t).
Proof.
  intros t' j. unfold processEscapeSequence.
  destruct (text !! S startIndex) as [nextChar |] eqn:E;
    [| intros Hres; injection Hres as _ <-; lia].
  apply lookup_lt_Some in E.
  repeat case_match; intros Hres;
    first [ apply processCSISequence_advances in Hres; lia
          | injection Hres as _ <-; unfold processOSCSequence; lia ].
Qed.

Lemma processEscapeSequence_OutOfFuel text startIndex t :
  processEscapeSequence text startIndex t = OutOfFuel -> maxCount < curY t.
Proof.
  unfold processEscapeSequence.
  destruct (text !! S startIndex) as [nextChar |]; [| discriminate].
  repeat case_match; try discriminate.
  apply processCSISequence_OutOfFuel.
Qed.

Lemma processOutputStep_advances text i char t :
  advances i (processOutputStep text i char t).
Proof.
  intros t' j. unfold processOutputStep.
  repeat case_match; try (intros Hres; injection Hres as _ <-; lia).
  - apply processEscapeSequence_advances.
  - destruct (insertCharacter char t); simpl; intros Hres; try discriminate.
    injection Hres as _ <-. lia.
Qed.

Lemma processOutputStep_OutOfFuel text i char t :
  processOutputStep text i char t = OutOfFuel ->
  char = ESC /\ maxCount < curY t.
Proof.
  unfold processOutputStep.
  destruct (Z.eqb_spec char ESC) as [-> | _].
  { intros H. split; [reflexivity |].
    eapply processEscapeSequence_OutOfFuel, H. }
  repeat case_match; try discriminate.
  pose proof (insertCharacter_total char t) as Htot.
  destruct (insertCharacter char t); simpl; [discriminate | discriminate | contradiction].
Qed.

Lemma processOutputFrom_step fuel text i char t :
  text !! i = Some char ->
  processOutputFrom (S fuel) text i t
  = (r ← processOutputStep text i char t; processOutputFrom fuel text r.2 r.1).
Proof. intros H. simpl. rewrite H. reflexivity. Qed.

(** The [while] loop takes at most one turn per code unit: when a write
    does not end, one of its turns did not. *)
Lemma processOutputFrom_OutOfFuel fuel : forall text i t,
  (length text - i <= fuel)%nat ->
  processOutputFrom fuel text i t = OutOfFuel ->
  exists k char t0,
    text !! k = Some char /\ processOutputStep text k char t0 = OutOfFuel.
Proof.
  induction fuel as [|fuel IH]; intros text i t Hfuel; simpl.
  - destruct (text !! i) eqn:E; [| discriminate].
    apply lookup_lt_Some in E. lia.
  - destruct (text !! i) as [char |] eqn:E; [| discriminate].
    pose proof (lookup_lt_Some _ _ _ E) as Hlt.
    pose proof (processOutputStep_advances text i char t) as Hadv.
    destruct (processOutputStep text i char t) as [[t' j] | e |] eqn:Hstep;
      simpl.
    + apply IH. specialize (Hadv t' j eq_refl). lia.
    + discriminate.
    + intros _. eauto.
Qed.

(** More fuel than the text is long changes nothing. *)
Lemma processOutputFrom_fuel fuel1 : forall fuel2 text i t,
  (length text - i <= fuel1)%nat -> (length text - i <= fuel2)%nat ->
  processOutputFrom fuel1 text i t = processOutputFrom fuel2 text i t.
Proof.
  induction fuel1 as [|fuel1 IH]; intros fuel2 text i t H1 H2.
  - simpl. destruct (text !! i) eqn:E.
    + apply lookup_lt_Some in E. lia.
    + destruct fuel2; simpl; rewrite E; reflexivity.
  - simpl. destruct (text !! i) as [char |] eqn:E.
    + pose proof (lookup_lt_Some _ _ _ E) as Hlt.
      destruct fuel2 as [|fuel2]; [lia |]. simpl. rewrite E.
      pose proof (processOutputStep_advances text i char t) as Hadv.
      destruct (processOutputStep text i char t) as [[t' j] | e |]; simpl;
        [| reflexivity | reflexivity].
      specialize (Hadv t' j eq_refl). apply IH; lia.
    + destruct fuel2; simpl; rewrite E; reflexivity.
Qed.

Lemma lone_escape_consumed text i t :
  text !! i = Some ESC -> text !! S i = None ->
  processOutputStep text i ESC t = Ok (t, length text).
Proof.
  intros Hi Hnext.
  apply lookup_lt_Some in Hi. pose proof (lookup_ge_None_1 _ _ Hnext) as Hge.
  unfold processOutputStep, processEscapeSequence. simpl. rewrite Hnext.
  f_equal. f_equal. lia.
Qed.

Lemma incomplete_csi_consumed text i t :
  text !! i = Some ESC -> text !! S i = Some (chr "[") ->
  forallb isParamChar (drop (S (S i)) text) = true ->
  processOutputStep text i ESC t = Ok (t, length text).
Proof.
  intros Hi Hnext Hparams.
  pose proof (lookup_lt_Some _ _ _ Hnext) as Hlt.
  unfold processOutputStep, processEscapeSequence. simpl.
  rewrite Hnext. simpl.
  unfold processCSISequence. cbv zeta.
  rewrite (collectParams_all _ Hparams), length_drop.
  rewrite lookup_ge_None_2 by lia. reflexivity.
Qed.

Lemma unterminated_osc_consumed text i t :
  text !! i = Some ESC -> text !! S i = Some (chr "]") ->
  hasOscTerminator (drop (S (S i)) text) = false ->
  processOutputStep text i ESC t = Ok (t, length text).
Proof.
  intros Hi Hnext Hosc.
  pose proof (lookup_lt_Some _ _ _ Hnext) as Hlt.
  unfold processOutputStep, processEscapeSequence. simpl.
  rewrite Hnext. simpl.
  unfold processOSCSequence.
  rewrite (oscScan_unterminated _ Hosc), length_drop.
  f_equal. f_equal. lia.
Qed.

(** The turn of the output loop at the sequence CSI 1 J. *)
Lemma erase_to_cursor_step text i t :
  text !! i = Some ESC -> text !! S i = Some (chr "[") ->
  text !! S (S i) = Some (chr "1") -> text !! S (S (S i)) = Some (chr "J") ->
  processOutputStep text i ESC t
  = (t' ← eraseDisplay 1 t; Ok (t', S (S (S (S i))))).
Proof.
  intros H0 H1 H2 H3.
  unfold processOutputStep, processEscapeSequence.
  change (ESC =? ESC) with true. cbv iota. rewrite H1.
  change (chr "[" =? chr "[") with true. cbv iota.
  unfold processCSISequence. cbv zeta.
  rewrite (drop_S _ _ _ H2), (drop_S _ _ _ H3).
  change (collectParams (chr "1" :: chr "J" :: drop (S (S (S (S i)))) text))
    with [chr "1"].
  change (S (S i) + length [chr "1"])%nat with (S (S i) + 1)%nat.
  replace (S (S i) + 1)%nat with (S (S (S i))) by lia.
  rewrite H3. reflexivity.
Qed.

Lemma processOutputFrom_step_ok fuel text i char t t' j :
  text !! i = Some char -> processOutputStep text i char t = Ok (t', j) ->
  processOutputFrom (S fuel) text i t = processOutputFrom fuel text j t'.
Proof.
  intros Hi Hstep. rewrite (processOutputFrom_step _ _ _ _ _ Hi), Hstep.
  reflexivity.
Qed.

Lemma processOutputFrom_step_runs_on fuel text i char t :
  text !! i = Some char -> processOutputStep text i char t = OutOfFuel ->
  processOutputFrom (S fuel) text i t = OutOfFuel.
Proof.
  intros Hi Hstep. rewrite (processOutputFrom_step _ _ _ _ _ Hi), Hstep.
  reflexivity.
Qed.

(** C7: the index arithmetic of the parser is as the claim says, the
    write it is meant to bound is not.  Whenever a turn of the output loop
    returns, whatever the text, the index and the terminal state, it
    returns an index beyond the one it started at, and so do the escape,
    CSI and OSC sub-parsers from any index inside the text; a sequence cut
    off by the end of the text (a lone ESC, a CSI without final byte, an
    OSC without terminator) is consumed up to the end and leaves the state
    alone.  So the loop takes at most one turn per code unit, and a write
    that does not end has a turn that does not end; such a turn is an
    escape sequence met with the cursor row above 2^53.  It exists: after
    CSI r with a 400-digit first parameter and CSI A the cursor row is
    above 2^53, the row loop of erase-to-cursor runs out of every fuel, and
    the write of the three sequences does not return. *)
Theorem parser_advances_erase_loop_runs_on :
  (forall text i char t,
     text !! i = Some char -> advances i (processOutputStep text i char t))
  /\ (forall text i t, advances i (processEscapeSequence text i t))
  /\ (forall text i t,
        (i < length text)%nat -> advances i (processCSISequence text i t))
  /\ (forall text i,
        (i < length text)%nat -> (i < processOSCSequence text i)%nat)
  /\ (forall text i t,
        text !! i = Some ESC -> text !! S i = None ->
        processOutputStep text i ESC t = Ok (t, length text))
  /\ (forall text i t,
        text !! i = Some ESC -> text !! S i = Some (chr "[") ->
        forallb isParamChar (drop (S (S i)) text) = true ->
        processOutputStep text i ESC t = Ok (t, length text))
  /\ (forall text i t,
        text !! i = Some ESC -> text !! S i = Some (chr "]") ->
        hasOscTerminator (drop (S (S i)) text) = false ->
        processOutputStep text i ESC t = Ok (t, length text))
  /\ (forall text t,
        processOutput text t = OutOfFuel ->
        exists i char t0,
          text !! i = Some char
          /\ processOutputStep text i char t0 = OutOfFuel)
  /\ (forall text i char t,
        processOutputStep text i char t = OutOfFuel ->
        char = ESC /\ maxCount < curY t)
  /\ write regionAboveCount constructor = Ok aboveCountTerm
  /\ maxCount < curY aboveCountTerm
  /\ (forall fuel, clearRowsBelow fuel 0 aboveCountTerm = OutOfFuel)
  /\ write eraseAboveCount constructor = OutOfFuel.
Proof.
  assert (Hrow : maxCount < curY aboveCountTerm) by (vm_compute; reflexivity).
  split; [intros; apply processOutputStep_advances |].
  split; [apply processEscapeSequence_advances |].
  split.
  { intros text i t Hlt t' j Hres.
    apply processCSISequence_advances in Hres; lia. }
  split; [apply processOSCSequence_advances |].
  split; [apply lone_escape_consumed |].
  split; [apply incomplete_csi_consumed |].
  split; [apply unterminated_osc_consumed |].
  split.
  { intros text t. apply processOutputFrom_OutOfFuel. lia. }
  split; [apply processOutputStep_OutOfFuel |].
  split; [apply okOr_ok; vm_compute; reflexivity |].
  split; [exact Hrow |].
  split.
  { intros fuel. apply clearRowsBelow_unbounded; [unfold maxCount; lia | exact Hrow]. }
  unfold write. cbv zeta.
  set (t1 := if enableReplay (config constructor) && negb (isReplaying constructor)
             then addToReplayLog Output eraseAboveCount constructor
             else constructor).
  unfold processOutput.
  assert (Hlen : length eraseAboveCount = 410%nat) by (vm_compute; reflexivity).
  rewrite Hlen.
  assert (Hsteps :
    match processOutputStep eraseAboveCount 0 ESC t1 with
    | Ok (s1, j1) =>
        j1 = 403%nat
        /\ match processOutputStep eraseAboveCount 403 ESC s1 with
           | Ok (s2, j2) => j2 = 406%nat /\ (maxCount <? curY s2) = true
           | _ => False
           end
    | _ => False
    end) by (vm_compute; auto).
  destruct (processOutputStep eraseAboveCount 0 ESC t1) as [[s1 j1] | |] eqn:E1;
    [| contradiction ..].
  destruct Hsteps as [-> Hsteps].
  destruct (processOutputStep eraseAboveCount 403 ESC s1) as [[s2 j2] | |] eqn:E2;
    [| contradiction ..].
  destruct Hsteps as [-> Habove]. apply Z.ltb_lt in Habove.
  clearbody t1.
  rewrite (processOutputFrom_step_ok 409 eraseAboveCount 0 ESC t1 s1 403
             eq_refl E1).
  rewrite (processOutputFrom_step_ok 408 eraseAboveCount 403 ESC s1 s2 406
             eq_refl E2).
  apply (processOutputFrom_step_runs_on 407 eraseAboveCount 406 ESC);
    [reflexivity |].
  rewrite erase_to_cursor_step by reflexivity.
  rewrite (eraseDisplay_unbounded _ Habove). reflexivity.
Qed.

Lemma parser_advances_erase_loop_runs_on_witness :
  advances 0 (processOutputStep (esc "[2J" ++ str "x") 0 ESC constructor)
  /\ processOutputStep (esc "[12;") 0 ESC constructor
     = Ok (constructor, length (esc "[12;"))
  /\ processOutputStep (esc "]0;title") 0 ESC constructor
     = Ok (constructor, length (esc "]0;title"))
  /\ processOutputStep [ESC] 0 ESC constructor = Ok (constructor, length [ESC])
  /\ maxCount < curY aboveCountTerm.
Proof.
  pose proof parser_advances_erase_loop_runs_on
    as (Hstep & _ & _ & _ & Hesc & Hcsi & Hosc & _ & Hturn & _ & _ & Hloop & _).
  split; [| split; [| split; [| split]]].
  - apply (Hstep (esc "[2J" ++ str "x") 0%nat ESC constructor). reflexivity.
  - apply (Hcsi (esc "[12;") 0%nat constructor); reflexivity.
  - apply (Hosc (esc "]0;title") 0%nat constructor); reflexivity.
  - apply (Hesc [ESC] 0%nat constructor); reflexivity.
  - apply (Hturn (esc "[1J") 0%nat ESC aboveCountTerm).
    rewrite erase_to_cursor_step by reflexivity.
    unfold eraseDisplay. change (1 =? 0) with false. change (1 =? 1) with true.
    cbv iota. rewrite Hloop. reflexivity.
Defined.

(** ** The cursor invariant *)

Lemma sameCursor_refl t : sameCursor t t.
Proof. repeat split. Qed.

Lemma sameCursor_trans t1 t2 t3 :
  sameCursor t1 t2 -> sameCursor t2 t3 -> sameCursor t1 t3.
Proof. unfold sameCursor. intros (? & ? & ?) (? & ? & ?). repeat split; congruence. Qed.

Lemma sameCursor_inv t t' : sameCursor t t' -> cursorInv t -> cursorInv t'.
Proof.
  unfold sameCursor, cursorInv, shapeOk, savedRowNonneg, fullRegion, savedInGrid,
    cursorInGridOrPastLast, curX, curY, nrows, ncols, regionTop, regionBottom.
  intros (Hts & Hcfg & Hsv). rewrite Hts, Hcfg.
  destruct (savedCursor t') as [sc' |], (savedCursor t) as [sc |];
    simpl in Hsv; try discriminate; [injection Hsv as -> -> |]; auto.
Qed.

Lemma sameCursor_foldl {B} (f : Term -> B -> Term) (l : list B) :
  (forall t b, sameCursor t (f t b)) -> forall t, sameCursor t (foldl f t l).
Proof.
  intros Hf. induction l as [|b l IH]; intros t; simpl.
  - apply sameCursor_refl.
  - eapply sameCursor_trans; [apply Hf | apply IH].
Qed.

Lemma sameCursor_forM {B} (f : Term -> B -> result Term) (l : list B) :
  (forall t b t', f t b = Ok t' -> sameCursor t t') ->
  forall t t', forM f l t = Ok t' -> sameCursor t t'.
Proof.
  intros Hf. induction l as [|b l IH]; intros t t' H; simpl in H.
  - injection H as <-. apply sameCursor_refl.
  - destruct (f t b) as [t1 | |] eqn:E; simpl in H; try discriminate.
    eapply sameCursor_trans; [eapply Hf, E | apply IH, H].
Qed.

Lemma sameCursor_set_screen sc t : sameCursor t (set_screen sc t).
Proof. repeat split. Qed.

Lemma sameCursor_set_scrollback sb t : sameCursor t (set_scrollback sb t).
Proof. repeat split. Qed.

Lemma sameCursor_set_attributes a t : sameCursor t (set_attributes a t).
Proof. repeat split. Qed.

Lemma sameCursor_clearRow row t : sameCursor t (clearRow row t).
Proof. repeat split. Qed.

Lemma sameCursor_scrollUp t : sameCursor t (scrollUp t).
Proof. repeat split. Qed.

Lemma sameCursor_scrollDown t : sameCursor t (scrollDown t).
Proof. repeat split. Qed.

Lemma sameCursor_eraseCells row from to t t' :
  eraseCells row from to t = Ok t' -> sameCursor t t'.
Proof.
  unfold eraseCells. repeat case_match; intros [= <-];
    auto using sameCursor_refl, sameCursor_set_screen.
Qed.

Lemma sameCursor_eraseLine mode t t' :
  eraseLine mode t = Ok t' -> sameCursor t t'.
Proof.
  unfold eraseLine. repeat case_match;
    eauto using sameCursor_eraseCells; intros [= <-];
    auto using sameCursor_refl, sameCursor_clearRow.
Qed.

(** Reduces a goal about [cursorInv] of an updated terminal to linear
    arithmetic over the fields of the terminal before the update. *)
Ltac cursor_fields t :=
  destruct t as [[? ? ? ? ? ? ? ? ? ? ? ?] ? ? ? [? ? ? ? ? ?] ? ? ? ? [[? ? ?] |]];
  unfold cursorInv, shapeOk, savedRowNonneg, fullRegion, savedInGrid,
    cursorInGridOrPastLast, curX, curY, nrows, ncols, regionTop, regionBottom in *;
  simpl in *.

Ltac cursor_crush t := cursor_fields t; repeat case_decide; lia.

Lemma cursorInv_lineFeed t : cursorInv t -> cursorInv (lineFeed t).
Proof.
  unfold lineFeed. case_decide.
  - apply sameCursor_inv, sameCursor_scrollUp.
  - intros Hinv. cursor_crush t.
Qed.

Lemma cursorInv_index t : cursorInv t -> cursorInv (index t).
Proof. apply cursorInv_lineFeed. Qed.

Lemma cursorInv_carriageReturn t :
  cursorInv t -> cursorInv (with_state (set_cursorX 0) t).
Proof. intros Hinv. cursor_crush t. Qed.

Lemma cursorInv_nextLine t : cursorInv t -> cursorInv (nextLine t).
Proof. intros Hinv. apply cursorInv_index, cursorInv_carriageReturn, Hinv. Qed.

Lemma cursorInv_reverseIndex t : cursorInv t -> cursorInv (reverseIndex t).
Proof.
  unfold reverseIndex. case_decide.
  - apply sameCursor_inv, sameCursor_scrollDown.
  - intros Hinv. cursor_crush t.
Qed.

Lemma cursorInv_tab t : cursorInv t -> cursorInv (tab t).
Proof.
  intros Hinv. unfold tab. cursor_fields t.
  all: match goal with
       | |- context [Z.min (?a / ?b * ?b) _] =>
           assert (0 <= a / b * b)
             by (apply Z.mul_nonneg_nonneg; [apply Z.div_pos |]; lia);
           generalize dependent (a / b * b); intros
       end.
  all: lia.
Qed.

Lemma cursorInv_backspace t : cursorInv t -> cursorInv (backspace t).
Proof. intros Hinv. unfold backspace. case_decide; [| exact Hinv]. cursor_crush t. Qed.

Lemma cursorInv_cursorUp count t :
  1 <= count -> cursorInv t -> cursorInv (cursorUp count t).
Proof. intros Hc Hinv. unfold cursorUp. cursor_crush t. Qed.

Lemma cursorInv_cursorDown count t :
  1 <= count -> cursorInv t -> cursorInv (cursorDown count t).
Proof. intros Hc Hinv. unfold cursorDown. cursor_crush t. Qed.

Lemma cursorInv_cursorRight count t :
  1 <= count -> cursorInv t -> cursorInv (cursorRight count t).
Proof. intros Hc Hinv. unfold cursorRight. cursor_crush t. Qed.

Lemma cursorInv_cursorLeft count t :
  1 <= count -> cursorInv t -> cursorInv (cursorLeft count t).
Proof. intros Hc Hinv. unfold cursorLeft. cursor_crush t. Qed.

Lemma cursorInv_setCursorPosition row col t :
  cursorInv t -> cursorInv (setCursorPosition row col t).
Proof. intros Hinv. unfold setCursorPosition. cursor_crush t. Qed.

Lemma cursorInv_setScrollRegion top bottom t :
  1 <= bottom -> cursorInv t -> cursorInv (setScrollRegion top bottom t).
Proof. intros Hb Hinv. unfold setScrollRegion, setCursorPosition. cursor_crush t. Qed.

Lemma cursorInv_saveCursor t : cursorInv t -> cursorInv (saveCursor t).
Proof. intros Hinv. unfold saveCursor. cursor_crush t. Qed.

Lemma cursorInv_restoreCursor t : cursorInv t -> cursorInv (restoreCursor t).
Proof. intros Hinv. unfold restoreCursor. cursor_crush t. Qed.

Lemma cursorInv_setGraphicsRendition params t :
  cursorInv t -> cursorInv (setGraphicsRendition params t).
Proof. apply sameCursor_inv, sameCursor_set_attributes. Qed.

Lemma cursorInv_setMode params enable t :
  cursorInv t -> cursorInv (setMode params enable t).
Proof.
  revert t. induction params as [|param params IH]; intros t Hinv; simpl; [exact Hinv |].
  apply IH. case_match; [| exact Hinv]. cursor_crush t.
Qed.

Lemma cursorInv_insertCharacter c t t' :
  insertCharacter c t = Ok t' -> cursorInv t -> cursorInv t'.
Proof.
  unfold insertCharacter. intros Hins Hinv.
  match type of Hins with
  | context [JsArray.get (screen ?u) _] => set (t1 := u) in *
  end.
  assert (H1 : cursorInv t1 /\ curX t1 < ncols t1).
  { subst t1. case_decide as Hx; [| split; [exact Hinv | lia]].
    destruct (wraparound (terminalState t)).
    - split.
      + apply cursorInv_lineFeed, cursorInv_carriageReturn, Hinv.
      + unfold lineFeed. case_decide; cursor_crush t.
    - split; cursor_crush t. }
  clearbody t1. destruct H1 as [H1 Hlt].
  destruct (JsArray.get (screen t1) (curY t1)); [| discriminate].
  injection Hins as <-. clear Hinv. cursor_crush t1.
Qed.

Lemma cursorInv_eraseDisplay mode t t' :
  eraseDisplay mode t = Ok t' -> cursorInv t -> cursorInv t'.
Proof.
  unfold eraseDisplay. intros Hed Hinv.
  destruct (mode =? 0).
  { destruct (eraseLine 0 t) as [t1 | |] eqn:E; simpl in Hed; try discriminate.
    injection Hed as <-.
    eapply sameCursor_inv; [| exact Hinv].
    eapply sameCursor_trans; [eapply sameCursor_eraseLine, E |].
    apply sameCursor_foldl. intros; apply sameCursor_clearRow. }
  destruct (mode =? 1).
  { destruct (clearRowsBelow (Z.to_nat (curY t)) 0 t) as [t1 | |] eqn:E;
      simpl in Hed; try discriminate.
    apply clearRowsBelow_fold in E as [l ->].
    eapply sameCursor_inv; [| exact Hinv].
    eapply sameCursor_trans; [| eapply sameCursor_eraseLine, Hed].
    apply sameCursor_foldl. intros; apply sameCursor_clearRow. }
  destruct (mode =? 2); injection Hed as <-; [| exact Hinv].
  apply cursorInv_setCursorPosition.
  eapply sameCursor_inv; [| exact Hinv].
  apply sameCursor_foldl. intros; apply sameCursor_clearRow.
Qed.

Lemma cursorInv_eraseLine mode t t' :
  eraseLine mode t = Ok t' -> cursorInv t -> cursorInv t'.
Proof. intros He. apply sameCursor_inv. eapply sameCursor_eraseLine, He. Qed.

Create HintDb cursor.

#[local] Hint Resolve cursorInv_lineFeed cursorInv_index cursorInv_carriageReturn
  cursorInv_nextLine cursorInv_reverseIndex cursorInv_tab cursorInv_backspace
  cursorInv_cursorUp cursorInv_cursorDown cursorInv_cursorRight
  cursorInv_cursorLeft cursorInv_setCursorPosition cursorInv_setScrollRegion
  cursorInv_saveCursor cursorInv_restoreCursor cursorInv_setGraphicsRendition
  cursorInv_setMode cursorInv_eraseDisplay cursorInv_eraseLine : cursor.

(** Escape parameters are never negative. *)
Lemma parseDigits_nonneg p : forall acc, 0 <= acc -> 0 <= parseDigits acc p.
Proof.
  induction p as [|c p IH]; intros acc Hacc; simpl; [exact Hacc |].
  destruct (isDigit c) eqn:Hd; [| exact Hacc].
  apply IH. unfold isDigit in Hd. apply andb_true_iff in Hd as [Hlo _].
  apply Z.leb_le in Hlo. lia.
Qed.

Lemma parseParams_nonneg s : Forall (fun v => 0 <= v) (parseParams s).
Proof.
  unfold parseParams. destruct s as [|c s]; [constructor |].
  apply Forall_forall. intros v Hv.
  apply list_elem_of_In, in_map_iff in Hv as (p & <- & _).
  unfold parseInt. destruct p as [|d p]; [lia |].
  destruct (isDigit d); [| lia].
  apply parseDigits_nonneg. lia.
Qed.

Lemma paramOr_pos params k d :
  Forall (fun v => 0 <= v) params -> 1 <= d -> 1 <= paramOr params k d.
Proof.
  intros Hall Hd. unfold paramOr.
  destruct (params !! k) as [v |] eqn:E; [| exact Hd].
  destruct (Z.eqb_spec v 0) as [| Hne]; [exact Hd |].
  eapply Forall_lookup_1 in Hall; [| exact E]. simpl in Hall. lia.
Qed.

Lemma cursorInv_processCSISequence text startIndex t t' j :
  processCSISequence text startIndex t = Ok (t', j) ->
  cursorInv t -> cursorInv t'.
Proof.
  unfold processCSISequence. cbv zeta. intros Hcsi Hinv.
  destruct (text !! _) as [command |]; [| injection Hcsi as <- _; exact Hinv].
  pose proof (parseParams_nonneg (collectParams (drop startIndex text))) as Hnn.
  set (params := parseParams (collectParams (drop startIndex text))) in *.
  assert (Hp0 : 1 <= paramOr params 0 1) by (apply paramOr_pos; [exact Hnn | lia]).
  assert (Hp1 : 1 <= paramOr params 1 (nrows t)).
  { apply paramOr_pos; [exact Hnn |]. apply Hinv. }
  match type of Hcsi with
  | mbind _ ?r = _ => destruct r as [t1 | |] eqn:E; simpl in Hcsi; try discriminate
  end.
  injection Hcsi as <- _.
  repeat (match type of E with
          | (if ?b then _ else _) = _ => destruct b
          end);
    try (injection E as <-);
    eauto with cursor.
Qed.

Lemma cursorInv_processEscapeSequence text startIndex t t' j :
  processEscapeSequence text startIndex t = Ok (t', j) ->
  cursorInv t -> cursorInv t'.
Proof.
  unfold processEscapeSequence. intros Hesc Hinv.
  destruct (text !! S startIndex) as [nextChar |];
    [| injection Hesc as <- _; exact Hinv].
  repeat (match type of Hesc with
          | (if ?b then _ else _) = _ => destruct b
          | Ok (if ?b then _ else _, _) = _ => destruct b
          end);
    try (injection Hesc as <- _);
    eauto using cursorInv_processCSISequence with cursor.
Qed.

Lemma cursorInv_processOutputStep text i char t t' j :
  processOutputStep text i char t = Ok (t', j) ->
  cursorInv t -> cursorInv t'.
Proof.
  unfold processOutputStep. intros Hstep Hinv.
  repeat (match type of Hstep with
          | (if ?b then _ else _) = _ => destruct b
          end);
    try (injection Hstep as <- _);
    eauto using cursorInv_processEscapeSequence with cursor.
  destruct (insertCharacter char t) as [t1 | |] eqn:E; simpl in Hstep;
    try discriminate.
  injection Hstep as <- _. eapply cursorInv_insertCharacter; eassumption.
Qed.

Lemma cursorInv_processOutputFrom fuel : forall text i t t',
  processOutputFrom fuel text i t = Ok t' -> cursorInv t -> cursorInv t'.
Proof.
  induction fuel as [|fuel IH]; intros text i t t' Hrun Hinv; simpl in Hrun.
  - destruct (text !! i); [discriminate | injection Hrun as <-; exact Hinv].
  - destruct (text !! i) as [char |]; [| injection Hrun as <-; exact Hinv].
    destruct (processOutputStep text i char t) as [[t1 j] | |] eqn:E;
      simpl in Hrun; try discriminate.
    eapply IH; [exact Hrun |].
    eapply cursorInv_processOutputStep; eassumption.
Qed.

Lemma cursorInv_write data t t' :
  write data t = Ok t' -> cursorInv t -> cursorInv t'.
Proof.
  unfold write, processOutput. intros Hw Hinv.
  eapply cursorInv_processOutputFrom; [exact Hw |].
  destruct (enableReplay (config t) && negb (isReplaying t)); [| exact Hinv].
  eapply sameCursor_inv; [| exact Hinv]. repeat split.
Qed.

Lemma cursorInv_resize rows cols t t' :
  1 <= rows -> 1 <= cols ->
  resize rows cols t = Ok t' -> cursorInv t -> cursorInv t'.
Proof.
  intros Hrows Hcols Hres Hinv. unfold resize in Hres. cbv zeta in Hres.
  set (t1 := with_state (set_scrollBottom (rows - 1))
               (with_state (set_cols cols) (with_state (set_rows rows) t))) in *.
  match type of Hres with
  | mbind _ (forM ?f ?l ?u) = _ =>
      set (t2 := u) in *;
      assert (H12 : sameCursor t1 t2);
      [| destruct (forM f l t2) as [t3 | |] eqn:E; simpl in Hres; try discriminate;
         assert (H23 : sameCursor t2 t3) ]
  end.
  - subst t2. destruct (decide (rows > nrows t)); [| destruct (decide (rows < nrows t))].
    + apply sameCursor_foldl. intros; apply sameCursor_set_screen.
    + eapply sameCursor_trans; [| apply sameCursor_set_screen].
      apply sameCursor_foldl. intros u row.
      destruct (JsArray.get (screen u) row);
        [apply sameCursor_set_scrollback | apply sameCursor_refl].
    + apply sameCursor_refl.
  - eapply sameCursor_forM; [| exact E].
    intros u row u' Hu.
    destruct (decide (cols > ncols t)); [eapply sameCursor_eraseCells, Hu |].
    destruct (decide (cols < ncols t)).
    + destruct (JsArray.get (screen u) row); [| discriminate].
      injection Hu as <-. apply sameCursor_set_screen.
    + injection Hu as <-. apply sameCursor_refl.
  - injection Hres as <-.
    pose proof (sameCursor_trans _ _ _ H12 H23) as (Hts & Hcfg & Hsv).
    clear H12 H23 E t2. subst t1.
    destruct t3 as [ts3 ? ? ? [? ? ? ? ? ?] ? ? ? ? sv3].
    simpl in Hts, Hcfg, Hsv. subst ts3.
    destruct sv3 as [[? ? ?] |], t as [[? ? ? ? ? ? ? ? ? ? ? ?] ? ? ? [? ? ? ? ? ?] ? ? ? ? [[? ? ?] |]];
      simpl in Hsv; try discriminate; try (injection Hsv as -> ->);
      unfold cursorInv, shapeOk, savedRowNonneg, fullRegion, savedInGrid,
        cursorInGridOrPastLast, curX, curY, nrows, ncols, regionTop, regionBottom in *;
      simpl in *; subst; lia.
Qed.

Lemma cursorInv_constructor : cursorInv constructor.
Proof.
  unfold constructor. rewrite initializeScreen_unfold.
  unfold cursorInv, shapeOk, savedRowNonneg, fullRegion, savedInGrid,
    cursorInGridOrPastLast, curX, curY, nrows, ncols, regionTop, regionBottom.
  simpl. lia.
Qed.

Lemma cursorInv_runOps ops : forall t t',
  Forall positiveSize ops ->
  runOps ops t = Ok t' -> cursorInv t -> cursorInv t'.
Proof.
  unfold runOps.
  induction ops as [|op ops IH]; intros t t' Hpos Hrun Hinv; simpl in Hrun.
  - injection Hrun as <-. exact Hinv.
  - apply Forall_cons in Hpos as [Hop Hpos].
    destruct (runOp op t) as [t1 | |] eqn:E; simpl in Hrun; try discriminate.
    eapply IH; [exact Hpos | exact Hrun |].
    destruct op as [data | rows cols]; simpl in E, Hop.
    + eapply cursorInv_write; eassumption.
    + destruct Hop. eapply (cursorInv_resize rows cols t); eassumption.
Qed.

(** C1 (as amended): starting from a fresh terminal, after every complete
    operation of any sequence of writes and resizes to positive sizes, if
    the scroll region is the whole screen and the saved cursor (if any) lies
    in the grid, then 0 <= cursorX <= cols and 0 <= cursorY < rows.
    cursorX = cols is the position after a character was put in the last
    column; the wrap happens at the next insertion. *)
Theorem cursor_bound_full_region (ops : list Op) (t : Term) :
  Forall positiveSize ops ->
  runOps ops constructor = Ok t ->
  fullRegion t -> savedInGrid t ->
  0 <= curX t <= ncols t /\ 0 <= curY t < nrows t.
Proof.
  intros Hpos Hrun Hfull Hsaved.
  pose proof (cursorInv_runOps ops constructor t Hpos Hrun cursorInv_constructor)
    as (_ & _ & Hgrid).
  exact (Hgrid Hfull Hsaved).
Qed.

(** C1 as stated does not hold: after 80 characters on the fresh 80-column
    terminal the cursor column is 80. *)
Lemma cursor_past_last_column :
  exists t, runOps [Write (repeatText 80 (str "A"))] constructor = Ok t
            /\ curX t = 80 /\ ncols t = 80 /\ ~ cursorInGrid t.
Proof.
  destruct (ok_observe (runOps [Write (repeatText 80 (str "A"))] constructor)
              (fun t => (curX t, ncols t)) (80, 80))
    as (t & E & H); [vm_compute; reflexivity |].
  injection H as Hx Hc.
  exists t. repeat split; try assumption.
  unfold cursorInGrid. lia.
Qed.

Lemma cursor_bound_full_region_witness :
  Forall positiveSize exampleOps
  /\ runOps exampleOps constructor = Ok exampleRun
  /\ fullRegion exampleRun /\ savedInGrid exampleRun
  /\ 0 <= curX exampleRun <= ncols exampleRun
  /\ 0 <= curY exampleRun < nrows exampleRun.
Proof.
  assert (Hpos : Forall positiveSize exampleOps)
    by (repeat constructor; simpl; lia).
  assert (Hrun : runOps exampleOps constructor = Ok exampleRun)
    by (apply okOr_ok; vm_compute; reflexivity).
  assert (Hfull : fullRegion exampleRun)
    by (vm_compute; split; reflexivity).
  assert (Hsaved : savedInGrid exampleRun)
    by (vm_compute; repeat split; discriminate).
  repeat (split; [assumption |]).
  apply (cursor_bound_full_region exampleOps exampleRun Hpos Hrun Hfull Hsaved).
Defined.

(** ** Scrollback growth *)

Lemma repeatText_single n c : repeatText n [c] = replicate n c.
Proof.
  unfold repeatText. induction n as [|n IH]; simpl; [reflexivity |].
  rewrite IH. reflexivity.
Qed.

(** A text of line feeds only runs [lineFeed] once per character. *)
Lemma processOutputFrom_lineFeeds n k : forall fuel i t,
  (i + k = n)%nat -> (k <= fuel)%nat ->
  processOutputFrom fuel (replicate n LF) i t = Ok (Nat.iter k lineFeed t).
Proof.
  induction k as [|k IH]; intros fuel i t Hi Hfuel.
  - assert (Hnone : replicate n LF !! i = None)
      by (apply lookup_ge_None_2; rewrite length_replicate; lia).
    destruct fuel; simpl; rewrite Hnone; reflexivity.
  - assert (Hsome : replicate n LF !! i = Some LF)
      by (apply lookup_replicate_2; lia).
    destruct fuel as [|fuel]; [lia |].
    rewrite Nat.iter_succ_r.
    simpl processOutputFrom. rewrite Hsome.
    change (processOutputStep (replicate n LF) i LF t) with (Ok (lineFeed t, S i)).
    simpl mbind. apply IH; lia.
Qed.

Lemma processOutput_lineFeeds n t :
  processOutput (repeatText n [LF]) t = Ok (Nat.iter n lineFeed t).
Proof.
  rewrite repeatText_single. unfold processOutput.
  apply processOutputFrom_lineFeeds; rewrite ?length_replicate; lia.
Qed.

(** A line feed on the bottom row of the region retires one row; below
    the capacity nothing is trimmed, and the bottom row is a fresh one. *)
Lemma lineFeed_at_bottom t :
  curY t = regionBottom t ->
  Z.of_nat (length (scrollback t)) + 1 <= maxScrollback (config t) ->
  terminalState (lineFeed t) = terminalState t
  /\ config (lineFeed t) = config t
  /\ length (scrollback (lineFeed t)) = S (length (scrollback t))
  /\ is_Some (JsArray.get (screen (lineFeed t)) (regionBottom t)).
Proof.
  intros Hy Hcap. unfold lineFeed. rewrite decide_True by exact Hy.
  unfold scrollUp. cbv zeta.
  rewrite decide_False by (rewrite length_app; simpl; lia).
  repeat split; simpl.
  - rewrite length_app. simpl. lia.
  - rewrite get_set, decide_True by reflexivity. eauto.
Qed.

Lemma lineFeeds_at_bottom k : forall t,
  curY t = regionBottom t ->
  Z.of_nat (length (scrollback t)) + Z.of_nat k <= maxScrollback (config t) ->
  terminalState (Nat.iter k lineFeed t) = terminalState t
  /\ config (Nat.iter k lineFeed t) = config t
  /\ length (scrollback (Nat.iter k lineFeed t)) = (length (scrollback t) + k)%nat
  /\ ((0 < k)%nat ->
      is_Some (JsArray.get (screen (Nat.iter k lineFeed t)) (regionBottom t))).
Proof.
  induction k as [|k IH]; intros t Hy Hcap.
  - simpl. repeat split; [lia | intros; lia].
  - destruct (IH t Hy ltac:(lia)) as (Hts & Hcfg & Hlen & _).
    simpl Nat.iter. set (u := Nat.iter k lineFeed t) in *.
    assert (Hyu : curY u = regionBottom u)
      by (unfold curY, regionBottom in *; rewrite Hts; exact Hy).
    destruct (lineFeed_at_bottom u Hyu) as (Hts' & Hcfg' & Hlen' & Hrow).
    { rewrite Hcfg, Hlen. lia. }
    repeat split.
    + congruence.
    + congruence.
    + lia.
    + intros _. unfold regionBottom in *. rewrite <- Hts. exact Hrow.
Qed.

(** Where [scrollUp] itself pushes, the capacity holds: a push that would
    exceed it leaves the last [maxScrollback / 2] rows, in order. *)
Lemma scrollUp_capacity t :
  2 <= maxScrollback (config t) ->
  Z.of_nat (length (scrollback t)) <= maxScrollback (config t) ->
  let pushed := scrollback t ++ [JsArray.get (screen t) (regionTop t)] in
  Z.of_nat (length (scrollback (scrollUp t))) <= maxScrollback (config t)
  /\ (Z.of_nat (length pushed) > maxScrollback (config t) ->
      scrollback (scrollUp t)
      = drop (length pushed - Z.to_nat (maxScrollback (config t) / 2)) pushed
      /\ Z.of_nat (length (scrollback (scrollUp t)))
         = maxScrollback (config t) / 2).
Proof.
  intros Hmax Hlen pushed. unfold scrollUp. cbv zeta. fold pushed. simpl.
  assert (Hp : Z.of_nat (length pushed) = Z.of_nat (length (scrollback t)) + 1)
    by (subst pushed; rewrite length_app; simpl; lia).
  assert (Hq : Z.quot (- maxScrollback (config t)) 2
               = - (maxScrollback (config t) / 2)).
  { rewrite Z.quot_opp_l by lia. rewrite Z.quot_div_nonneg by lia. reflexivity. }
  assert (Hhalf : 1 <= maxScrollback (config t) / 2 <= maxScrollback (config t)).
  { split; [apply Z.div_le_lower_bound; lia |].
    apply Z.div_le_upper_bound; lia. }
  destruct (decide (Z.of_nat (length pushed) > maxScrollback (config t)))
    as [Hover | Hfits].
  - unfold list_slice_from. rewrite Hq, decide_True by lia.
    replace (Z.to_nat (Z.max (Z.of_nat (length pushed)
                                + - (maxScrollback (config t) / 2)) 0))
      with (length pushed - Z.to_nat (maxScrollback (config t) / 2))%nat by lia.
    rewrite length_drop. split; [lia |]. intros _. split; [reflexivity | lia].
  - split; [lia | intros; lia].
Qed.

Lemma forM_unchanged {B} (f : Term -> B -> result Term) (l : list B) :
  (forall t b, f t b = Ok t) -> forall t, forM f l t = Ok t.
Proof.
  intros Hf. induction l as [|b l IH]; intros t; simpl; [reflexivity |].
  rewrite Hf. simpl. apply IH.
Qed.

(** Shrinking by one row, same width: the last row goes to the scrollback
    and nothing trims it. *)
Lemma resize_one_row_less t r :
  JsArray.get (screen t) (nrows t - 1) = Some r ->
  exists t', resize (nrows t - 1) (ncols t) t = Ok t'
             /\ scrollback t' = scrollback t ++ [Some r]
             /\ config t' = config t.
Proof.
  intros Hrow. unfold resize. cbv zeta.
  rewrite decide_False by lia. rewrite decide_True by lia.
  replace (nrows t - (nrows t - 1)) with 1 by lia.
  rewrite (seqZ_cons (nrows t - 1) 1) by lia.
  rewrite (seqZ_nil (Z.succ (nrows t - 1)) (Z.pred 1)) by lia.
  simpl foldl.
  match goal with
  | |- context [JsArray.get (screen ?u) (nrows t - 1)] =>
      change (JsArray.get (screen u) (nrows t - 1))
        with (JsArray.get (screen t) (nrows t - 1))
  end.
  rewrite Hrow.
  rewrite forM_unchanged.
  - simpl. eexists. split; [reflexivity |]. split; reflexivity.
  - intros u row. rewrite !decide_False by lia. reflexivity.
Qed.

Lemma write_recording data t :
  enableReplay (config t) && negb (isReplaying t) = true ->
  write data t = processOutput data (addToReplayLog Output data t).
Proof. intros H. unfold write. rewrite H. reflexivity. Qed.

(** On the fresh terminal 23 line feeds reach the bottom row and retire
    nothing yet. *)
Lemma fresh_23_lineFeeds data :
  let t := Nat.iter 23 lineFeed (addToReplayLog Output data constructor) in
  curY t = 23 /\ regionBottom t = 23 /\ nrows t = 24 /\ ncols t = 80
  /\ maxScrollback (config t) = 10000 /\ length (scrollback t) = 0%nat.
Proof. vm_compute. repeat split; reflexivity. Qed.

(** C6 (failing input): 23 line feeds take the cursor of the fresh
    terminal to the bottom row and the next 10000 fill the scrollback to
    its capacity of 10000 rows; shrinking the terminal by one row then
    pushes one more row and nothing trims the store. *)
Theorem resize_overflows_scrollback :
  exists t t',
    write (repeatText (23 + Z.to_nat 10000) [LF]) constructor = Ok t
    /\ Z.of_nat (length (scrollback t)) = 10000
    /\ resize 23 80 t = Ok t'
    /\ Z.of_nat (length (scrollback t')) = 10001
    /\ maxScrollback (config t') = 10000.
Proof.
  assert (Hk : Z.of_nat (Z.to_nat 10000) = 10000) by (apply Z2Nat.id; lia).
  generalize dependent (Z.to_nat 10000). intros k Hk.
  pose proof (fresh_23_lineFeeds (repeatText (23 + k) [LF]))
    as (Hy & Hb & Hr & Hc & Hmax & Hlen).
  set (t23 := Nat.iter 23 lineFeed
                (addToReplayLog Output (repeatText (23 + k) [LF]) constructor)) in *.
  assert (Hw : write (repeatText (23 + k) [LF]) constructor
               = Ok (Nat.iter k lineFeed t23)).
  { rewrite write_recording by (vm_compute; reflexivity).
    rewrite processOutput_lineFeeds. subst t23.
    rewrite <- Nat.iter_add. do 2 f_equal. lia. }
  destruct (lineFeeds_at_bottom k t23) as (Hts & Hcfg & Hlen' & Hrow).
  { congruence. }
  { rewrite Hmax, Hlen. lia. }
  set (t := Nat.iter k lineFeed t23) in *.
  destruct Hrow as [r Hrow]; [lia |].
  assert (Hnr : nrows t = 24) by (unfold nrows; rewrite Hts; exact Hr).
  assert (Hnc : ncols t = 80) by (unfold ncols; rewrite Hts; exact Hc).
  destruct (resize_one_row_less t r) as (t' & Hres & Hsb & Hcfg').
  { replace (nrows t - 1) with (regionBottom t23) by lia. exact Hrow. }
  rewrite Hnr, Hnc in Hres. change (24 - 1) with 23 in Hres.
  exists t, t'. repeat split.
  - exact Hw.
  - rewrite Hlen', Hlen. lia.
  - exact Hres.
  - rewrite Hsb, length_app, Hlen', Hlen. simpl. lia.
  - rewrite Hcfg', Hcfg. exact Hmax.
Qed.

(** ** What a write leaves alone *)

Section FrameLoops.
Context {A : Type} (obs : Term -> A).

Lemma obs_foldl {B} (f : Term -> B -> Term) (l : list B) :
  (forall t b, obs (f t b) = obs t) -> forall t, obs (foldl f t l) = obs t.
Proof.
  intros Hf. induction l as [|b l IH]; intros t; simpl; [reflexivity |].
  rewrite IH. apply Hf.
Qed.

Lemma obs_forM {B} (f : Term -> B -> result Term) (l : list B) :
  (forall t b t', f t b = Ok t' -> obs t' = obs t) ->
  forall t t', forM f l t = Ok t' -> obs t' = obs t.
Proof.
  intros Hf. induction l as [|b l IH]; intros t t' H; simpl in H.
  - injection H as <-. reflexivity.
  - destruct (f t b) as [t1 | |] eqn:E; simpl in H; try discriminate.
    rewrite (IH _ _ H). eapply Hf, E.
Qed.
End FrameLoops.

Lemma frameOf_lineFeed t : frameOf (lineFeed t) = frameOf t.
Proof. unfold lineFeed. case_decide; reflexivity. Qed.

Lemma frameOf_reverseIndex t : frameOf (reverseIndex t) = frameOf t.
Proof. unfold reverseIndex. case_decide; reflexivity. Qed.

Lemma frameOf_backspace t : frameOf (backspace t) = frameOf t.
Proof. unfold backspace. case_decide; reflexivity. Qed.

Lemma frameOf_restoreCursor t : frameOf (restoreCursor t) = frameOf t.
Proof. unfold restoreCursor. destruct (savedCursor t); reflexivity. Qed.

Lemma frameOf_setMode params enable t : frameOf (setMode params enable t) = frameOf t.
Proof.
  unfold setMode. apply obs_foldl. intros u param. case_match; reflexivity.
Qed.

Lemma frameOf_insertCharacter c t t' :
  insertCharacter c t = Ok t' -> frameOf t' = frameOf t.
Proof.
  unfold insertCharacter. intros Hins.
  repeat case_match; try discriminate; injection Hins as <-;
    try reflexivity.
  all: unfold frameOf, nrows, ncols; simpl;
    try (pose proof (frameOf_lineFeed (with_state (set_cursorX 0) t)) as Hlf;
         unfold frameOf, nrows, ncols in Hlf; simpl in Hlf; exact Hlf).
Qed.

Lemma frameOf_eraseCells row from to t t' :
  eraseCells row from to t = Ok t' -> frameOf t' = frameOf t.
Proof. unfold eraseCells. repeat case_match; intros [= <-]; reflexivity. Qed.

Lemma frameOf_eraseLine mode t t' :
  eraseLine mode t = Ok t' -> frameOf t' = frameOf t.
Proof.
  unfold eraseLine. repeat case_match; eauto using frameOf_eraseCells;
    intros [= <-]; reflexivity.
Qed.

Lemma frameOf_clearRows l t :
  frameOf (foldl (fun t row => clearRow row t) t l) = frameOf t.
Proof. apply obs_foldl. reflexivity. Qed.

Lemma frameOf_eraseDisplay mode t t' :
  eraseDisplay mode t = Ok t' -> frameOf t' = frameOf t.
Proof.
  unfold eraseDisplay. intros Hed.
  destruct (mode =? 0).
  { destruct (eraseLine 0 t) as [t1 | |] eqn:E; simpl in Hed; try discriminate.
    injection Hed as <-. rewrite frameOf_clearRows. eapply frameOf_eraseLine, E. }
  destruct (mode =? 1).
  { destruct (clearRowsBelow (Z.to_nat (curY t)) 0 t) as [t1 | |] eqn:E;
      simpl in Hed; try discriminate.
    apply clearRowsBelow_fold in E as [l ->].
    rewrite (frameOf_eraseLine _ _ _ Hed). apply frameOf_clearRows. }
  destruct (mode =? 2); injection Hed as <-; [| reflexivity].
  etransitivity; [| apply (frameOf_clearRows (seqZ 0 (nrows t)) t)].
  reflexivity.
Qed.

Lemma frameOf_processCSISequence text startIndex t t' j :
  processCSISequence text startIndex t = Ok (t', j) -> frameOf t' = frameOf t.
Proof.
  unfold processCSISequence. cbv zeta. intros Hcsi.
  destruct (text !! _) as [command |]; [| injection Hcsi as <- _; reflexivity].
  match type of Hcsi with
  | mbind _ ?r = _ => destruct r as [t1 | |] eqn:E; simpl in Hcsi; try discriminate
  end.
  injection Hcsi as <- _.
  repeat (match type of E with
          | (if ?b then _ else _) = _ => destruct b
          end);
    try (injection E as <-);
    eauto using frameOf_eraseDisplay, frameOf_eraseLine, frameOf_restoreCursor,
      frameOf_setMode.
Qed.

Lemma frameOf_processEscapeSequence text startIndex t t' j :
  processEscapeSequence text startIndex t = Ok (t', j) -> frameOf t' = frameOf t.
Proof.
  unfold processEscapeSequence. intros Hesc.
  destruct (text !! S startIndex) as [nextChar |];
    [| injection Hesc as <- _; reflexivity].
  repeat (match type of Hesc with
          | (if ?b then _ else _) = _ => destruct b
          | Ok (if ?b then _ else _, _) = _ => destruct b
          end);
    try (injection Hesc as <- _);
    eauto using frameOf_processCSISequence, frameOf_reverseIndex,
      frameOf_restoreCursor.
  - apply frameOf_lineFeed.
  - apply (frameOf_lineFeed (with_state (set_cursorX 0) t)).
Qed.

Lemma frameOf_processOutputStep text i char t t' j :
  processOutputStep text i char t = Ok (t', j) -> frameOf t' = frameOf t.
Proof.
  unfold processOutputStep. intros Hstep.
  repeat (match type of Hstep with
          | (if ?b then _ else _) = _ => destruct b
          end);
    try (injection Hstep as <- _);
    eauto using frameOf_processEscapeSequence, frameOf_lineFeed, frameOf_backspace.
  destruct (insertCharacter char t) as [t1 | |] eqn:E; simpl in Hstep;
    try discriminate.
  injection Hstep as <- _. eapply frameOf_insertCharacter, E.
Qed.

Lemma frameOf_processOutputFrom fuel : forall text i t t',
  processOutputFrom fuel text i t = Ok t' -> frameOf t' = frameOf t.
Proof.
  induction fuel as [|fuel IH]; intros text i t t' Hrun; simpl in Hrun.
  - destruct (text !! i); [discriminate | injection Hrun as <-; reflexivity].
  - destruct (text !! i) as [char |]; [| injection Hrun as <-; reflexivity].
    destruct (processOutputStep text i char t) as [[t1 j] | |] eqn:E;
      simpl in Hrun; try discriminate.
    rewrite (IH _ _ _ _ Hrun). eapply frameOf_processOutputStep, E.
Qed.

Lemma write_frame data t t' :
  write data t = Ok t' ->
  nrows t' = nrows t /\ ncols t' = ncols t
  /\ wraparound (terminalState t') = wraparound (terminalState t)
  /\ config t' = config t
  /\ replayData t' = replayData t /\ isReplaying t' = isReplaying t
  /\ replayIndex t' = replayIndex t
  /\ (isReplaying t = true -> sessionLog t' = sessionLog t).
Proof.
  unfold write, processOutput. intros Hw.
  apply frameOf_processOutputFrom in Hw. unfold frameOf in Hw.
  destruct (isReplaying t) eqn:Hr.
  - rewrite andb_false_r in Hw.
    injection Hw as -> -> -> -> -> -> -> ->. repeat split. congruence.
  - destruct (enableReplay (config t)); simpl in Hw;
      injection Hw as -> -> -> -> _ -> -> ->; repeat split; try congruence;
      discriminate.
Qed.

(** X1: a write that returns leaves the size, the wrap mode, the
    configuration, the replay flag and the replay index as they were.  The
    entries of the replay array are as they were whenever the write
    records nothing, that is with replay disabled or a replay active; a
    write that records pushes onto the session-log array, which is the
    replay array too when the caller started a replay on it. *)
Theorem write_keeps_frame data t t' :
  write data t = Ok t' ->
  nrows t' = nrows t /\ ncols t' = ncols t
  /\ wraparound (terminalState t') = wraparound (terminalState t)
  /\ config t' = config t
  /\ isReplaying t' = isReplaying t
  /\ replayIndex t' = replayIndex t
  /\ (enableReplay (config t) = false \/ isReplaying t = true ->
      replayData t' = replayData t).
Proof.
  intros Hw.
  destruct (write_frame data t t' Hw) as (? & ? & ? & ? & ? & ? & ? & _).
  repeat split; try assumption. intros _. assumption.
Qed.

Lemma write_keeps_frame_witness :
  nrows replayingRun = 24 /\ ncols replayingRun = 80
  /\ wraparound (terminalState replayingRun) = true
  /\ config replayingRun = defaultConfig
  /\ isReplaying replayingRun = true
  /\ replayIndex replayingRun = 0%nat
  /\ replayData replayingRun = [].
Proof.
  destruct (write_keeps_frame (str "A" ++ [CR; LF] ++ str "B")
              (set_isReplaying true constructor) replayingRun)
    as (? & ? & ? & ? & ? & ? & Hdata).
  { apply okOr_ok. vm_compute. reflexivity. }
  do 6 (split; [assumption |]).
  apply Hdata. right. reflexivity.
Defined.

(** X2: what a write records.  While a replay is active, or with replay
    disabled, the session log is left alone; otherwise, below the capacity,
    the log grows by exactly one output entry that holds the data. *)
Theorem write_records data t t' :
  write data t = Ok t' ->
  (enableReplay (config t) = false \/ isReplaying t = true ->
   sessionLog t' = sessionLog t)
  /\ (enableReplay (config t) = true -> isReplaying t = false ->
      Z.of_nat (length (sessionLog t)) < maxReplaySize (config t) ->
      sessionLog t'
      = sessionLog t ++ [{| entryType := Output; entryData := data |}]).
Proof.
  unfold write, processOutput. intros Hw.
  apply frameOf_processOutputFrom in Hw. unfold frameOf in Hw.
  split.
  - intros Hoff.
    assert (Hc : enableReplay (config t) && negb (isReplaying t) = false)
      by (destruct Hoff as [-> | ->]; [reflexivity | apply andb_false_r]).
    rewrite Hc in Hw. injection Hw as _ _ _ _ -> _ _ _. reflexivity.
  - intros Hen Hrep Hcap. rewrite Hen, Hrep in Hw. simpl in Hw.
    injection Hw as _ _ _ _ -> _ _ _.
    rewrite decide_False by (rewrite length_app; simpl; lia). reflexivity.
Qed.

Lemma write_records_witness :
  sessionLog twoLineTerm
  = sessionLog constructor
    ++ [{| entryType := Output; entryData := str "A" ++ [CR; LF] ++ str "B" |}].
Proof.
  refine (proj2 (write_records (str "A" ++ [CR; LF] ++ str "B")
                   constructor twoLineTerm _) _ _ _).
  - apply okOr_ok. vm_compute. reflexivity.
  - vm_compute. reflexivity.
  - vm_compute. reflexivity.
  - vm_compute. reflexivity.
Defined.

(** ** The session log stays within its capacity *)

Lemma recorderOf_resize rows cols t t' :
  resize rows cols t = Ok t' -> recorderOf t' = recorderOf t.
Proof.
  unfold resize. cbv zeta. intros Hres.
  match type of Hres with
  | mbind _ (forM ?f ?l ?u) = _ =>
      destruct (forM f l u) as [t3 | |] eqn:E; simpl in Hres; try discriminate;
      apply (obs_forM recorderOf) in E
  end.
  - injection Hres as <-.
    change (recorderOf t3 = recorderOf t). rewrite E.
    destruct (decide (rows > nrows t)); [| destruct (decide (rows < nrows t))].
    + rewrite (obs_foldl recorderOf) by reflexivity. reflexivity.
    + match goal with
      | |- recorderOf (set_screen _ ?u) = _ => change (recorderOf u = recorderOf t)
      end.
      rewrite (obs_foldl recorderOf); [reflexivity |].
      intros u row. destruct (JsArray.get (screen u) row); reflexivity.
    + reflexivity.
  - intros u row u' Hu.
    destruct (decide (cols > ncols t)).
    { apply frameOf_eraseCells in Hu. unfold frameOf in Hu.
      injection Hu as _ _ _ H1 H2 H3 H4 H5. unfold recorderOf. congruence. }
    destruct (decide (cols < ncols t)).
    + destruct (JsArray.get (screen u) row); [| discriminate].
      injection Hu as <-. reflexivity.
    + injection Hu as <-. reflexivity.
Qed.

Lemma list_slice_from_length {A} (l : list A) (k : Z) :
  0 < k -> Z.of_nat (length (list_slice_from l (- k))) <= k.
Proof.
  intros Hk. unfold list_slice_from.
  rewrite decide_True by lia. rewrite length_drop. lia.
Qed.

Lemma addToReplayLog_capacity type data t :
  2 <= maxReplaySize (config t) ->
  Z.of_nat (length (sessionLog t)) <= maxReplaySize (config t) ->
  Z.of_nat (length (sessionLog (addToReplayLog type data t)))
  <= maxReplaySize (config t).
Proof.
  intros Hmax Hlen. unfold addToReplayLog. simpl.
  set (log := sessionLog t ++ _).
  assert (Hlog : Z.of_nat (length log) = Z.of_nat (length (sessionLog t)) + 1)
    by (subst log; rewrite length_app; simpl; lia).
  case_decide as Hover; [| lia].
  rewrite Z.quot_opp_l by lia. rewrite Z.quot_div_nonneg by lia.
  assert (Hhalf : 1 <= maxReplaySize (config t) / 2 <= maxReplaySize (config t)).
  { split; [apply Z.div_le_lower_bound; lia |].
    apply Z.div_le_upper_bound; lia. }
  pose proof (list_slice_from_length log (maxReplaySize (config t) / 2)). lia.
Qed.

Lemma write_log_capacity data t t' :
  2 <= maxReplaySize (config t) ->
  Z.of_nat (length (sessionLog t)) <= maxReplaySize (config t) ->
  write data t = Ok t' ->
  config t' = config t
  /\ Z.of_nat (length (sessionLog t')) <= maxReplaySize (config t).
Proof.
  intros Hmax Hlen Hw. unfold write, processOutput in Hw.
  apply frameOf_processOutputFrom in Hw. unfold frameOf in Hw.
  destruct (enableReplay (config t) && negb (isReplaying t)).
  - injection Hw as _ _ _ -> -> _ _ _. split; [reflexivity |].
    apply addToReplayLog_capacity; assumption.
  - injection Hw as _ _ _ -> -> _ _ _. auto.
Qed.

(** X3: starting from a fresh terminal, after any sequence of writes and
    resizes that return, the session log holds at most [maxReplaySize]
    (1,000,000) entries; the trim of [addToReplayLog] is the only place
    that appends. *)
Theorem session_log_within_capacity ops : forall t,
  runOps ops constructor = Ok t ->
  config t = defaultConfig
  /\ Z.of_nat (length (sessionLog t)) <= maxReplaySize (config t).
Proof.
  assert (Hgen : forall t0 t,
             config t0 = defaultConfig ->
             Z.of_nat (length (sessionLog t0)) <= maxReplaySize (config t0) ->
             runOps ops t0 = Ok t ->
             config t = defaultConfig
             /\ Z.of_nat (length (sessionLog t)) <= maxReplaySize (config t)).
  { unfold runOps.
    induction ops as [|op ops IH]; intros t0 t Hcfg Hlen Hrun; simpl in Hrun.
    - injection Hrun as <-. auto.
    - destruct (runOp op t0) as [t1 | |] eqn:E; simpl in Hrun; try discriminate.
      destruct op as [data | rows cols]; simpl in E.
      + destruct (write_log_capacity data t0 t1) as [Hc Hl]; try assumption.
        { rewrite Hcfg. simpl. lia. }
        eapply IH; [| | exact Hrun]; congruence.
      + apply recorderOf_resize in E. unfold recorderOf in E.
        injection E as Hc Hl _ _ _.
        eapply IH; [| | exact Hrun]; congruence. }
  intros t. apply Hgen.
  - unfold constructor. rewrite initializeScreen_unfold. reflexivity.
  - unfold constructor. rewrite initializeScreen_unfold. simpl. lia.
Qed.

Lemma session_log_within_capacity_witness :
  config exampleRun = defaultConfig
  /\ Z.of_nat (length (sessionLog exampleRun)) <= maxReplaySize (config exampleRun).
Proof.
  apply (session_log_within_capacity exampleOps exampleRun).
  apply okOr_ok. vm_compute. reflexivity.
Defined.

(** ** The replay driver *)

Lemma stepReplay_entry t pre entry rest :
  isReplaying t = true ->
  replayData t = pre ++ entry :: rest ->
  replayIndex t = length pre ->
  stepReplay t
  = (t2 ← replayStep t entry;
     Ok ((replayIndex t2 <? length (replayData t2))%nat, t2)).
Proof.
  intros Hrep Hdata Hidx. unfold stepReplay, replayStep.
  rewrite Hrep, Hdata, Hidx. simpl negb. simpl orb.
  replace (length (pre ++ entry :: rest) <=? length pre)%nat with false
    by (symmetry; apply Nat.leb_gt; rewrite length_app; simpl; lia).
  rewrite lookup_app_r by lia. rewrite Nat.sub_diag. simpl lookup.
  destruct entry as [[|] d]; simpl; [| reflexivity].
  destruct (write d t); reflexivity.
Qed.

Lemma replayStep_frame t entry t2 :
  isReplaying t = true ->
  replayStep t entry = Ok t2 ->
  isReplaying t2 = true /\ replayData t2 = replayData t
  /\ replayIndex t2 = S (replayIndex t) /\ sessionLog t2 = sessionLog t.
Proof.
  unfold replayStep. intros Hrep Hstep.
  destruct (entryType entry).
  - destruct (write (entryData entry) t) as [t1 | |] eqn:E; simpl in Hstep;
      try discriminate.
    injection Hstep as <-. simpl.
    destruct (write_frame _ _ _ E) as (_ & _ & _ & _ & Hd & Hr & Hi & Hl).
    repeat split; try congruence. auto.
  - injection Hstep as <-. simpl. auto.
Qed.

Lemma replayToEnd_entries rest : forall pre t,
  isReplaying t = true ->
  replayData t = pre ++ rest ->
  replayIndex t = length pre ->
  replayToEnd (S (length rest)) t = forM replayStep rest t.
Proof.
  induction rest as [|entry rest IH]; intros pre t Hrep Hdata Hidx.
  - simpl. unfold stepReplay. rewrite Hrep, Hdata, Hidx, app_nil_r. simpl.
    rewrite Nat.leb_refl. reflexivity.
  - simpl replayToEnd. simpl forM.
    rewrite (stepReplay_entry t pre entry rest Hrep Hdata Hidx).
    destruct (replayStep t entry) as [t2 | |] eqn:E; try reflexivity.
    destruct (replayStep_frame t entry t2 Hrep E) as (Hrep2 & Hdata2 & Hidx2 & _).
    simpl mbind.
    assert (Hlen : length (replayData t2) = (length pre + S (length rest))%nat)
      by (rewrite Hdata2, Hdata, length_app; reflexivity).
    destruct (Nat.ltb_spec (replayIndex t2) (length (replayData t2))) as [Hlt | Hge].
    + destruct rest as [|entry' rest']; [simpl in Hlen; lia |].
      apply (IH (pre ++ [entry])).
      * exact Hrep2.
      * rewrite Hdata2, Hdata, <- app_assoc. reflexivity.
      * rewrite Hidx2, Hidx, length_app. simpl. lia.
    + destruct rest as [|entry' rest']; [reflexivity | simpl in Hlen; lia].
Qed.

Lemma replaySteps_frame data : forall t t',
  isReplaying t = true ->
  forM replayStep data t = Ok t' ->
  isReplaying t' = true
  /\ replayIndex t' = (replayIndex t + length data)%nat
  /\ sessionLog t' = sessionLog t.
Proof.
  induction data as [|entry data IH]; intros t t' Hrep Hrun; simpl in Hrun.
  - injection Hrun as <-. repeat split; [assumption | simpl; lia].
  - destruct (replayStep t entry) as [t2 | |] eqn:E; simpl in Hrun; try discriminate.
    destruct (replayStep_frame t entry t2 Hrep E) as (Hrep2 & _ & Hidx2 & Hlog2).
    destruct (IH t2 t' Hrep2 Hrun) as (Hrep' & Hidx' & Hlog').
    repeat split; [assumption | simpl; lia | congruence].
Qed.

(** X4: with replay enabled, [startReplay(entries)] followed by
    [stepReplay()] until it returns false feeds every entry through the
    replay step exactly once, in order, and needs no more than
    [entries.length + 1] calls; it raises only if the write of an entry
    raises.  When it returns, the replay index equals the number of
    entries, the replay flag is still set and the session log is the one
    from before the replay: replaying records nothing. *)
Theorem replay_runs_every_entry data t :
  enableReplay (config t) = true ->
  exists t1,
    startReplay data t = Ok t1
    /\ replayToEnd (S (length data)) t1 = forM replayStep data t1
    /\ forall t', forM replayStep data t1 = Ok t' ->
          replayIndex t' = length data /\ isReplaying t' = true
          /\ sessionLog t' = sessionLog t.
Proof.
  intros Hen. unfold startReplay. rewrite Hen. simpl negb. cbv iota.
  eexists. split; [reflexivity |].
  rewrite initializeScreen_unfold.
  split.
  - apply (replayToEnd_entries data []); reflexivity.
  - intros t' Hrun.
    apply replaySteps_frame in Hrun as (Hrep & Hidx & Hlog); [| reflexivity].
    repeat split; assumption.
Qed.

Lemma replay_runs_every_entry_witness :
  exists t1,
    startReplay (sessionLog twoLineTerm) twoLineTerm = Ok t1
    /\ replayToEnd (S (length (sessionLog twoLineTerm))) t1
       = forM replayStep (sessionLog twoLineTerm) t1
    /\ forall t', forM replayStep (sessionLog twoLineTerm) t1 = Ok t' ->
          replayIndex t' = length (sessionLog twoLineTerm)
          /\ isReplaying t' = true
          /\ sessionLog t' = sessionLog twoLineTerm.
Proof.
  apply (replay_runs_every_entry (sessionLog twoLineTerm) twoLineTerm).
  vm_compute. reflexivity.
Defined.

(** ** Invariants of the output loop, generically *)

(** A property that every command of the interpreter keeps is kept by the
    output loop and by [write]. *)
Section WriteInvariant.
Variable P : Term -> Prop.
Hypothesis P_carriageReturn : forall t, P t -> P (with_state (set_cursorX 0) t).
Hypothesis P_lineFeed : forall t, P t -> P (lineFeed t).
Hypothesis P_tab : forall t, P t -> P (tab t).
Hypothesis P_backspace : forall t, P t -> P (backspace t).
Hypothesis P_insertCharacter : forall c t t', insertCharacter c t = Ok t' -> P t -> P t'.
Hypothesis P_cursorUp : forall n t, P t -> P (cursorUp n t).
Hypothesis P_cursorDown : forall n t, P t -> P (cursorDown n t).
Hypothesis P_cursorRight : forall n t, P t -> P (cursorRight n t).
Hypothesis P_cursorLeft : forall n t, P t -> P (cursorLeft n t).
Hypothesis P_setCursorPosition : forall r c t, P t -> P (setCursorPosition r c t).
Hypothesis P_eraseDisplay : forall m t t', eraseDisplay m t = Ok t' -> P t -> P t'.
Hypothesis P_eraseLine : forall m t t', eraseLine m t = Ok t' -> P t -> P t'.
Hypothesis P_setGraphicsRendition : forall ps t, P t -> P (setGraphicsRendition ps t).
Hypothesis P_setScrollRegion : forall a b t, P t -> P (setScrollRegion a b t).
Hypothesis P_saveCursor : forall t, P t -> P (saveCursor t).
Hypothesis P_restoreCursor : forall t, P t -> P (restoreCursor t).
Hypothesis P_setMode : forall ps e t, P t -> P (setMode ps e t).
Hypothesis P_reverseIndex : forall t, P t -> P (reverseIndex t).
Hypothesis P_addToReplayLog : forall ty d t, P t -> P (addToReplayLog ty d t).

Lemma inv_processCSISequence text startIndex t t' j :
  processCSISequence text startIndex t = Ok (t', j) -> P t -> P t'.
Proof.
  unfold processCSISequence. cbv zeta. intros Hcsi HP.
  destruct (text !! _) as [command |]; [| injection Hcsi as <- _; exact HP].
  match type of Hcsi with
  | mbind _ ?r = _ => destruct r as [t1 | |] eqn:E; simpl in Hcsi; try discriminate
  end.
  injection Hcsi as <- _.
  repeat (match type of E with
          | (if ?b then _ else _) = _ => destruct b
          end);
    try (injection E as <-); eauto.
Qed.

Lemma inv_processEscapeSequence text startIndex t t' j :
  processEscapeSequence text startIndex t = Ok (t', j) -> P t -> P t'.
Proof.
  unfold processEscapeSequence. intros Hesc HP.
  destruct (text !! S startIndex) as [nextChar |];
    [| injection Hesc as <- _; exact HP].
  repeat (match type of Hesc with
          | (if ?b then _ else _) = _ => destruct b
          | Ok (if ?b then _ else _, _) = _ => destruct b
          end);
    try (injection Hesc as <- _); eauto using inv_processCSISequence.
Qed.

Lemma inv_processOutputStep text i char t t' j :
  processOutputStep text i char t = Ok (t', j) -> P t -> P t'.
Proof.
  unfold processOutputStep. intros Hstep HP.
  repeat (match type of Hstep with
          | (if ?b then _ else _) = _ => destruct b
          end);
    try (injection Hstep as <- _); eauto using inv_processEscapeSequence.
  destruct (insertCharacter char t) as [t1 | |] eqn:E; simpl in Hstep;
    try discriminate.
  injection Hstep as <- _. eauto.
Qed.

Lemma inv_processOutputFrom fuel : forall text i t t',
  processOutputFrom fuel text i t = Ok t' -> P t -> P t'.
Proof.
  induction fuel as [|fuel IH]; intros text i t t' Hrun HP; simpl in Hrun.
  - destruct (text !! i); [discriminate | injection Hrun as <-; exact HP].
  - destruct (text !! i) as [char |]; [| injection Hrun as <-; exact HP].
    destruct (processOutputStep text i char t) as [[t1 j] | |] eqn:E;
      simpl in Hrun; try discriminate.
    eapply IH; [exact Hrun |]. eapply inv_processOutputStep; eassumption.
Qed.

Lemma inv_write data t t' : write data t = Ok t' -> P t -> P t'.
Proof.
  unfold write, processOutput. intros Hw HP.
  eapply inv_processOutputFrom; [exact Hw |].
  destruct (enableReplay (config t) && negb (isReplaying t)); auto.
Qed.
End WriteInvariant.

(** ** The pen *)

Lemma sgr_zero a : sgr a 0 = defaultAttributes.
Proof. destruct a. reflexivity. Qed.

(** X5: the pen after a rendition list that contains a reset (code 0)
    depends only on the codes after the last reset: it is the default pen
    with those codes applied.  In particular a list that ends in 0, and the
    empty list, give the default pen. *)
Theorem rendition_after_reset pre post t :
  attributes (setGraphicsRendition (pre ++ 0 :: post) t)
  = foldl sgr defaultAttributes post
  /\ attributes (setGraphicsRendition (pre ++ [0]) t) = defaultAttributes
  /\ attributes (setGraphicsRendition [] t) = defaultAttributes.
Proof.
  assert (Hgen : forall post',
             attributes (setGraphicsRendition (pre ++ 0 :: post') t)
             = foldl sgr defaultAttributes post').
  { intros post'. unfold setGraphicsRendition.
    destruct (pre ++ 0 :: post') as [|p l] eqn:E.
    - destruct pre; discriminate.
    - rewrite <- E. simpl. rewrite foldl_app. simpl. rewrite sgr_zero. reflexivity. }
  split; [apply Hgen |]. split; [apply (Hgen []) |].
  simpl. apply sgr_zero.
Qed.

Lemma colourOk_sgr a param : colourOk a -> colourOk (sgr a param).
Proof.
  unfold colourOk, sgr. destruct a as [b d i u k r s fg bg]. simpl. intros H.
  repeat (match goal with
          | |- context [if ?c then _ else _] => destruct c eqn:?
          end; simpl; try lia).
Qed.

Lemma colourOk_rendition params a :
  colourOk a -> colourOk (foldl sgr a params).
Proof.
  revert a. induction params as [|param params IH]; intros a Ha; simpl;
    auto using colourOk_sgr.
Qed.

Lemma penInv_penOf t t' : penOf t' = penOf t -> penInv t -> penInv t'.
Proof. unfold penOf, penInv. intros [= -> ->]. auto. Qed.

Lemma penOf_lineFeed t : penOf (lineFeed t) = penOf t.
Proof. unfold lineFeed. case_decide; reflexivity. Qed.

Lemma penOf_insertCharacter c t t' :
  insertCharacter c t = Ok t' -> penOf t' = penOf t.
Proof.
  unfold insertCharacter. intros Hins.
  repeat case_match; try discriminate; injection Hins as <-;
    try reflexivity.
  apply (penOf_lineFeed (with_state (set_cursorX 0) t)).
Qed.

Lemma penOf_eraseCells row from to t t' :
  eraseCells row from to t = Ok t' -> penOf t' = penOf t.
Proof. unfold eraseCells. repeat case_match; intros [= <-]; reflexivity. Qed.

Lemma penOf_eraseLine mode t t' :
  eraseLine mode t = Ok t' -> penOf t' = penOf t.
Proof.
  unfold eraseLine. repeat case_match; eauto using penOf_eraseCells;
    intros [= <-]; reflexivity.
Qed.

Lemma penOf_eraseDisplay mode t t' :
  eraseDisplay mode t = Ok t' -> penOf t' = penOf t.
Proof.
  unfold eraseDisplay. intros Hed.
  destruct (mode =? 0).
  { destruct (eraseLine 0 t) as [t1 | |] eqn:E; simpl in Hed; try discriminate.
    injection Hed as <-. rewrite (obs_foldl penOf) by reflexivity.
    eapply penOf_eraseLine, E. }
  destruct (mode =? 1).
  { destruct (clearRowsBelow (Z.to_nat (curY t)) 0 t) as [t1 | |] eqn:E;
      simpl in Hed; try discriminate.
    apply clearRowsBelow_fold in E as [l ->].
    rewrite (penOf_eraseLine _ _ _ Hed). apply (obs_foldl penOf). reflexivity. }
  destruct (mode =? 2); injection Hed as <-; [| reflexivity].
  etransitivity; [| apply (obs_foldl penOf (fun t row => clearRow row t)
                             (seqZ 0 (nrows t))); reflexivity].
  reflexivity.
Qed.

Lemma penInv_write data t t' : write data t = Ok t' -> penInv t -> penInv t'.
Proof.
  apply inv_write; clear; intros.
  all: try (eapply penInv_penOf; [| eassumption]; reflexivity).
  - eapply penInv_penOf; [apply penOf_lineFeed | assumption].
  - eapply penInv_penOf; [| eassumption]. unfold backspace. case_decide; reflexivity.
  - eapply penInv_penOf; [eapply penOf_insertCharacter | ]; eassumption.
  - eapply penInv_penOf; [eapply penOf_eraseDisplay | ]; eassumption.
  - eapply penInv_penOf; [eapply penOf_eraseLine | ]; eassumption.
  - destruct H as [Hpen Hsaved]. split; [| exact Hsaved].
    unfold setGraphicsRendition. simpl. apply colourOk_rendition, Hpen.
  - destruct H as [Hpen Hsaved]. split; assumption.
  - destruct H as [Hpen Hsaved]. unfold restoreCursor, penInv in *.
    destruct (savedCursor t) as [sc |] eqn:E; simpl; [| rewrite E; auto].
    rewrite E. auto.
  - eapply penInv_penOf; [| eassumption].
    unfold setMode. apply (obs_foldl penOf). intros u param. case_match; reflexivity.
  - eapply penInv_penOf; [| eassumption]. unfold reverseIndex. case_decide; reflexivity.
Qed.

Lemma penOf_resize rows cols t t' :
  resize rows cols t = Ok t' -> penOf t' = penOf t.
Proof.
  unfold resize. cbv zeta. intros Hres.
  match type of Hres with
  | mbind _ (forM ?f ?l ?u) = _ =>
      destruct (forM f l u) as [t3 | |] eqn:E; simpl in Hres; try discriminate;
      apply (obs_forM penOf) in E
  end.
  - injection Hres as <-.
    change (penOf t3 = penOf t). rewrite E.
    destruct (decide (rows > nrows t)); [| destruct (decide (rows < nrows t))].
    + rewrite (obs_foldl penOf) by reflexivity. reflexivity.
    + match goal with
      | |- penOf (set_screen _ ?u) = _ => change (penOf u = penOf t)
      end.
      rewrite (obs_foldl penOf); [reflexivity |].
      intros u row. destruct (JsArray.get (screen u) row); reflexivity.
    + reflexivity.
  - intros u row u' Hu.
    destruct (decide (cols > ncols t)); [eapply penOf_eraseCells, Hu |].
    destruct (decide (cols < ncols t)).
    + destruct (JsArray.get (screen u) row); [| discriminate].
      injection Hu as <-. reflexivity.
    + injection Hu as <-. reflexivity.
Qed.

(** X6: starting from a fresh terminal, after any sequence of writes and
    resizes that return, the foreground and background indices of the pen,
    and of the pen held by the saved cursor, are among 0..7, whatever
    rendition codes the writes contained. *)
Theorem pen_colours_in_range ops t :
  runOps ops constructor = Ok t ->
  0 <= foreground (attributes t) <= 7 /\ 0 <= background (attributes t) <= 7
  /\ forall sc, savedCursor t = Some sc ->
       0 <= foreground (savedAttributes sc) <= 7
       /\ 0 <= background (savedAttributes sc) <= 7.
Proof.
  assert (Hgen : forall t0 t, penInv t0 -> runOps ops t0 = Ok t -> penInv t).
  { unfold runOps.
    induction ops as [|op ops IH]; intros t0 t1 Hinv Hrun; simpl in Hrun.
    - injection Hrun as <-. exact Hinv.
    - destruct (runOp op t0) as [t2 | |] eqn:E; simpl in Hrun; try discriminate.
      eapply IH; [| exact Hrun].
      destruct op as [data | rows cols]; simpl in E.
      + eapply penInv_write; eassumption.
      + eapply penInv_penOf; [eapply penOf_resize, E | exact Hinv]. }
  intros Hrun.
  assert (Hinit : penInv constructor).
  { unfold constructor. rewrite initializeScreen_unfold.
    unfold penInv, colourOk. simpl. lia. }
  destruct (Hgen constructor t Hinit Hrun) as [[Hfg Hbg] Hsaved].
  repeat split; try lia.
  all: intros; rewrite H in Hsaved; unfold colourOk in Hsaved; lia.
Qed.

Lemma pen_colours_in_range_witness :
  0 <= foreground (attributes colourRun) <= 7
  /\ 0 <= background (attributes colourRun) <= 7
  /\ forall sc, savedCursor colourRun = Some sc ->
       0 <= foreground (savedAttributes sc) <= 7
       /\ 0 <= background (savedAttributes sc) <= 7.
Proof.
  apply (pen_colours_in_range colourOps colourRun).
  apply okOr_ok. vm_compute. reflexivity.
Defined.

(** ** Plain text of a write *)

Lemma forM_app {B} (f : Term -> B -> result Term) (l1 l2 : list B) t :
  forM f (l1 ++ l2) t = (t' ← forM f l1 t; forM f l2 t').
Proof.
  revert t. induction l1 as [|b l1 IH]; intros t; simpl; [reflexivity |].
  destruct (f t b); simpl; auto.
Qed.

Lemma processOutputStep_plain text i char t :
  char <> ESC ->
  processOutputStep text i char t = (t' ← processPlainChar char t; Ok (t', S i)).
Proof.
  intros Hne. unfold processOutputStep, processPlainChar.
  destruct (Z.eqb_spec char ESC) as [| _]; [contradiction |].
  repeat case_match; reflexivity.
Qed.

(** Across a stretch without ESC the loop runs the per-character action
    and arrives at the end of the stretch. *)
Lemma processOutputFrom_plain body : forall pre post fuel t,
  Forall (fun c => c <> ESC) body ->
  (length body + length post <= fuel)%nat ->
  processOutputFrom fuel (pre ++ body ++ post) (length pre) t
  = (t' ← forM (fun t c => processPlainChar c t) body t;
     processOutputFrom (fuel - length body) (pre ++ body ++ post)
       (length pre + length body) t').
Proof.
  induction body as [|c body IH]; intros pre post fuel t Hplain Hfuel.
  - simpl. rewrite Nat.add_0_r, Nat.sub_0_r. reflexivity.
  - apply Forall_cons in Hplain as [Hc Hplain].
    destruct fuel as [|fuel]; [simpl in Hfuel; lia |].
    change ((c :: body) ++ post) with (c :: body ++ post).
    simpl processOutputFrom.
    assert (Hlook : (pre ++ c :: body ++ post) !! length pre = Some c).
    { rewrite lookup_app_r by lia. rewrite Nat.sub_diag. reflexivity. }
    rewrite Hlook, processOutputStep_plain by exact Hc.
    simpl forM.
    destruct (processPlainChar c t) as [t1 | |]; simpl; try reflexivity.
    replace (pre ++ c :: body ++ post) with ((pre ++ [c]) ++ body ++ post)
      by (rewrite <- app_assoc; reflexivity).
    replace (S (length pre)) with (length (pre ++ [c]))
      by (rewrite length_app; simpl; lia).
    rewrite IH by (simpl in Hfuel; auto with lia).
    replace (length (pre ++ [c]) + length body)%nat
      with (length pre + S (length body))%nat
      by (rewrite length_app; simpl; lia).
    reflexivity.
Qed.

Lemma processOutput_plain text t :
  Forall (fun c => c <> ESC) text ->
  processOutput text t = forM (fun t c => processPlainChar c t) text t.
Proof.
  intros Hplain. unfold processOutput.
  pose proof (processOutputFrom_plain text [] [] (length text) t Hplain) as H.
  rewrite app_nil_r in H. simpl in H.
  rewrite H by lia.
  destruct (forM _ text t) as [t1 | |]; simpl; try reflexivity.
  rewrite Nat.sub_diag. simpl.
  rewrite lookup_ge_None_2 by lia. reflexivity.
Qed.

(** The text of a string as the output loop sees it. *)
Lemma toScalarValues_cons c s :
  toScalarValues (c :: s)
  = if isHighSurrogate c then
      match s with
      | d :: s'' =>
          if isLowSurrogate d then c :: d :: toScalarValues s''
          else replacementChar :: toScalarValues s
      | [] => [replacementChar]
      end
    else if isLowSurrogate c then replacementChar :: toScalarValues s
    else c :: toScalarValues s.
Proof. destruct s; reflexivity. Qed.

Lemma toScalarValues_app n : forall a b,
  (length a <= n)%nat ->
  (forall c, last a = Some c -> isHighSurrogate c = false) ->
  toScalarValues (a ++ b) = toScalarValues a ++ toScalarValues b.
Proof.
  induction n as [|n IH]; intros a b Hlen Hlast.
  - destruct a; [reflexivity | simpl in Hlen; lia].
  - destruct a as [|c a]; [reflexivity |].
    simpl in Hlen.
    destruct a as [|d a].
    + simpl. rewrite (Hlast c eq_refl).
      destruct (isLowSurrogate c); reflexivity.
    + assert (Htail : forall c', last (d :: a) = Some c' ->
                                 isHighSurrogate c' = false).
      { intros c' Hc'. apply Hlast. exact Hc'. }
      change ((c :: d :: a) ++ b) with (c :: d :: (a ++ b)).
      rewrite (toScalarValues_cons c (d :: (a ++ b))),
        (toScalarValues_cons c (d :: a)).
      change (d :: (a ++ b)) with ((d :: a) ++ b).
      destruct (isHighSurrogate c).
      * destruct (isLowSurrogate d).
        -- rewrite (IH a b); [reflexivity | simpl in Hlen; lia |].
           intros c' Hc'. apply Hlast.
           destruct a; [discriminate | exact Hc'].
        -- rewrite (IH (d :: a) b); [reflexivity | simpl in *; lia | exact Htail].
      * destruct (isLowSurrogate c);
          rewrite (IH (d :: a) b); try reflexivity; try exact Htail;
          simpl in *; lia.
Qed.

Lemma toScalarValues_head s c :
  head (toScalarValues s) = Some c ->
  c = replacementChar \/ head s = Some c.
Proof.
  destruct s as [|x s]; simpl; [discriminate |].
  destruct (isHighSurrogate x).
  - destruct s as [|d s]; [intros [= <-]; auto |].
    destruct (isLowSurrogate d); intros [= <-]; auto.
  - destruct (isLowSurrogate x); intros [= <-]; auto.
Qed.

Lemma toScalarValues_nil s : toScalarValues s = [] -> s = [].
Proof.
  destruct s as [|x s]; [reflexivity |]. simpl.
  destruct (isHighSurrogate x).
  - destruct s as [|d s]; [discriminate |].
    destruct (isLowSurrogate d); discriminate.
  - destruct (isLowSurrogate x); discriminate.
Qed.

Lemma toScalarValues_plain n : forall s,
  (length s <= n)%nat ->
  Forall (fun c => c <> ESC) s -> Forall (fun c => c <> ESC) (toScalarValues s).
Proof.
  induction n as [|n IH]; intros s Hlen Hs.
  - destruct s; [constructor | simpl in Hlen; lia].
  - destruct s as [|c s]; [constructor |].
    apply Forall_cons in Hs as [Hc Hs]. simpl in Hlen. simpl.
    destruct (isHighSurrogate c).
    + destruct s as [|d s]; [repeat constructor; discriminate |].
      pose proof Hs as Hds. apply Forall_cons in Hds as [Hd Hs'].
      destruct (isLowSurrogate d).
      * constructor; [exact Hc |]. constructor; [exact Hd |].
        apply IH; [simpl in Hlen; lia | exact Hs'].
      * constructor; [discriminate |]. apply IH; [lia | exact Hs].
    + destruct (isLowSurrogate c);
        (constructor; [first [exact Hc | discriminate] | apply IH; [lia | exact Hs]]).
Qed.

Lemma dropByteOrderMark_plain s :
  Forall (fun c => c <> ESC) s -> Forall (fun c => c <> ESC) (dropByteOrderMark s).
Proof.
  destruct s as [|c s]; [constructor |]. simpl. intros Hs.
  destruct (c =? byteOrderMark); [| exact Hs].
  apply Forall_cons in Hs as [_ Hs]. exact Hs.
Qed.

Lemma decodeEncoded_plain s :
  Forall (fun c => c <> ESC) s -> Forall (fun c => c <> ESC) (decodeEncoded s).
Proof.
  intros Hs. apply dropByteOrderMark_plain.
  apply (toScalarValues_plain (length s)); [lia | exact Hs].
Qed.

Lemma decodeEncoded_app a b :
  (forall c, last a = Some c -> isHighSurrogate c = false) ->
  (a <> [] -> head b <> Some byteOrderMark) ->
  decodeEncoded (a ++ b) = decodeEncoded a ++ decodeEncoded b.
Proof.
  intros Hlast Hmark. unfold decodeEncoded.
  rewrite (toScalarValues_app (length a)) by (lia || exact Hlast).
  destruct a as [|x a]; [reflexivity |].
  assert (Hb : dropByteOrderMark (toScalarValues b) = toScalarValues b).
  { destruct (toScalarValues b) as [|y sb] eqn:Eb; [reflexivity |]. simpl.
    destruct (Z.eqb_spec y byteOrderMark) as [-> | _]; [| reflexivity].
    destruct (toScalarValues_head b byteOrderMark) as [Hrep | Hhead].
    - rewrite Eb. reflexivity.
    - discriminate.
    - exfalso. apply Hmark; [discriminate | exact Hhead]. }
  rewrite Hb.
  destruct (toScalarValues (x :: a)) as [|y sa] eqn:Ea.
  - apply toScalarValues_nil in Ea. discriminate.
  - simpl. destruct (y =? byteOrderMark); reflexivity.
Qed.

(** X7: for strings without ESC, one [write(a + b)] leaves the terminal as
    [write(a)] followed by [write(b)] does (or both raise), if the cut is
    not after the first half of a surrogate pair and [b] does not start
    with U+FEFF (each call decodes on its own: the encoder replaces a lone
    surrogate, the decoder drops a leading U+FEFF).  Stated for the output
    loop on the decoded text of each call. *)
Theorem plain_text_splits a b t :
  Forall (fun c => c <> ESC) a -> Forall (fun c => c <> ESC) b ->
  (forall c, last a = Some c -> isHighSurrogate c = false) ->
  (a <> [] -> head b <> Some byteOrderMark) ->
  processOutput (decodeEncoded (a ++ b)) t
  = (t' ← processOutput (decodeEncoded a) t; processOutput (decodeEncoded b) t').
Proof.
  intros Ha Hb Hlast Hmark.
  rewrite decodeEncoded_app by assumption.
  apply decodeEncoded_plain in Ha, Hb.
  rewrite (processOutput_plain (_ ++ _)) by (apply Forall_app; auto).
  rewrite forM_app, (processOutput_plain (decodeEncoded a)) by exact Ha.
  destruct (forM _ (decodeEncoded a) t) as [t1 | |]; simpl; try reflexivity.
  rewrite (processOutput_plain (decodeEncoded b)) by exact Hb. reflexivity.
Qed.

Lemma plain_text_splits_witness :
  processOutput (decodeEncoded ((byteOrderMark :: str "AB") ++ [CR; LF] ++ str "C"))
    constructor
  = (t' ← processOutput (decodeEncoded (byteOrderMark :: str "AB")) constructor;
     processOutput (decodeEncoded ([CR; LF] ++ str "C")) t').
Proof.
  apply (plain_text_splits (byteOrderMark :: str "AB") ([CR; LF] ++ str "C")
           constructor).
  - repeat constructor; discriminate.
  - repeat constructor; discriminate.
  - intros c Hc. injection Hc as <-. reflexivity.
  - intros _. discriminate.
Defined.

(** ** Scrolling moves the rows of the region and no others *)

Section ShiftLemmas.
Context {A : Type}.
Implicit Types (a : JsArray.t A).

Lemma get_shift_up (n : nat) : forall a top r,
  JsArray.get
    (foldl (fun a row => JsArray.put a row (JsArray.get a (row + 1))) a
       (seqZ top (Z.of_nat n))) r
  = if decide (top <= r < top + Z.of_nat n)
    then JsArray.get a (r + 1) else JsArray.get a r.
Proof.
  induction n as [|n IH]; intros a top r.
  - rewrite seqZ_nil by lia. simpl. rewrite decide_False by lia. reflexivity.
  - rewrite seqZ_S, foldl_app. simpl foldl. rewrite get_put, !IH.
    repeat case_decide; try reflexivity; try lia.
    subst r. reflexivity.
Qed.

Lemma get_shift_down (n : nat) : forall a top r,
  JsArray.get
    (foldl (fun a row => JsArray.put a row (JsArray.get a (row - 1))) a
       (List.rev (seqZ (top + 1) (Z.of_nat n)))) r
  = if decide (top + 1 <= r < top + 1 + Z.of_nat n)
    then JsArray.get a (r - 1) else JsArray.get a r.
Proof.
  induction n as [|n IH]; intros a top r.
  - rewrite seqZ_nil by lia. simpl. rewrite decide_False by lia. reflexivity.
  - rewrite seqZ_S, rev_app_distr. simpl rev. simpl foldl.
    rewrite IH, !get_put.
    repeat case_decide; try reflexivity; try lia; f_equal; lia.
Qed.

Lemma len_put_le a k v : JsArray.len a <= JsArray.len (JsArray.put a k v).
Proof. unfold JsArray.put. simpl. case_decide; lia. Qed.

Lemma len_foldl_put_le (f : JsArray.t A -> Z -> option A) (l : list Z) : forall a,
  JsArray.len a <= JsArray.len (foldl (fun a row => JsArray.put a row (f a row)) a l).
Proof.
  induction l as [|row l IH]; intros a; simpl; [lia |].
  etransitivity; [apply (len_put_le a row (f a row)) | apply IH].
Qed.
End ShiftLemmas.

Lemma scrollUp_rows t r :
  JsArray.get (screen (scrollUp t)) r
  = (if decide (r = regionBottom t)
     then Some (blankRow (ncols t) (attributes t))
     else if decide (regionTop t <= r < regionBottom t)
          then JsArray.get (screen t) (r + 1)
          else JsArray.get (screen t) r)
  /\ terminalState (scrollUp t) = terminalState t
  /\ attributes (scrollUp t) = attributes t
  /\ (Z.of_nat (length (scrollback t)) < maxScrollback (config t) ->
      scrollback (scrollUp t)
      = scrollback t ++ [JsArray.get (screen t) (regionTop t)]).
Proof.
  unfold scrollUp. cbv zeta. simpl.
  split; [| split; [reflexivity | split; [reflexivity |]]].
  - rewrite get_set.
    destruct (decide (regionBottom t = r)) as [<- | Hne].
    + rewrite decide_True by reflexivity. reflexivity.
    + rewrite decide_False by congruence.
      destruct (Z_le_gt_dec (regionBottom t - regionTop t) 0) as [Hn | Hn].
      * rewrite seqZ_nil by lia. simpl. rewrite decide_False by lia. reflexivity.
      * rewrite <- (Z2Nat.id (regionBottom t - regionTop t)) by lia.
        rewrite get_shift_up. rewrite Z2Nat.id by lia.
        repeat case_decide; try reflexivity; lia.
  - intros Hcap. rewrite decide_False by (rewrite length_app; simpl; lia).
    reflexivity.
Qed.

(** X8: [scrollUp] moves each row of the region one place up, puts a blank
    row in the current pen at the bottom of the region and leaves every
    row outside the region where it was; the cursor, the region and the
    pen do not change.  Below the capacity the scrollback grows by the old
    top row of the region. *)
Theorem scrollUp_moves_region_rows t r :
  JsArray.get (screen (scrollUp t)) r
  = (if decide (r = regionBottom t)
     then Some (blankRow (ncols t) (attributes t))
     else if decide (regionTop t <= r < regionBottom t)
          then JsArray.get (screen t) (r + 1)
          else JsArray.get (screen t) r)
  /\ terminalState (scrollUp t) = terminalState t
  /\ attributes (scrollUp t) = attributes t
  /\ (Z.of_nat (length (scrollback t)) < maxScrollback (config t) ->
      scrollback (scrollUp t)
      = scrollback t ++ [JsArray.get (screen t) (regionTop t)]).
Proof. apply scrollUp_rows. Qed.

(** X9: [scrollDown] moves each row of the region one place down, puts a
    blank row in the current pen at the top of the region and leaves every
    row outside the region where it was; the scrollback, the cursor, the
    region and the pen do not change. *)
Theorem scrollDown_moves_region_rows t r :
  JsArray.get (screen (scrollDown t)) r
  = (if decide (r = regionTop t)
     then Some (blankRow (ncols t) (attributes t))
     else if decide (regionTop t < r <= regionBottom t)
          then JsArray.get (screen t) (r - 1)
          else JsArray.get (screen t) r)
  /\ terminalState (scrollDown t) = terminalState t
  /\ attributes (scrollDown t) = attributes t
  /\ scrollback (scrollDown t) = scrollback t.
Proof.
  unfold scrollDown, clearRow. simpl.
  split; [| repeat split].
  rewrite get_set.
  destruct (decide (regionTop t = r)) as [<- | Hne].
  - rewrite decide_True by reflexivity. reflexivity.
  - rewrite decide_False by congruence.
    destruct (Z_le_gt_dec (regionBottom t - regionTop t) 0) as [Hn | Hn].
    + rewrite seqZ_nil by lia. simpl. rewrite decide_False by lia. reflexivity.
    + rewrite <- (Z2Nat.id (regionBottom t - regionTop t)) by lia.
      rewrite get_shift_down. rewrite Z2Nat.id by lia.
      repeat case_decide; try reflexivity; lia.
Qed.

(** ** Screen text *)

Lemma getScreenText_loop (t : Term) (n : nat) : forall from acc,
  nrows t - from = Z.of_nat n ->
  foldl (fun text row =>
           let text := text ++ trimEnd (lineText t row 0 (ncols t)) in
           if decide (row < nrows t - 1) then text ++ [LF] else text)
        acc (seqZ from (nrows t - from))
  = acc ++ joinLines (map (fun row => trimEnd (lineText t row 0 (ncols t)))
                          (seqZ from (nrows t - from))).
Proof.
  induction n as [|n IH]; intros from acc Hn.
  - rewrite seqZ_nil by lia. simpl. rewrite app_nil_r. reflexivity.
  - rewrite seqZ_cons by lia.
    replace (Z.pred (nrows t - from)) with (nrows t - Z.succ from) by lia.
    simpl foldl. simpl map.
    rewrite IH by lia.
    destruct (decide (from < nrows t - 1)) as [Hlt | Hge].
    + rewrite (seqZ_cons (Z.succ from)) by lia. simpl map. simpl joinLines.
      rewrite <- !app_assoc. reflexivity.
    + rewrite seqZ_nil by lia. simpl. rewrite app_nil_r. reflexivity.
Qed.

Lemma getScreenText_joined t :
  getScreenText t
  = joinLines (map (fun row => trimEnd (lineText t row 0 (ncols t)))
                   (seqZ 0 (nrows t))).
Proof.
  unfold getScreenText.
  destruct (Z_le_gt_dec (nrows t) 0) as [Hn | Hn].
  - rewrite seqZ_nil by lia. reflexivity.
  - pose proof (getScreenText_loop t (Z.to_nat (nrows t)) 0 []) as H.
    rewrite Z.sub_0_r in H. apply H. lia.
Qed.

Lemma lineText_cells (t : Term) (row : Z) (r : Row) (c : Z) (l : list Z) :
  JsArray.get (screen t) row = Some r ->
  (forall col, col ∈ l -> exists cell, JsArray.get r col = Some cell /\ char cell = c) ->
  forall acc,
    foldl (fun acc col =>
             match JsArray.get (screen t) row with
             | Some r => match JsArray.get r col with
                         | Some cell => acc ++ [char cell]
                         | None => acc
                         end
             | None => acc
             end) acc l
    = acc ++ replicate (length l) c.
Proof.
  intros Hrow. set (f := fun (acc : Text) (col : Z) => _).
  induction l as [|col l IH]; intros Hcells acc; simpl.
  - rewrite app_nil_r. reflexivity.
  - destruct (Hcells col) as (cell & Hcell & Hchar); [left |].
    assert (Hf : f acc col = acc ++ [c])
      by (subst f; simpl; rewrite Hrow, Hcell, Hchar; reflexivity).
    rewrite Hf, IH by (intros; apply Hcells; right; assumption).
    rewrite <- app_assoc. reflexivity.
Qed.

Lemma lineText_blankRow t row n a :
  JsArray.get (screen t) row = Some (blankRow n a) ->
  lineText t row 0 n = replicate (Z.to_nat n) 32.
Proof.
  intros Hrow. unfold lineText.
  rewrite (lineText_cells t row (blankRow n a) 32 _ Hrow).
  - rewrite length_seqZ, Z.sub_0_r. reflexivity.
  - intros col Hcol. apply elem_of_seqZ in Hcol.
    exists (blankCell a). rewrite get_blankRow, decide_True by lia. auto.
Qed.

Lemma trimStart_white s : forallb isWhiteSpace s = true -> trimStart s = [].
Proof.
  induction s as [|c s IH]; simpl; [reflexivity |].
  intros H. apply andb_true_iff in H as [Hc Hs]. rewrite Hc. auto.
Qed.

Lemma trimEnd_blanks n : trimEnd (replicate n 32) = [].
Proof.
  unfold trimEnd. rewrite trimStart_white; [reflexivity |].
  apply forallb_forall. intros c Hc. apply in_rev in Hc.
  apply list_elem_of_In, elem_of_replicate in Hc as [-> _]. reflexivity.
Qed.

Lemma joinLines_empty n : joinLines (replicate n []) = replicate (n - 1) LF.
Proof.
  induction n as [|n IH]; [reflexivity |].
  destruct n as [|n]; [reflexivity |].
  change (joinLines (replicate (S (S n)) []))
    with ([] ++ LF :: joinLines (replicate (S n) [])).
  rewrite IH. simpl. rewrite Nat.sub_0_r. reflexivity.
Qed.

(** X11: [clear()] leaves a screen whose text is empty rows only
    ([rows - 1] newlines), puts the cursor at (0,0), and keeps the
    scrollback, the pen, the size and the scroll region. *)
Theorem clear_blanks_screen t :
  getScreenText (clear t) = replicate (Z.to_nat (nrows t) - 1) LF
  /\ curX (clear t) = 0 /\ curY (clear t) = 0
  /\ scrollback (clear t) = scrollback t
  /\ attributes (clear t) = attributes t
  /\ nrows (clear t) = nrows t /\ ncols (clear t) = ncols t
  /\ regionTop (clear t) = regionTop t
  /\ regionBottom (clear t) = regionBottom t.
Proof.
  unfold clear. rewrite initializeScreen_unfold.
  split; [| repeat split].
  match goal with
  | |- getScreenText ?u = _ => set (t' := u)
  end.
  assert (Hr : nrows t' = nrows t) by reflexivity.
  assert (Hc : ncols t' = ncols t) by reflexivity.
  assert (Hrow : forall row, 0 <= row < nrows t ->
                 JsArray.get (screen t') row
                 = Some (blankRow (ncols t) (attributes t))).
  { intros row Hin. subst t'. simpl. rewrite get_foldl_set.
    rewrite decide_True by (apply elem_of_seqZ; lia). reflexivity. }
  clearbody t'.
  rewrite getScreenText_joined, Hr, Hc.
  assert (Hmap : map (fun row => trimEnd (lineText t' row 0 (ncols t)))
                     (seqZ 0 (nrows t))
                 = replicate (Z.to_nat (nrows t)) []).
  { apply list_eq. intros i.
    rewrite list_lookup_fmap.
    destruct (decide (i < Z.to_nat (nrows t))%nat) as [Hi | Hi].
    - rewrite lookup_seqZ_lt by lia. rewrite lookup_replicate_2 by lia. simpl.
      f_equal. rewrite (lineText_blankRow _ _ _ (attributes t)).
      + apply trimEnd_blanks.
      + apply Hrow. lia.
    - rewrite lookup_seqZ_ge by lia. simpl.
      symmetry. apply lookup_replicate_None. lia. }
  rewrite Hmap. apply joinLines_empty.
Qed.

(** ** Tabs *)

(** X12: with a positive tab size and the cursor at a column [x >= 0],
    [tab] keeps the row; from a column before the last one the cursor
    moves right, by at most the tab size, to the next multiple of the tab
    size or to the last column, whichever comes first; from the last
    column or beyond it goes to the last column. *)
Theorem tab_next_stop t :
  0 < tabSize (config t) -> 0 <= curX t ->
  curY (tab t) = curY t
  /\ (curX t < ncols t - 1 ->
      curX t < curX (tab t) <= ncols t - 1
      /\ curX (tab t) <= curX t + tabSize (config t)
      /\ (curX (tab t) mod tabSize (config t) = 0
          \/ curX (tab t) = ncols t - 1))
  /\ (ncols t - 1 <= curX t -> curX (tab t) = ncols t - 1).
Proof.
  intros Hts Hx. unfold tab. cbv zeta. unfold curX, curY, ncols. simpl.
  set (ts := tabSize (config t)) in *. set (x := cursorX (terminalState t)) in *.
  pose proof (Z.mul_div_le (x + ts) ts Hts) as Hle.
  pose proof (Z.mul_succ_div_gt (x + ts) ts Hts) as Hgt.
  assert (Hmod : ((x + ts) / ts * ts) mod ts = 0) by apply Z.mod_mul, Z.neq_sym, Z.lt_neq, Hts.
  set (q := (x + ts) / ts) in *.
  assert (Hstop : x < q * ts <= x + ts) by lia.
  split; [reflexivity |]. split.
  - intros Hlt. split; [lia |]. split; [lia |].
    destruct (Z.min_spec (q * ts) (cols (terminalState t) - 1)) as [[_ ->] | [_ ->]];
      auto.
  - intros Hge. lia.
Qed.

Lemma tab_next_stop_witness :
  curY (tab twoLineTerm) = curY twoLineTerm
  /\ (curX twoLineTerm < ncols twoLineTerm - 1 ->
      curX twoLineTerm < curX (tab twoLineTerm) <= ncols twoLineTerm - 1
      /\ curX (tab twoLineTerm) <= curX twoLineTerm + tabSize (config twoLineTerm)
      /\ (curX (tab twoLineTerm) mod tabSize (config twoLineTerm) = 0
          \/ curX (tab twoLineTerm) = ncols twoLineTerm - 1))
  /\ (ncols twoLineTerm - 1 <= curX twoLineTerm ->
      curX (tab twoLineTerm) = ncols twoLineTerm - 1).
Proof.
  apply (tab_next_stop twoLineTerm).
  - vm_compute. reflexivity.
  - vm_compute. discriminate.
Defined.

(** ** Printable text *)

Lemma cellAt_set_cell t row r col cell row' col' :
  JsArray.get (screen t) row = Some r ->
  cellAt (set_screen (JsArray.set (screen t) row (JsArray.set r col cell)) t) row' col'
  = if decide (row' = row /\ col' = col) then Some cell else cellAt t row' col'.
Proof.
  intros Hrow. unfold cellAt. simpl. rewrite get_set.
  destruct (decide (row = row')) as [<- | Hne].
  - rewrite get_set, Hrow.
    destruct (decide (col = col')) as [<- | Hc].
    + rewrite decide_True by auto. reflexivity.
    + rewrite decide_False by (intros [_ ?]; congruence). reflexivity.
  - rewrite decide_False by (intros [? _]; congruence). reflexivity.
Qed.

Lemma processPlainChar_printable c t :
  32 <= c -> processPlainChar c t = insertCharacter c t.
Proof.
  intros Hc. unfold processPlainChar, CR, LF, TAB, BS.
  repeat (match goal with
          | |- context [?a =? ?b] => destruct (Z.eqb_spec a b); [lia |]
          end).
  destruct (Z.geb_spec c 32); [reflexivity | lia].
Qed.

(** Printable characters that fit on the row of the cursor. *)
Lemma insert_run s : forall t r,
  Forall (fun c => 32 <= c) s ->
  0 <= curX t -> curX t + Z.of_nat (length s) <= ncols t ->
  JsArray.get (screen t) (curY t) = Some r ->
  exists t',
    forM (fun t c => processPlainChar c t) s t = Ok t'
    /\ curX t' = curX t + Z.of_nat (length s) /\ curY t' = curY t
    /\ penOf t' = penOf t /\ scrollback t' = scrollback t
    /\ frameOf t' = frameOf t
    /\ regionTop t' = regionTop t /\ regionBottom t' = regionBottom t
    /\ forall row col,
         cellAt t' row col
         = if decide (row = curY t /\ curX t <= col < curX t + Z.of_nat (length s))
           then (fun c => {| char := c; cellAttributes := attributes t |})
                  <$> s !! Z.to_nat (col - curX t)
           else cellAt t row col.
Proof.
  induction s as [|c s IH]; intros t r Hprint Hx Hfit Hrow.
  - exists t. simpl. repeat split; try lia.
    intros row col. rewrite decide_False by lia. reflexivity.
  - apply Forall_cons in Hprint as [Hc Hprint]. simpl length in Hfit.
    change (forM ?f (c :: s) t) with (t1 ← f t c; forM f s t1).
    cbv beta. rewrite processPlainChar_printable by exact Hc.
    unfold insertCharacter. rewrite decide_False by lia. rewrite Hrow.
    simpl mbind.
    match goal with
    | |- context [forM _ s ?u] => set (t1 := u)
    end.
    assert (Hx1 : curX t1 = curX t + 1) by reflexivity.
    assert (Hy1 : curY t1 = curY t) by reflexivity.
    assert (Hc1 : ncols t1 = ncols t) by reflexivity.
    assert (Hrow1 : JsArray.get (screen t1) (curY t1)
                    = Some (JsArray.set r (curX t)
                              {| char := c; cellAttributes := attributes t |})).
    { subst t1. simpl. rewrite get_set, decide_True by reflexivity. reflexivity. }
    assert (Hcell1 : forall row col,
               cellAt t1 row col
               = if decide (row = curY t /\ col = curX t)
                 then Some {| char := c; cellAttributes := attributes t |}
                 else cellAt t row col).
    { intros row col. subst t1.
      change (cellAt (with_state ?f ?u) row col) with (cellAt u row col).
      apply cellAt_set_cell, Hrow. }
    assert (Hrest : penOf t1 = penOf t /\ scrollback t1 = scrollback t
                    /\ frameOf t1 = frameOf t
                    /\ regionTop t1 = regionTop t /\ regionBottom t1 = regionBottom t)
      by (repeat split).
    destruct Hrest as (Hpen1 & Hsb1 & Hfr1 & Htop1 & Hbot1).
    clearbody t1.
    destruct (IH t1 _ Hprint ltac:(lia) ltac:(lia) Hrow1)
      as (t' & Hrun & Hx' & Hy' & Hpen' & Hsb' & Hfr' & Htop' & Hbot' & Hcells).
    exists t'. split; [exact Hrun |].
    split; [simpl length; lia |]. split; [congruence |].
    split; [congruence |]. split; [congruence |]. split; [congruence |].
    split; [congruence |]. split; [congruence |].
    intros row col. rewrite Hcells, Hcell1, Hy1, Hx1.
    assert (Hattr : attributes t1 = attributes t)
      by (unfold penOf in Hpen1; congruence).
    rewrite Hattr. simpl length.
    destruct (decide (row = curY t /\ col = curX t)) as [[-> ->] | Hhere].
    + rewrite decide_False by lia. rewrite decide_True by lia.
      rewrite Z.sub_diag. reflexivity.
    + destruct (decide (row = curY t /\ curX t + 1 <= col < curX t + 1 + Z.of_nat (length s)))
        as [[-> Hcol] | Hout].
      * rewrite decide_True by lia.
        replace (Z.to_nat (col - curX t)) with (S (Z.to_nat (col - (curX t + 1)))) by lia.
        reflexivity.
      * rewrite decide_False by lia. reflexivity.
Qed.

Lemma toScalarValues_below s :
  Forall (fun c => c < 55296) s -> toScalarValues s = s.
Proof.
  induction s as [|c s IH]; intros Hs; [reflexivity |].
  apply Forall_cons in Hs as [Hc Hs]. rewrite toScalarValues_cons.
  unfold isHighSurrogate, isLowSurrogate.
  rewrite (proj2 (Z.leb_gt 55296 c)) by lia.
  rewrite (proj2 (Z.leb_gt 56320 c)) by lia.
  simpl. rewrite IH by exact Hs. reflexivity.
Qed.

(** A string below the surrogates is decoded to itself. *)
Lemma decodeEncoded_below s :
  Forall (fun c => c < 55296) s -> decodeEncoded s = s.
Proof.
  intros Hs. unfold decodeEncoded. rewrite toScalarValues_below by exact Hs.
  destruct s as [|c s]; [reflexivity |].
  apply Forall_cons in Hs as [Hc _]. simpl.
  destruct (Z.eqb_spec c byteOrderMark) as [-> | _]; [| reflexivity].
  unfold byteOrderMark in Hc. lia.
Qed.

(** X13: a string of printable characters below the surrogates (codes 32
    to 0xD7FF) that fits between the cursor and the end of its row, written
    with the cursor on an existing row, does not raise; it puts its
    characters, with the current pen, in the consecutive cells from the
    cursor on, advances the column by the length of the string, and
    changes no other cell of the screen, nor the row of the cursor, the
    number of scrollback rows, the pen or the scroll region. *)
Theorem printable_text_fills_cells s t r :
  Forall (fun c => 32 <= c < 55296) s ->
  0 <= curX t -> curX t + Z.of_nat (length s) <= ncols t ->
  JsArray.get (screen t) (curY t) = Some r ->
  exists t',
    processOutput (decodeEncoded s) t = Ok t'
    /\ curX t' = curX t + Z.of_nat (length s) /\ curY t' = curY t
    /\ attributes t' = attributes t
    /\ length (scrollback t') = length (scrollback t)
    /\ regionTop t' = regionTop t /\ regionBottom t' = regionBottom t
    /\ forall row col,
         cellAt t' row col
         = if decide (row = curY t /\ curX t <= col < curX t + Z.of_nat (length s))
           then (fun c => {| char := c; cellAttributes := attributes t |})
                  <$> s !! Z.to_nat (col - curX t)
           else cellAt t row col.
Proof.
  intros Hrange Hx Hfit Hrow.
  assert (Hprint : Forall (fun c => 32 <= c) s)
    by (eapply Forall_impl; [exact Hrange |]; intros c Hc; cbv beta in *; lia).
  rewrite decodeEncoded_below
    by (eapply Forall_impl; [exact Hrange |]; intros c Hc; cbv beta in *; lia).
  destruct (insert_run s t r Hprint Hx Hfit Hrow)
    as (t' & Hrun & Hx' & Hy' & Hpen & Hsb & _ & Htop & Hbot & Hcells).
  exists t'. rewrite processOutput_plain.
  - unfold penOf in Hpen. repeat split; try assumption; congruence.
  - eapply Forall_impl; [exact Hprint |]. intros c Hc. cbv beta in *.
    unfold ESC. lia.
Qed.

Lemma printable_text_fills_cells_witness :
  exists t',
    processOutput (decodeEncoded (str "hello")) twoLineTerm = Ok t'
    /\ curX t' = curX twoLineTerm + Z.of_nat (length (str "hello"))
    /\ curY t' = curY twoLineTerm
    /\ attributes t' = attributes twoLineTerm
    /\ length (scrollback t') = length (scrollback twoLineTerm)
    /\ regionTop t' = regionTop twoLineTerm
    /\ regionBottom t' = regionBottom twoLineTerm
    /\ forall row col,
         cellAt t' row col
         = if decide (row = curY twoLineTerm
                      /\ curX twoLineTerm <= col
                         < curX twoLineTerm + Z.of_nat (length (str "hello")))
           then (fun c => {| char := c; cellAttributes := attributes twoLineTerm |})
                  <$> str "hello" !! Z.to_nat (col - curX twoLineTerm)
           else cellAt twoLineTerm row col.
Proof.
  apply (printable_text_fills_cells (str "hello") twoLineTerm
           (okOr_row twoLineTerm 1)).
  - repeat constructor; vm_compute; discriminate.
  - vm_compute. discriminate.
  - vm_compute. discriminate.
  - vm_compute. reflexivity.
Defined.

(** ** Reading back what was written *)

Lemma lineText_cellAt t row (l : list Z) : forall acc,
  foldl (fun acc col =>
           match JsArray.get (screen t) row with
           | Some r => match JsArray.get r col with
                       | Some cell => acc ++ [char cell]
                       | None => acc
                       end
           | None => acc
           end) acc l
  = acc ++ (char <$> omap (cellAt t row) l).
Proof.
  induction l as [|col l IH]; intros acc.
  - simpl. rewrite app_nil_r. reflexivity.
  - change (omap (cellAt t row) (col :: l))
      with (match cellAt t row col with
            | Some z => z :: omap (cellAt t row) l
            | None => omap (cellAt t row) l
            end).
    simpl foldl. rewrite IH. unfold cellAt.
    destruct (JsArray.get (screen t) row) as [r |]; [| reflexivity].
    destruct (JsArray.get r col); [| reflexivity].
    simpl. rewrite <- app_assoc. reflexivity.
Qed.

Lemma omap_all_some {A B} (f : A -> option B) (l : list A) (k : list B) :
  Forall2 (fun x y => f x = Some y) l k -> omap f l = k.
Proof.
  induction 1 as [|x y l k Hxy _ IH]; [reflexivity |].
  change (omap f (x :: l))
    with (match f x with Some z => z :: omap f l | None => omap f l end).
  rewrite Hxy, IH. reflexivity.
Qed.

Lemma trimStart_app_white w s :
  forallb isWhiteSpace w = true -> trimStart (w ++ s) = trimStart s.
Proof.
  induction w as [|c w IH]; simpl; [reflexivity |].
  intros H. apply andb_true_iff in H as [Hc Hw]. rewrite Hc. auto.
Qed.

Lemma trimEnd_app_blanks s n : trimEnd (s ++ replicate n 32) = trimEnd s.
Proof.
  unfold trimEnd. rewrite rev_app_distr, trimStart_app_white; [reflexivity |].
  rewrite forallb_rev. apply forallb_forall. intros c Hc.
  apply list_elem_of_In, elem_of_replicate in Hc as [-> _]. reflexivity.
Qed.

Lemma joinLines_first_then_empty x n :
  joinLines (x :: replicate n []) = x ++ replicate n LF.
Proof.
  revert x. induction n as [|n IH]; intros x.
  - simpl. rewrite app_nil_r. reflexivity.
  - change (joinLines (x :: replicate (S n) []))
      with (x ++ LF :: joinLines ([] :: replicate n [])).
    rewrite (IH []). reflexivity.
Qed.

(** X10: what was written reads back.  On a terminal with at least one
    row, after [clear()] a string of printable characters below the
    surrogates that fits on one row is written without raising, and
    [getScreenText] then returns the string without its trailing white
    space, followed by one newline for each further row: the row is read
    over its columns, the padding blanks are stripped, and the rows below
    are empty. *)
Theorem written_line_reads_back s t :
  Forall (fun c => 32 <= c < 55296) s ->
  1 <= nrows t -> Z.of_nat (length s) <= ncols t ->
  exists t',
    processOutput (decodeEncoded s) (clear t) = Ok t'
    /\ getScreenText t'
       = trimEnd s ++ replicate (Z.to_nat (nrows t) - 1) LF.
Proof.
  intros Hrange Hrows Hfit.
  assert (Hprint : Forall (fun c => 32 <= c) s)
    by (eapply Forall_impl; [exact Hrange |]; intros c Hc; cbv beta in *; lia).
  rewrite decodeEncoded_below
    by (eapply Forall_impl; [exact Hrange |]; intros c Hc; cbv beta in *; lia).
  rewrite processOutput_plain
    by (eapply Forall_impl; [exact Hprint |]; intros c Hc; cbv beta in *;
        unfold ESC; lia).
  set (a := attributes t).
  assert (Hblank : forall row, 0 <= row < nrows t ->
            JsArray.get (screen (clear t)) row = Some (blankRow (ncols t) a)).
  { intros row Hin. unfold clear. rewrite initializeScreen_unfold. simpl.
    rewrite get_foldl_set.
    rewrite decide_True by (apply elem_of_seqZ; lia). reflexivity. }
  assert (Hx0 : curX (clear t) = 0) by reflexivity.
  assert (Hy0 : curY (clear t) = 0) by reflexivity.
  assert (Hc0 : ncols (clear t) = ncols t)
    by (unfold clear; rewrite initializeScreen_unfold; reflexivity).
  assert (Hr0 : nrows (clear t) = nrows t)
    by (unfold clear; rewrite initializeScreen_unfold; reflexivity).
  assert (Ha0 : attributes (clear t) = a)
    by (unfold clear; rewrite initializeScreen_unfold; reflexivity).
  set (t0 := clear t) in *. clearbody t0.
  destruct (insert_run s t0 (blankRow (ncols t) a) Hprint)
    as (t' & Hrun & _ & _ & _ & _ & Hfr & _ & _ & Hcells).
  { lia. }
  { lia. }
  { rewrite Hy0. apply Hblank. lia. }
  exists t'. split; [exact Hrun |].
  unfold frameOf in Hfr.
  assert (Hr' : nrows t' = nrows t) by congruence.
  assert (Hc' : ncols t' = ncols t) by congruence.
  rewrite Hx0, Hy0, Ha0 in Hcells.
  assert (Hcell0 : forall row col, 0 <= row < nrows t -> 0 <= col < ncols t ->
            cellAt t0 row col = Some (blankCell a)).
  { intros row col Hrow Hcol. unfold cellAt. rewrite Hblank by exact Hrow.
    rewrite get_blankRow, decide_True by lia. reflexivity. }
  clear Hrun Hfr.
  rewrite getScreenText_joined, Hr', Hc'.
  unfold lineText. 
  assert (Hline : forall row, 0 <= row < nrows t ->
            foldl (fun acc col =>
                     match JsArray.get (screen t') row with
                     | Some r => match JsArray.get r col with
                                 | Some cell => acc ++ [char cell]
                                 | None => acc
                                 end
                     | None => acc
                     end) [] (seqZ 0 (ncols t - 0))
            = (if decide (row = 0) then s else [])
              ++ replicate (Z.to_nat (ncols t)
                            - (if decide (row = 0%Z) then length s else 0))%nat 32).
  { intros row Hrow. rewrite lineText_cellAt. simpl app. rewrite Z.sub_0_r.
    set (k := (Z.to_nat (ncols t)
               - (if decide (row = 0%Z) then length s else 0))%nat).
    rewrite (omap_all_some _ _
               (((fun c => {| char := c; cellAttributes := a |})
                   <$> (if decide (row = 0) then s else []))
                ++ replicate k (blankCell a))).
    - rewrite fmap_app, <- list_fmap_compose, fmap_replicate.
      f_equal. apply list_fmap_id.
    - apply Forall2_same_length_lookup_2.
      + rewrite length_seqZ, length_app, length_fmap, length_replicate.
        subst k. destruct (decide (row = 0)); simpl; lia.
      + intros i col cell Hi Hcell.
        apply lookup_seqZ in Hi as [-> Hi].
        rewrite Hcells.
        destruct (decide (row = 0)) as [-> | Hne].
        * destruct (decide (i < length s)%nat) as [Hlt | Hge].
          -- rewrite decide_True by lia.
             rewrite lookup_app_l in Hcell by (rewrite length_fmap; lia).
             rewrite list_lookup_fmap in Hcell.
             replace (Z.to_nat (0 + Z.of_nat i - 0)) with i by lia.
             exact Hcell.
          -- rewrite decide_False by lia.
             rewrite lookup_app_r in Hcell by (rewrite length_fmap; lia).
             apply lookup_replicate in Hcell as [-> _].
             apply Hcell0; lia.
        * rewrite decide_False by lia.
          simpl in Hcell. apply lookup_replicate in Hcell as [-> _].
          apply Hcell0; lia. }
  rewrite (seqZ_cons 0 (nrows t)) by lia. simpl map.
  rewrite Hline by lia. rewrite decide_True by reflexivity.
  rewrite trimEnd_app_blanks.
  assert (Hrest : map (fun row =>
                         trimEnd
                           (foldl (fun acc col =>
                                     match JsArray.get (screen t') row with
                                     | Some r => match JsArray.get r col with
                                                 | Some cell => acc ++ [char cell]
                                                 | None => acc
                                                 end
                                     | None => acc
                                     end) [] (seqZ 0 (ncols t - 0))))
                      (seqZ (Z.succ 0) (Z.pred (nrows t)))
                  = replicate (Z.to_nat (nrows t) - 1) []).
  { apply list_eq. intros i. rewrite list_lookup_fmap.
    destruct (decide (i < Z.to_nat (nrows t) - 1)%nat) as [Hi | Hi].
    - rewrite lookup_seqZ_lt by lia. rewrite lookup_replicate_2 by lia. simpl.
      f_equal. rewrite Hline by lia. rewrite decide_False by lia.
      simpl app. apply trimEnd_blanks.
    - rewrite lookup_seqZ_ge by lia. simpl.
      symmetry. apply lookup_replicate_None. lia. }
  rewrite Hrest. apply joinLines_first_then_empty.
Qed.

Lemma written_line_reads_back_witness :
  exists t',
    processOutput (decodeEncoded (str "ls -l  ")) (clear twoLineTerm) = Ok t'
    /\ getScreenText t'
       = trimEnd (str "ls -l  ") ++ replicate (Z.to_nat (nrows twoLineTerm) - 1) LF.
Proof.
  apply (written_line_reads_back (str "ls -l  ") twoLineTerm).
  - repeat constructor; vm_compute; discriminate.
  - vm_compute. discriminate.
  - vm_compute. discriminate.
Defined.

(** ** Resize *)

Section SliceLemmas.
Context {A : Type}.
Implicit Types (a : JsArray.t A).

Lemma get_slice0 a e k :
  JsArray.get (JsArray.slice0 a e) k
  = if decide (0 <= k < JsArray.len (JsArray.slice0 a e))
    then JsArray.get a k else None.
Proof.
  unfold JsArray.get, JsArray.slice0. simpl.
  rewrite map_lookup_filter.
  destruct (JsArray.elems a !! k) as [x |]; simpl.
  - case_guard as Hg; simpl in Hg; case_decide as Hd; simpl in *;
      try reflexivity; exfalso; auto.
  - case_decide; reflexivity.
Qed.

Lemma len_slice0 a e :
  0 <= e -> JsArray.len (JsArray.slice0 a e) = Z.min e (JsArray.len a).
Proof. intros He. unfold JsArray.slice0. simpl. rewrite decide_False by lia. reflexivity. Qed.

Lemma len_foldl_set_le x (l : list Z) : forall a,
  JsArray.len a <= JsArray.len (foldl (fun a k => JsArray.set a k x) a l).
Proof.
  induction l as [|k l IH]; intros a; simpl; [lia |].
  etransitivity; [| apply IH]. unfold JsArray.set. apply len_put_le.
Qed.
End SliceLemmas.

Lemma set_rows_fold n (l : list Z) : forall t,
  foldl (fun t row =>
           set_screen (JsArray.set (screen t) row (blankRow n (attributes t))) t) t l
  = set_screen
      (foldl (fun sc row => JsArray.set sc row (blankRow n (attributes t)))
             (screen t) l) t.
Proof.
  induction l as [|row l IH]; intros t; simpl.
  - destruct t; reflexivity.
  - rewrite IH. reflexivity.
Qed.

Lemma push_rows_fold (l : list Z) : forall t,
  foldl (fun t row =>
           match JsArray.get (screen t) row with
           | Some r => set_scrollback (scrollback t ++ [Some r]) t
           | None => t
           end) t l
  = set_scrollback
      (scrollback t ++ map Some (omap (JsArray.get (screen t)) l)) t.
Proof.
  induction l as [|row l IH]; intros t; simpl.
  - rewrite app_nil_r. destruct t; reflexivity.
  - rewrite IH.
    destruct (JsArray.get (screen t) row) as [r |] eqn:E; simpl.
    + rewrite <- app_assoc. reflexivity.
    + reflexivity.
Qed.

(** The column loop of [resize], when it changes the rows at all: each
    row of [l] is replaced by [g] of itself, and a missing row raises. *)
Lemma adjust_rows_fold (g : Attributes -> Row -> Row)
    (body : Term -> Z -> result Term) (l : list Z) :
  (forall t row,
     body t row = match JsArray.get (screen t) row with
                  | None => Throw TypeError
                  | Some r =>
                      Ok (set_screen (JsArray.set (screen t) row
                                        (g (attributes t) r)) t)
                  end) ->
  NoDup l ->
  forall t,
    (forall row, row ∈ l -> is_Some (JsArray.get (screen t) row)) ->
    exists sc,
      forM body l t = Ok (set_screen sc t)
      /\ (forall row,
            JsArray.get sc row
            = if decide (row ∈ l)
              then g (attributes t) <$> JsArray.get (screen t) row
              else JsArray.get (screen t) row)
      /\ JsArray.len (screen t) <= JsArray.len sc.
Proof.
  intros Hbody. induction l as [|row l IH]; intros Hnd t Hrows.
  - exists (screen t). split; [simpl; destruct t; reflexivity |].
    split; [| lia]. intros row.
    destruct (decide (row ∈ [])) as [Hin | _]; [inversion Hin | reflexivity].
  - apply NoDup_cons in Hnd as [Hnotin Hnd].
    destruct (Hrows row) as [r Hr]; [left |].
    simpl forM. rewrite Hbody, Hr. simpl mbind.
    set (t1 := set_screen _ t).
    destruct (IH Hnd t1) as (sc & Hrun & Hget & Hlen).
    { intros row' Hin. subst t1. simpl. rewrite get_set.
      rewrite decide_False by (intros ->; contradiction).
      apply Hrows. right. exact Hin. }
    exists sc. split; [rewrite Hrun; reflexivity |]. split.
    + intros row'. rewrite Hget. subst t1. simpl. rewrite get_set.
      destruct (decide (row' ∈ l)) as [Hin | Hout].
      * rewrite decide_False by (intros ->; contradiction).
        rewrite decide_True by (right; exact Hin). reflexivity.
      * destruct (decide (row = row')) as [<- | Hne].
        -- rewrite decide_True by left. rewrite Hr. reflexivity.
        -- rewrite decide_False; [reflexivity |].
           intros Hin. apply elem_of_cons in Hin as [-> | Hin]; auto.
    + etransitivity; [| exact Hlen].
      exact (len_put_le (screen t) row (Some (g (attributes t) r))).
Qed.

Lemma forM_ext {B} (f g : Term -> B -> result Term) (l : list B) :
  (forall t b, f t b = g t b) -> forall t, forM f l t = forM g l t.
Proof.
  intros Hfg. induction l as [|b l IH]; intros t; simpl; [reflexivity |].
  rewrite Hfg. destruct (g t b); simpl; auto.
Qed.

Lemma len_fillBlank r from to a :
  0 <= from -> from < to ->
  JsArray.len (fillBlank r from to a) = Z.max (JsArray.len r) to.
Proof.
  intros Hfrom Hlt. unfold fillBlank.
  rewrite <- (Z2Nat.id (to - from)) by lia.
  rewrite len_foldl_set_seqZ by lia.
  destruct (Z.to_nat (to - from)) eqn:E; lia.
Qed.

(** The column loop of [resize] over rows that exist with [oldCols]
    cells: every such row ends with exactly [cols] cells, the old cells in
    the columns both widths share and blanks in the new columns. *)
Lemma resize_column_loop (oldCols cols : Z) (l : list Z) (t : Term) :
  NoDup l -> 0 <= oldCols -> 0 <= cols ->
  (forall row, row ∈ l ->
     exists r, JsArray.get (screen t) row = Some r /\ JsArray.len r = oldCols) ->
  exists sc,
    forM (fun t row =>
            if decide (cols > oldCols) then eraseCells row oldCols cols t
            else if decide (cols < oldCols) then
              match JsArray.get (screen t) row with
              | None => Throw TypeError
              | Some r =>
                  Ok (set_screen (JsArray.set (screen t) row
                                    (JsArray.slice0 r cols)) t)
              end
            else Ok t) l t
    = Ok (set_screen sc t)
    /\ (forall row, row ∉ l -> JsArray.get sc row = JsArray.get (screen t) row)
    /\ (forall row, row ∈ l ->
          exists r r',
            JsArray.get (screen t) row = Some r /\ JsArray.get sc row = Some r'
            /\ JsArray.len r' = cols
            /\ forall col, 0 <= col < cols ->
                 JsArray.get r' col
                 = if decide (col < oldCols) then JsArray.get r col
                   else Some (blankCell (attributes t)))
    /\ JsArray.len (screen t) <= JsArray.len sc.
Proof.
  intros Hnd Hold Hcols Hrows.
  assert (Hsome : forall row, row ∈ l -> is_Some (JsArray.get (screen t) row)).
  { intros row Hin. destruct (Hrows row Hin) as (r & -> & _). eauto. }
  destruct (decide (cols > oldCols)) as [Hgt | Hle];
    [| destruct (decide (cols < oldCols)) as [Hlt | Heq]].
  - destruct (adjust_rows_fold (fun a r => fillBlank r oldCols cols a)
                (fun t row => eraseCells row oldCols cols t) l)
      with (t := t) as (sc & Hrun & Hget & Hlen); try assumption.
    { intros u row. unfold eraseCells. rewrite decide_True by lia. reflexivity. }
    exists sc. split; [exact Hrun |]. split; [| split; [| exact Hlen]].
    + intros row Hout. rewrite Hget, decide_False by exact Hout. reflexivity.
    + intros row Hin. destruct (Hrows row Hin) as (r & Hr & Hlr).
      exists r, (fillBlank r oldCols cols (attributes t)).
      rewrite Hget, decide_True, Hr by exact Hin.
      split; [reflexivity |]. split; [reflexivity |]. split.
      * rewrite len_fillBlank by lia. lia.
      * intros col Hcol. rewrite get_fillBlank.
        repeat case_decide; try reflexivity; lia.
  - destruct (adjust_rows_fold (fun _ r => JsArray.slice0 r cols)
                (fun t row =>
                   match JsArray.get (screen t) row with
                   | None => Throw TypeError
                   | Some r =>
                       Ok (set_screen (JsArray.set (screen t) row
                                         (JsArray.slice0 r cols)) t)
                   end) l)
      with (t := t) as (sc & Hrun & Hget & Hlen); try assumption.
    { reflexivity. }
    exists sc. split; [exact Hrun |]. split; [| split; [| exact Hlen]].
    + intros row Hout. rewrite Hget, decide_False by exact Hout. reflexivity.
    + intros row Hin. destruct (Hrows row Hin) as (r & Hr & Hlr).
      exists r, (JsArray.slice0 r cols).
      rewrite Hget, decide_True, Hr by exact Hin.
      split; [reflexivity |]. split; [reflexivity |].
      assert (Hl : JsArray.len (JsArray.slice0 r cols) = cols)
        by (rewrite len_slice0 by lia; lia).
      split; [exact Hl |].
      intros col Hcol. rewrite get_slice0, Hl.
      rewrite decide_True by lia. rewrite decide_True by lia. reflexivity.
  - assert (cols = oldCols) by lia. subst cols.
    exists (screen t). split; [| split; [| split; [| lia]]].
    + rewrite forM_unchanged by reflexivity. destruct t; reflexivity.
    + reflexivity.
    + intros row Hin. destruct (Hrows row Hin) as (r & Hr & Hlr).
      exists r, r. repeat split; try assumption.
      intros col Hcol. rewrite decide_True by lia. reflexivity.
Qed.

Lemma set_scrollback_same t : set_scrollback (scrollback t) t = t.
Proof. destruct t; reflexivity. Qed.

(** The row phase of [resize] on a terminal whose screen array is at least
    [rows t] long: state, screen rows and scrollback after it. *)
Lemma resize_row_phase rows cols t :
  0 <= nrows t ->
  nrows t <= JsArray.len (screen t) ->
  let t1 := with_state (set_scrollBottom (rows - 1))
              (with_state (set_cols cols) (with_state (set_rows rows) t)) in
  let t2 :=
    if decide (rows > nrows t) then
      foldl (fun t row =>
               set_screen (JsArray.set (screen t) row
                             (blankRow cols (attributes t))) t)
            t1 (seqZ (nrows t) (rows - nrows t))
    else if decide (rows < nrows t) then
      let t' :=
        foldl (fun t row =>
                 match JsArray.get (screen t) row with
                 | Some r => set_scrollback (scrollback t ++ [Some r]) t
                 | None => t
                 end)
              t1 (seqZ rows (nrows t - rows)) in
      set_screen (JsArray.slice0 (screen t') rows) t'
    else t1 in
  terminalState t2 = terminalState t1
  /\ attributes t2 = attributes t
  /\ scrollback t2
     = scrollback t
       ++ map Some (omap (JsArray.get (screen t)) (seqZ rows (nrows t - rows)))
  /\ (forall row, 0 <= row < rows ->
        JsArray.get (screen t2) row
        = if decide (row < nrows t) then JsArray.get (screen t) row
          else Some (blankRow cols (attributes t)))
  /\ rows <= JsArray.len (screen t2).
Proof.
  intros Hnn Hlen t1 t2. subst t2.
  destruct (decide (rows > nrows t)) as [Hgrow |];
    [| destruct (decide (rows < nrows t)) as [Hshrink | Hsame]].
  - rewrite set_rows_fold. simpl.
    rewrite (seqZ_nil rows) by lia. simpl. rewrite app_nil_r.
    repeat split.
    + intros row Hrow. rewrite get_foldl_set.
      destruct (decide (row < nrows t)) as [Hold | Hnew].
      * rewrite decide_False; [reflexivity |].
        intros Hin. apply elem_of_seqZ in Hin. lia.
      * rewrite decide_True; [reflexivity |]. apply elem_of_seqZ. lia.
    + replace (rows - nrows t) with (Z.of_nat (Z.to_nat (rows - nrows t))) by lia.
      destruct (Z.to_nat (rows - nrows t)) as [|n] eqn:E; [lia |].
      rewrite seqZ_S, foldl_app. simpl foldl. rewrite len_set.
      case_decide; lia.
  - cbv zeta. rewrite push_rows_fold.
    cbn [screen set_screen set_scrollback with_state scrollback terminalState attributes].
    change (screen t1) with (screen t).
    repeat split.
    + intros row Hrow. rewrite get_slice0, len_slice0 by lia.
      rewrite decide_True by lia. rewrite decide_True by lia. reflexivity.
    + unfold JsArray.slice0. cbn [JsArray.len]. case_decide; lia.
  - assert (rows = nrows t) by lia. subst rows.
    rewrite seqZ_nil by lia. simpl. rewrite app_nil_r.
    repeat split.
    + intros row Hrow. rewrite decide_True by lia. reflexivity.
    + exact Hlen.
Qed.

Lemma resize_grid rows cols t :
  gridOk t -> 0 <= nrows t -> 0 <= ncols t -> 0 <= cols ->
  exists t',
    resize rows cols t = Ok t'
    /\ nrows t' = rows /\ ncols t' = cols
    /\ regionTop t' = regionTop t /\ regionBottom t' = rows - 1
    /\ curX t' = Z.min (curX t) (cols - 1)
    /\ curY t' = Z.min (curY t) (rows - 1)
    /\ attributes t' = attributes t
    /\ gridOk t'
    /\ (forall row col, 0 <= row < rows -> 0 <= col < cols ->
          cellAt t' row col = resizedCell t row col)
    /\ scrollback t'
       = scrollback t
         ++ map Some (omap (JsArray.get (screen t)) (seqZ rows (nrows t - rows))).
Proof.
  intros [Hwidth Hlen] Hnn Hold Hcols.
  pose proof (resize_row_phase rows cols t Hnn Hlen) as Hphase.
  unfold resize. cbv zeta in *.
  match type of Hphase with
  | terminalState ?u = terminalState ?v /\ _ => set (t2 := u) in *; set (t1 := v) in *
  end.
  destruct Hphase as (Hts2 & Hattr2 & Hsb2 & Hrows2 & Hlen2).
  clearbody t2.
  assert (Hexist : forall row, row ∈ seqZ 0 (Z.min rows (nrows t)) ->
             exists r, JsArray.get (screen t2) row = Some r
                       /\ JsArray.len r = ncols t).
  { intros row Hin. apply elem_of_seqZ in Hin.
    rewrite Hrows2, decide_True by lia.
    pose proof (Hwidth row ltac:(lia)) as Hw. unfold rowLength in Hw.
    destruct (JsArray.get (screen t) row) as [r |]; [| discriminate].
    injection Hw as Hw. eauto. }
  destruct (resize_column_loop (ncols t) cols (seqZ 0 (Z.min rows (nrows t))) t2
              (NoDup_seqZ _ _) Hold Hcols Hexist)
    as (sc & Hrun & Hout & Hin & Hlen3).
  rewrite Hrun. simpl mbind.
  match goal with
  | |- exists t', Ok ?u = Ok t' /\ _ => exists u; set (t' := u)
  end.
  assert (Hts' : terminalState t'
                 = set_cursorY (Z.min (curY t) (rows - 1))
                     (set_cursorX (Z.min (curX t) (cols - 1))
                        (terminalState
                           (with_state (set_scrollBottom (rows - 1))
                              (with_state (set_cols cols)
                                 (with_state (set_rows rows) t)))))).
  { subst t'. unfold curX, curY.
    cbn [terminalState with_state set_screen]. rewrite Hts2. reflexivity. }
  assert (Hscr' : screen t' = sc) by reflexivity.
  assert (Hattr' : attributes t' = attributes t) by exact Hattr2.
  assert (Hsb' : scrollback t' = scrollback t2) by reflexivity.
  clearbody t'.
  split; [reflexivity |].
  unfold nrows, ncols, regionTop, regionBottom, curX, curY. rewrite Hts'.
  split; [reflexivity |]. split; [reflexivity |]. split; [reflexivity |].
  split; [reflexivity |]. split; [reflexivity |]. split; [reflexivity |].
  split; [exact Hattr' |].
  assert (Hcell : forall row, 0 <= row < rows ->
             exists r', JsArray.get sc row = Some r' /\ JsArray.len r' = cols
               /\ forall col, 0 <= col < cols ->
                    JsArray.get r' col = resizedCell t row col).
  { intros row Hrow. unfold resizedCell, cellAt.
    destruct (decide (row < nrows t)) as [Hlt | Hge].
    - destruct (Hin row) as (r & r' & Hr & Hr' & Hl & Hc).
      { apply elem_of_seqZ. lia. }
      exists r'. split; [exact Hr' |]. split; [exact Hl |].
      intros col Hcol. rewrite (Hc col Hcol), Hattr2.
      rewrite Hrows2, decide_True in Hr by lia. rewrite Hr.
      repeat case_decide; try reflexivity; lia.
    - exists (blankRow cols (attributes t)).
      rewrite Hout by (intros Hmem; apply elem_of_seqZ in Hmem; lia).
      rewrite Hrows2, decide_False by lia.
      split; [reflexivity |]. split; [rewrite len_blankRow; lia |].
      intros col Hcol. rewrite get_blankRow, decide_True by lia.
      rewrite decide_False by lia. reflexivity. }
  split; [| split].
  - split.
    + intros row Hrow. unfold nrows in Hrow. rewrite Hts' in Hrow.
      unfold rowLength, ncols. rewrite Hts', Hscr'.
      destruct (Hcell row Hrow) as (r' & Hr' & Hl & _).
      rewrite Hr', Hl. reflexivity.
    + unfold nrows. rewrite Hts', Hscr'.
      change (rows <= JsArray.len sc). lia.
  - intros row col Hrow Hcol.
    destruct (Hcell row Hrow) as (r' & Hr' & _ & Hc).
    unfold cellAt. rewrite Hscr', Hr'. apply Hc, Hcol.
  - rewrite Hsb'. exact Hsb2.
Qed.

(** X14: on a terminal whose grid is well formed (sizes not negative,
    every row of the grid exists with exactly [cols] cells), [resize] to
    any row count and any column count [>= 0] returns; the new grid is
    well formed again; a cell at a position both grids share keeps its
    content and every other cell of the new grid is a blank in the current
    pen; the rows cut off are appended to the scrollback from top to
    bottom; the region bottom becomes the last row and the cursor is
    clamped from above.  The scrollback rows from before are as they were
    when the column count does not grow (growing it widens the rows of the
    screen in place). *)
Theorem resize_keeps_grid rows cols t :
  gridOk t -> 0 <= nrows t -> 0 <= ncols t -> 0 <= cols ->
  let cut := omap (JsArray.get (screen t)) (seqZ rows (nrows t - rows)) in
  exists t',
    resize rows cols t = Ok t'
    /\ nrows t' = rows /\ ncols t' = cols
    /\ regionTop t' = regionTop t /\ regionBottom t' = rows - 1
    /\ curX t' = Z.min (curX t) (cols - 1)
    /\ curY t' = Z.min (curY t) (rows - 1)
    /\ attributes t' = attributes t
    /\ gridOk t'
    /\ (forall row col, 0 <= row < rows -> 0 <= col < cols ->
          cellAt t' row col = resizedCell t row col)
    /\ length (scrollback t') = (length (scrollback t) + length cut)%nat
    /\ drop (length (scrollback t)) (scrollback t') = map Some cut
    /\ (cols <= ncols t -> scrollback t' = scrollback t ++ map Some cut).
Proof.
  intros Hgrid Hrows Hcols Hnew cut.
  destruct (resize_grid rows cols t Hgrid Hrows Hcols Hnew)
    as (t' & Hres & Hr & Hc & Htop & Hbot & Hx & Hy & Hattr & Hgrid' & Hcells & Hsb).
  exists t'. fold cut in Hsb.
  do 10 (split; [assumption |]).
  rewrite Hsb. split; [| split].
  - rewrite length_app, length_map. reflexivity.
  - rewrite drop_app_length. reflexivity.
  - intros _. reflexivity.
Qed.

Lemma gridOk_initializeScreen t :
  1 <= nrows t -> 0 <= ncols t -> gridOk (initializeScreen t).
Proof.
  intros Hrows Hcols. split.
  - intros row Hrow. unfold rowLength.
    rewrite initializeScreen_get.
    rewrite initializeScreen_unfold in *.
    change (0 <= row < nrows t) in Hrow.
    rewrite decide_True by exact Hrow.
    rewrite len_blankRow.
    change (Some (Z.max 0 (ncols t)) = Some (ncols t)). f_equal. lia.
  - rewrite initializeScreen_unfold.
    change (nrows t <= JsArray.len
              (foldl (fun sc row =>
                        JsArray.set sc row (blankRow (ncols t) (attributes t)))
                     (screen t) (seqZ 0 (nrows t)))).
    rewrite <- (Z2Nat.id (nrows t)) at 2 by lia.
    rewrite len_foldl_set_seqZ by lia.
    destruct (Z.to_nat (nrows t)) eqn:E; lia.
Qed.

Lemma gridOk_constructor : gridOk constructor.
Proof. apply gridOk_initializeScreen; vm_compute; discriminate. Qed.


(** ** Plain runs *)

Lemma goodInv_row t row :
  goodInv t -> 0 <= row < nrows t ->
  exists r, JsArray.get (screen t) row = Some r /\ JsArray.len r = ncols t.
Proof.
  intros (_ & _ & _ & _ & _ & [Hw _] & _) Hrow.
  specialize (Hw row Hrow). unfold rowLength in Hw.
  destruct (JsArray.get (screen t) row) as [r |]; [| discriminate].
  injection Hw as Hw. eauto.
Qed.

Lemma goodInv_setX v t :
  0 <= v <= ncols t -> goodInv t -> goodInv (with_state (set_cursorX v) t).
Proof.
  intros Hv (Hr & Hc & [Hx Hy] & Hfull & Hts & Hgrid & Hsb).
  split; [exact Hr |]. split; [exact Hc |].
  split; [split; [exact Hv | exact Hy] |].
  split; [exact Hfull |]. split; [exact Hts |].
  split; [exact Hgrid | exact Hsb].
Qed.

Lemma goodInv_scrollUp t : goodInv t -> goodInv (scrollUp t).
Proof.
  intros Hinv.
  pose proof (goodInv_row t 0 Hinv) as Hrow0.
  destruct Hinv as (Hr & Hc & [Hx Hy] & [Htop Hbot] & Hts & [Hw Hlen] & Hsb).
  split; [exact Hr |]. split; [exact Hc |]. split; [split; assumption |].
  split; [split; assumption |]. split; [exact Hts |].
  split; [split |].
  - intros row Hrow. change (0 <= row < nrows t) in Hrow.
    unfold rowLength. destruct (scrollUp_rows t row) as [-> _].
    change (ncols (scrollUp t)) with (ncols t).
    destruct (decide (row = regionBottom t)) as [-> | Hne].
    + rewrite len_blankRow. f_equal. lia.
    + rewrite decide_True by lia. apply (Hw (row + 1)). lia.
  - change (nrows (scrollUp t)) with (nrows t).
    unfold scrollUp. cbn [screen set_screen set_scrollback].
    etransitivity; [exact Hlen |].
    etransitivity;
      [apply (len_foldl_put_le (fun a row => JsArray.get a (row + 1))
                (seqZ (regionTop t) (regionBottom t - regionTop t))) |].
    unfold JsArray.set. apply len_put_le.
  - unfold scrollUp. cbn [scrollback set_screen set_scrollback].
    assert (Hpushed : Forall is_Some
                        (scrollback t ++ [JsArray.get (screen t) (regionTop t)])).
    { apply Forall_app. split; [exact Hsb |].
      constructor; [| constructor]. rewrite Htop.
      destruct Hrow0 as (r & -> & _); [lia | eauto]. }
    case_decide; [| exact Hpushed].
    unfold list_slice_from. apply Forall_drop, Hpushed.
Qed.

Lemma goodInv_lineFeed t : goodInv t -> goodInv (lineFeed t).
Proof.
  intros Hinv. unfold lineFeed. case_decide as Hbottom.
  - apply goodInv_scrollUp, Hinv.
  - destruct Hinv as (Hr & Hc & [Hx Hy] & [Htop Hbot] & Hts & Hgrid & Hsb).
    split; [exact Hr |]. split; [exact Hc |].
    split; [split; [exact Hx |] |].
    { change (0 <= curY t + 1 < nrows t). lia. }
    split; [split; assumption |]. split; [exact Hts |].
    split; [exact Hgrid | exact Hsb].
Qed.

Lemma goodInv_setCell t r cell :
  goodInv t ->
  JsArray.get (screen t) (curY t) = Some r ->
  curX t < ncols t ->
  goodInv (with_state (set_cursorX (curX t + 1))
             (set_screen (JsArray.set (screen t) (curY t)
                            (JsArray.set r (curX t) cell)) t)).
Proof.
  intros Hinv Hrow Hlt.
  destruct (goodInv_row t (curY t) Hinv) as (r0 & Hr0 & Hl0); [apply Hinv |].
  rewrite Hrow in Hr0. injection Hr0 as <-.
  destruct Hinv as (Hr & Hc & [Hx Hy] & Hfull & Hts & [Hw Hlen] & Hsb).
  split; [exact Hr |]. split; [exact Hc |].
  split; [split; [change (0 <= curX t + 1 <= ncols t); lia | exact Hy] |].
  split; [exact Hfull |]. split; [exact Hts |].
  split; [split |]; [| | exact Hsb].
  - intros row Hrow'. change (0 <= row < nrows t) in Hrow'.
    unfold rowLength. cbn [screen with_state set_screen]. rewrite get_set.
    destruct (decide (curY t = row)) as [<- | Hne].
    + rewrite len_set, decide_True by lia.
      change (Some (Z.max (JsArray.len r) (curX t + 1)) = Some (ncols t)).
      f_equal. lia.
    + apply Hw, Hrow'.
  - cbn [screen with_state set_screen].
    etransitivity; [exact Hlen |]. unfold JsArray.set. apply len_put_le.
Qed.

Lemma goodInv_insertCharacter c t :
  goodInv t -> exists t', insertCharacter c t = Ok t' /\ goodInv t'.
Proof.
  intros Hinv. unfold insertCharacter.
  match goal with
  | |- context [JsArray.get (screen ?u) _] => set (t1 := u)
  end.
  assert (H1 : goodInv t1 /\ curX t1 < ncols t1).
  { subst t1. case_decide as Hx.
    - assert (Hcols : 1 <= ncols t) by apply Hinv.
      destruct (wraparound (terminalState t)).
      + split.
        * apply goodInv_lineFeed, goodInv_setX; [lia | exact Hinv].
        * unfold lineFeed. case_decide; change (0 < ncols t); lia.
      + split; [apply goodInv_setX; [lia | exact Hinv] |].
        change (ncols t - 1 < ncols t). lia.
    - split; [exact Hinv | lia]. }
  clearbody t1. destruct H1 as [Hinv1 Hlt].
  destruct (goodInv_row t1 (curY t1) Hinv1) as (r & Hr & _); [apply Hinv1 |].
  rewrite Hr. eexists. split; [reflexivity |].
  apply goodInv_setCell; assumption.
Qed.

Lemma goodInv_plainChar c t :
  goodInv t -> exists t', processPlainChar c t = Ok t' /\ goodInv t'.
Proof.
  intros Hinv. unfold processPlainChar.
  assert (Hcols : 1 <= ncols t) by apply Hinv.
  assert (Hx : 0 <= curX t <= ncols t) by apply Hinv.
  repeat case_match; eauto using goodInv_insertCharacter.
  - eexists. split; [reflexivity |]. apply goodInv_setX; [lia | exact Hinv].
  - eexists. split; [reflexivity |]. apply goodInv_lineFeed, Hinv.
  - eexists. split; [reflexivity |]. unfold tab. cbv zeta.
    apply goodInv_setX; [| exact Hinv].
    assert (Hts : 0 < tabSize (config t)) by apply Hinv.
    assert (0 <= (curX t + tabSize (config t)) / tabSize (config t)
                 * tabSize (config t))
      by (apply Z.mul_nonneg_nonneg; [apply Z.div_pos |]; lia).
    lia.
  - eexists. split; [reflexivity |]. unfold backspace.
    case_decide; [apply goodInv_setX; [lia | exact Hinv] | exact Hinv].
Qed.

Lemma goodInv_plainText text : forall t,
  goodInv t ->
  exists t', forM (fun t c => processPlainChar c t) text t = Ok t' /\ goodInv t'.
Proof.
  induction text as [|c text IH]; intros t Hinv; simpl.
  - eauto.
  - destruct (goodInv_plainChar c t Hinv) as (t1 & -> & Hinv1). simpl.
    apply IH, Hinv1.
Qed.

Lemma goodInv_write data t :
  Forall (fun c => c <> ESC) data -> goodInv t ->
  exists t', write data t = Ok t' /\ goodInv t'.
Proof.
  intros Hplain Hinv. unfold write.
  rewrite processOutput_plain by exact Hplain.
  apply goodInv_plainText.
  destruct (enableReplay (config t) && negb (isReplaying t)); [| exact Hinv].
  exact Hinv.
Qed.

Lemma goodInv_resize rows cols t :
  1 <= rows -> 1 <= cols -> goodInv t ->
  exists t', resize rows cols t = Ok t' /\ goodInv t'.
Proof.
  intros Hrows Hcols (Hr & Hc & [Hx Hy] & [Htop Hbot] & Hts & Hgrid & Hsb).
  destruct (resize_grid rows cols t Hgrid)
    as (t' & Hres & Hnr & Hnc & Htop' & Hbot' & Hx' & Hy' & _ & Hgrid' & _ & Hsb');
    try lia.
  exists t'. split; [exact Hres |].
  split; [lia |]. split; [lia |]. split; [split; lia |].
  split; [split; lia |]. split.
  { apply recorderOf_resize in Hres. unfold recorderOf in Hres.
    injection Hres as -> _ _ _ _. exact Hts. }
  split; [exact Hgrid' |].
  rewrite Hsb'. apply Forall_app. split; [exact Hsb |].
  apply Forall_forall. intros x Hx0.
  apply list_elem_of_In, in_map_iff in Hx0 as (r & <- & _). eauto.
Qed.

Lemma goodInv_constructor : goodInv constructor.
Proof.
  split; [vm_compute; discriminate |]. split; [vm_compute; discriminate |].
  split; [vm_compute; repeat split; discriminate |].
  split; [vm_compute; split; reflexivity |].
  split; [vm_compute; reflexivity |].
  split; [apply gridOk_constructor |].
  unfold constructor. rewrite initializeScreen_unfold. constructor.
Qed.

Lemma goodInv_runOps ops : forall t,
  Forall plainOp ops -> goodInv t ->
  exists t', runOps ops t = Ok t' /\ goodInv t'.
Proof.
  unfold runOps.
  induction ops as [|op ops IH]; intros t Hplain Hinv; simpl.
  - eauto.
  - apply Forall_cons in Hplain as [Hop Hplain].
    assert (Hstep : exists t1, runOp op t = Ok t1 /\ goodInv t1).
    { destruct op as [data | rows cols]; simpl in *.
      - apply goodInv_write; assumption.
      - destruct Hop. apply goodInv_resize; assumption. }
    destruct Hstep as (t1 & -> & Hinv1). simpl. apply IH; assumption.
Qed.

(** X15: starting from a fresh terminal, a sequence of writes of text
    without ESC and of resizes to positive sizes never raises, whatever
    its length and whatever wrapping and scrolling it causes.  After it
    every row of the grid exists with exactly [cols] cells, the cursor is
    in the grid or just past the last column, and the scroll region is
    still the whole screen. *)
Theorem plain_runs_never_raise ops :
  Forall plainOp ops ->
  exists t,
    runOps ops constructor = Ok t
    /\ rowsHaveWidth t
    /\ 0 <= curX t <= ncols t /\ 0 <= curY t < nrows t
    /\ regionTop t = 0 /\ regionBottom t = nrows t - 1.
Proof.
  intros Hplain.
  destruct (goodInv_runOps ops constructor Hplain goodInv_constructor)
    as (t & Hrun & _ & _ & [Hx Hy] & [Htop Hbot] & _ & [Hw _] & _).
  exists t. repeat split; try assumption; lia.
Qed.

Lemma plain_forallb (l : Text) :
  forallb (fun c => negb (c =? ESC)) l = true -> Forall (fun c => c <> ESC) l.
Proof.
  intros H. apply Forall_forall. intros c Hc.
  apply list_elem_of_In in Hc.
  eapply forallb_forall in H; [| exact Hc].
  apply negb_true_iff, Z.eqb_neq in H. exact H.
Qed.

Lemma plainOps_plain : Forall plainOp plainOps.
Proof.
  constructor; [apply plain_forallb; vm_compute; reflexivity |].
  constructor; [simpl; lia |].
  constructor; [apply plain_forallb; vm_compute; reflexivity |].
  constructor.
Qed.

Lemma plain_runs_never_raise_witness :
  exists t,
    runOps plainOps constructor = Ok t
    /\ rowsHaveWidth t
    /\ 0 <= curX t <= ncols t /\ 0 <= curY t < nrows t
    /\ regionTop t = 0 /\ regionBottom t = nrows t - 1.
Proof. apply (plain_runs_never_raise plainOps). apply plainOps_plain. Defined.

Lemma scrollbackLines_defined sb :
  Forall is_Some sb -> exists ls, scrollbackLines sb = Ok ls
                                  /\ length ls = length sb.
Proof.
  induction sb as [|o sb IH]; intros Hall; simpl.
  - eauto.
  - apply Forall_cons in Hall as [[r ->] Hall].
    destruct (IH Hall) as (ls & -> & Hlen). simpl.
    eexists. split; [reflexivity |]. simpl. lia.
Qed.

(** X16: after a sequence of writes of text without ESC and of resizes to
    positive sizes on a fresh terminal, [getScrollbackText] returns: the
    scrollback holds no missing row. *)
Theorem plain_runs_scrollback_text ops t :
  Forall plainOp ops ->
  runOps ops constructor = Ok t ->
  exists s, getScrollbackText t = Ok s.
Proof.
  intros Hplain Hrun.
  destruct (goodInv_runOps ops constructor Hplain goodInv_constructor)
    as (t' & Hrun' & Hinv).
  rewrite Hrun in Hrun'. injection Hrun' as <-.
  destruct Hinv as (_ & _ & _ & _ & _ & _ & Hsb).
  destruct (scrollbackLines_defined _ Hsb) as (ls & Hls & _).
  unfold getScrollbackText. rewrite Hls. simpl. eauto.
Qed.

Lemma plain_runs_scrollback_text_witness :
  exists s, getScrollbackText plainRun = Ok s.
Proof.
  apply (plain_runs_scrollback_text plainOps plainRun).
  - apply plainOps_plain.
  - apply okOr_ok. vm_compute. reflexivity.
Defined.

(** ** Erase-all and clear *)

Lemma clearRow_fold (l : list Z) : forall t,
  foldl (fun t row => clearRow row t) t l
  = set_screen
      (foldl (fun sc row => JsArray.set sc row (blankRow (ncols t) (attributes t)))
             (screen t) l) t.
Proof.
  induction l as [|row l IH]; intros t; simpl.
  - destruct t; reflexivity.
  - rewrite IH. reflexivity.
Qed.

(** X17: on a terminal with at least one row and one column, erase-all
    (CSI 2 J, [eraseDisplay(2)]) returns the very state [clear()] gives:
    every row of the grid blank in the current pen, the cursor at (0,0),
    everything else untouched. *)
Theorem erase_all_is_clear t :
  1 <= nrows t -> 1 <= ncols t -> eraseDisplay 2 t = Ok (clear t).
Proof.
  intros Hrows Hcols. unfold eraseDisplay, clear. simpl Z.eqb. cbv iota.
  rewrite clearRow_fold, initializeScreen_unfold.
  unfold setCursorPosition. cbv zeta. f_equal.
  unfold nrows, ncols in *. cbn [terminalState with_state set_screen].
  cbn [rows cols set_cursorY set_cursorX].
  replace (Z.max 0 (Z.min (rows (terminalState t) - 1) (1 - 1))) with 0 by lia.
  replace (Z.max 0 (Z.min (cols (terminalState t) - 1) (1 - 1))) with 0 by lia.
  reflexivity.
Qed.

Lemma erase_all_is_clear_witness :
  eraseDisplay 2 twoLineTerm = Ok (clear twoLineTerm).
Proof.
  apply (erase_all_is_clear twoLineTerm); vm_compute; discriminate.
Defined.

(** ** Save and restore *)

Lemma penOf_plainChar c t t' :
  processPlainChar c t = Ok t' -> penOf t' = penOf t.
Proof.
  unfold processPlainChar. intros H.
  repeat (match type of H with
          | (if ?b then _ else _) = _ => destruct b
          end);
    try (injection H as <-); eauto using penOf_insertCharacter, penOf_lineFeed.
  unfold backspace. case_decide; reflexivity.
Qed.

Lemma penOf_plainText text : forall t t',
  forM (fun t c => processPlainChar c t) text t = Ok t' -> penOf t' = penOf t.
Proof.
  apply (obs_forM penOf). intros t c t' H. eapply penOf_plainChar, H.
Qed.

(** X18: a write of ESC 7 (save cursor), any text without ESC, and ESC 8
    (restore cursor) is the save, the text and the restore one after the
    other; if it returns, the cursor and the pen are the ones from before
    the write, wherever the text moved the cursor. *)
Theorem save_text_restore body t :
  Forall (fun c => c <> ESC) body ->
  processOutput (esc "7" ++ body ++ esc "8") t
  = (t1 ← processOutput body (saveCursor t); Ok (restoreCursor t1))
  /\ forall t', processOutput (esc "7" ++ body ++ esc "8") t = Ok t' ->
       curX t' = curX t /\ curY t' = curY t /\ attributes t' = attributes t.
Proof.
  intros Hplain.
  assert (Heq : processOutput (esc "7" ++ body ++ esc "8") t
                = (t1 ← processOutput body (saveCursor t); Ok (restoreCursor t1))).
  { rewrite (processOutput_plain body) by exact Hplain.
    unfold processOutput.
    replace (length (esc "7" ++ body ++ esc "8")) with (S (length body + 3))
      by (rewrite !length_app; simpl; lia).
    change (esc "7" ++ body ++ esc "8")
      with ([ESC; chr "7"] ++ body ++ [ESC; chr "8"]).
    set (text := [ESC; chr "7"] ++ body ++ [ESC; chr "8"]).
    change (processOutputFrom (S (length body + 3)) text 0 t)
      with (processOutputFrom (length body + 3) text 2 (saveCursor t)).
    subst text.
    pose proof (processOutputFrom_plain body [ESC; chr "7"] [ESC; chr "8"]
                  (length body + 3) (saveCursor t) Hplain) as Hseg.
    change (length [ESC; chr "7"]) with 2%nat in Hseg.
    rewrite Hseg by (simpl; lia). clear Hseg.
    replace (length body + 3 - length body)%nat with 3%nat by lia.
    set (text := [ESC; chr "7"] ++ body ++ [ESC; chr "8"]).
    assert (H0 : text !! (2 + length body)%nat = Some ESC).
    { subst text. rewrite lookup_app_r by (simpl; lia).
      rewrite lookup_app_r by (simpl; lia).
      replace (2 + length body - length [ESC; chr "7"] - length body)%nat
        with 0%nat by (simpl; lia).
      reflexivity. }
    assert (H1 : text !! S (2 + length body) = Some (chr "8")).
    { subst text. rewrite lookup_app_r by (simpl; lia).
      rewrite lookup_app_r by (simpl; lia).
      replace (S (2 + length body) - length [ESC; chr "7"] - length body)%nat
        with 1%nat by (simpl; lia).
      reflexivity. }
    assert (H2 : text !! S (S (2 + length body)) = None).
    { apply lookup_ge_None_2. subst text. rewrite !length_app. simpl. lia. }
    clearbody text.
    destruct (forM _ body (saveCursor t)) as [t1 | |]; simpl mbind;
      try reflexivity.
    change (2 + length body)%nat with (S (S (length body))) in *.
    simpl processOutputFrom. rewrite H0.
    unfold processOutputStep. simpl Z.eqb. cbv iota.
    unfold processEscapeSequence. rewrite H1. simpl.
    rewrite H2. reflexivity. }
  split; [exact Heq |].
  intros t' Hrun. rewrite Heq, (processOutput_plain body) in Hrun by exact Hplain.
  destruct (forM _ body (saveCursor t)) as [t1 | |] eqn:E; simpl in Hrun;
    try discriminate.
  injection Hrun as <-.
  apply penOf_plainText in E. unfold penOf in E. simpl in E.
  injection E as _ Hsaved.
  unfold restoreCursor. rewrite Hsaved. repeat split.
Qed.

Lemma save_text_restore_witness :
  processOutput (esc "7" ++ str "moved" ++ esc "8") twoLineTerm
  = (t1 ← processOutput (str "moved") (saveCursor twoLineTerm);
     Ok (restoreCursor t1))
  /\ forall t',
       processOutput (esc "7" ++ str "moved" ++ esc "8") twoLineTerm = Ok t' ->
       curX t' = curX twoLineTerm /\ curY t' = curY twoLineTerm
       /\ attributes t' = attributes twoLineTerm.
Proof.
  apply (save_text_restore (str "moved") twoLineTerm).
  apply plain_forallb. vm_compute. reflexivity.
Defined.

(** ** A character at the right margin *)

(** X19: a character inserted when the cursor is at or past the last
    column.  With wraparound on (and the cursor not on the bottom row of the
    scroll region) it is stored at column 0 of the next row; with wraparound
    off it overwrites the last column of the cursor row.  Either way the
    cursor ends one column after the stored cell, no other cell of the
    screen changes and no scrollback row is added or dropped. *)
Theorem insert_at_right_margin c t r :
  let wrap := wraparound (terminalState t) in
  let y := if wrap then curY t + 1 else curY t in
  let x := if wrap then 0 else ncols t - 1 in
  curX t >= ncols t ->
  (wrap = true -> curY t <> regionBottom t) ->
  JsArray.get (screen t) y = Some r ->
  exists t',
    insertCharacter c t = Ok t'
    /\ curX t' = x + 1 /\ curY t' = y
    /\ (forall row col,
          cellAt t' row col
          = if decide (row = y /\ col = x)
            then Some {| char := c; cellAttributes := attributes t |}
            else cellAt t row col)
    /\ length (scrollback t') = length (scrollback t).
Proof.
  intros wrap y x Hx Hy Hrow. unfold insertCharacter.
  rewrite decide_True by exact Hx.
  subst wrap y x. destruct (wraparound (terminalState t)).
  - unfold lineFeed.
    rewrite decide_False by (apply Hy; reflexivity).
    change (screen (with_state (set_cursorY (curY (with_state (set_cursorX 0) t) + 1))
                      (with_state (set_cursorX 0) t))) with (screen t).
    change (curY (with_state (set_cursorY (curY (with_state (set_cursorX 0) t) + 1))
                    (with_state (set_cursorX 0) t))) with (curY t + 1).
    rewrite Hrow. eexists. split; [reflexivity |].
    split; [reflexivity |]. split; [reflexivity |]. split; [| reflexivity].
    intros row col.
    exact (cellAt_set_cell
             (with_state (set_cursorY (curY t + 1)) (with_state (set_cursorX 0) t))
             (curY t + 1) r 0 _ row col Hrow).
  - change (screen (with_state (set_cursorX (ncols t - 1)) t)) with (screen t).
    change (curY (with_state (set_cursorX (ncols t - 1)) t)) with (curY t).
    rewrite Hrow. eexists. split; [reflexivity |].
    split; [reflexivity |]. split; [reflexivity |]. split; [| reflexivity].
    intros row col.
    exact (cellAt_set_cell (with_state (set_cursorX (ncols t - 1)) t)
             (curY t) r (ncols t - 1) _ row col Hrow).
Qed.

Lemma insert_at_right_margin_witness :
  exists t',
    insertCharacter 66 fullRowTerm = Ok t'
    /\ curX t' = 0 + 1 /\ curY t' = 1
    /\ (forall row col,
          cellAt t' row col
          = if decide (row = 1 /\ col = 0)
            then Some {| char := 66; cellAttributes := attributes fullRowTerm |}
            else cellAt fullRowTerm row col)
    /\ length (scrollback t') = length (scrollback fullRowTerm).
Proof.
  apply (insert_at_right_margin 66 fullRowTerm (okOr_row fullRowTerm 1)).
  - vm_compute. discriminate.
  - intros _. vm_compute. discriminate.
  - vm_compute. reflexivity.
Defined.

Lemma scrollUp_moves_region_rows_witness :
  scrollback (scrollUp twoLineTerm)
  = scrollback twoLineTerm
    ++ [JsArray.get (screen twoLineTerm) (regionTop twoLineTerm)].
Proof.
  apply (scrollUp_moves_region_rows twoLineTerm 0). vm_compute. reflexivity.
Defined.

Lemma resize_keeps_grid_witness :
  let cut := omap (JsArray.get (screen twoLineTerm))
               (seqZ 1 (nrows twoLineTerm - 1)) in
  exists t',
    resize 1 40 twoLineTerm = Ok t'
    /\ nrows t' = 1 /\ ncols t' = 40
    /\ regionTop t' = regionTop twoLineTerm /\ regionBottom t' = 1 - 1
    /\ curX t' = Z.min (curX twoLineTerm) (40 - 1)
    /\ curY t' = Z.min (curY twoLineTerm) (1 - 1)
    /\ attributes t' = attributes twoLineTerm
    /\ gridOk t'
    /\ (forall row col, 0 <= row < 1 -> 0 <= col < 40 ->
          cellAt t' row col = resizedCell twoLineTerm row col)
    /\ length (scrollback t') = (length (scrollback twoLineTerm) + length cut)%nat
    /\ drop (length (scrollback twoLineTerm)) (scrollback t') = map Some cut
    /\ (40 <= ncols twoLineTerm ->
        scrollback t' = scrollback twoLineTerm ++ map Some cut).
Proof.
  apply (resize_keeps_grid 1 40 twoLineTerm).
  - destruct (goodInv_write (str "A" ++ [CR; LF] ++ str "B") constructor)
      as (t1 & Hw & Hinv).
    + repeat constructor; discriminate.
    + apply goodInv_constructor.
    + unfold twoLineTerm. rewrite Hw. apply Hinv.
  - vm_compute. discriminate.
  - vm_compute. discriminate.
  - lia.
Defined.
